(** * vite-bundle-analyzer: source-map attribution and report naming

    A shallow embedding of
      - [convertSourcemapToContents], [splitBytesByNewLine],
        [getStringFromSerializeMappings] and [getSourceMappings]
        (the source-map module of the analyzer), and
      - [closeBundle] with the module-level [callCount]
        (src/server/index.ts),
    together with the properties the specification states about them.

    JavaScript values are modelled as follows.
      - A [Uint8Array] is a [list byte].
      - A text string whose columns matter is the list of its UTF-16 code
        units ([JS.Str], a [list Z]); [String.prototype.substring] and [+=]
        are written on that list.
      - Property names, module ids and file names are [string]s.
      - A [number] that holds a line, a column or a counter is a [Z]
        (exact for the safe integers, which is all the source-map library
        produces).
      - An object used as a dictionary is the list of its own properties in
        creation order; [JS.for_in] gives the order in which [for ... in]
        and [Object.keys] visit them (array-index keys ascending, then the
        other keys in creation order). *)

From Stdlib Require Import List ZArith Lia Bool String Ascii.
From Stdlib Require Import Strings.Byte DecimalString.
From Stdlib Require DecimalZ.
From Stdlib Require Import Sorting.Sorted Permutation.
Import ListNotations.
Local Open Scope Z_scope.

(* ================================================================== *)
(** ** JavaScript built-ins used by the source                          *)
(* ================================================================== *)

Module JS.

(** A string as the sequence of its UTF-16 code units. *)
Definition Str := list Z.

(** The code units of an ASCII literal. *)
Fixpoint lit (s : string) : Str :=
  match s with
  | EmptyString => []
  | String c s' => Z.of_nat (nat_of_ascii c) :: lit s'
  end.

(** [String.prototype.substring(start, end)]: both arguments are clamped
    to [0, length] and swapped when [start > end]; an omitted [end] is the
    length. *)
Definition clamp (len x : Z) : Z := Z.min (Z.max x 0) len.

Definition substring (s : Str) (start : Z) (end_ : option Z) : Str :=
  let len := Z.of_nat (List.length s) in
  let intStart := clamp len start in
  let intEnd := match end_ with None => len | Some e => clamp len e end in
  let from := Z.min intStart intEnd in
  let to := Z.max intStart intEnd in
  firstn (Z.to_nat (to - from)) (skipn (Z.to_nat from) s).

(** [arr[i]] for a number [i]: [undefined] off either end. *)
Definition index {A : Type} (arr : list A) (i : Z) : option A :=
  if i <? 0 then None else nth_error arr (Z.to_nat i).

(** *** Property keys

    [array_index k] is [Some n] when the property name of [k] is the
    canonical decimal numeral of an integer [0 <= n < 2^32 - 1]. *)
Class PropertyKey (K : Type) := {
  key_eqb : K -> K -> bool;
  key_eqb_eq : forall a b, key_eqb a b = true <-> a = b;
  array_index : K -> option Z
}.

Definition max_array_index : Z := 4294967295.  (* 2^32 - 1 *)

(** Keys written as numbers ([acc[generatedLine]]): the property name is
    [ToString(n)], and [parseInt] of that name is [n] again. *)
Definition number_index (n : Z) : option Z :=
  if (0 <=? n) && (n <? max_array_index) then Some n else None.

#[export] Instance number_key : PropertyKey Z :=
  {| key_eqb := Z.eqb; key_eqb_eq := Z.eqb_eq;
     array_index := number_index |}.

(** Keys written as strings ([hints[id]]). *)
Definition digit_of (c : ascii) : option Z :=
  let n := Z.of_nat (nat_of_ascii c) in
  if (48 <=? n) && (n <=? 57) then Some (n - 48) else None.

Fixpoint digits (acc : Z) (s : string) : option Z :=
  match s with
  | EmptyString => Some acc
  | String c s' =>
      match digit_of c with
      | Some d => digits (10 * acc + d) s'
      | None => None
      end
  end.

Definition string_index (s : string) : option Z :=
  match s with
  | EmptyString => None
  | String c s' =>
      if Ascii.eqb c "0"%char && negb (String.eqb s' EmptyString) then None
      else match digits 0 s with
           | Some n => if n <? max_array_index then Some n else None
           | None => None
           end
  end.

#[export] Instance string_key : PropertyKey string :=
  {| key_eqb := String.eqb; key_eqb_eq := String.eqb_eq;
     array_index := string_index |}.

(** *** Objects as ordered own-property lists *)
Section Object.
Context {K V : Type} `{PropertyKey K}.

Definition Obj := list (K * V).

Fixpoint get (o : Obj) (k : K) : option V :=
  match o with
  | [] => None
  | (k', v) :: o' => if key_eqb k' k then Some v else get o' k
  end.

(** [k in o], for an object whose prototype chain has no property [k]. *)
Definition has (o : Obj) (k : K) : bool :=
  match get o k with Some _ => true | None => false end.

(** [o[k] = v]: an existing property keeps its place. *)
Fixpoint set (o : Obj) (k : K) (v : V) : Obj :=
  match o with
  | [] => [(k, v)]
  | (k', v') :: o' =>
      if key_eqb k' k then (k', v) :: o' else (k', v') :: set o' k v
  end.

Definition is_index (k : K) : bool :=
  match array_index k with Some _ => true | None => false end.

Fixpoint insert_index (n : Z) (k : K) (l : list (Z * K)) : list (Z * K) :=
  match l with
  | [] => [(n, k)]
  | (m, k') :: l' =>
      if n <? m then (n, k) :: l else (m, k') :: insert_index n k l'
  end.

Fixpoint index_keys (ks : list K) : list (Z * K) :=
  match ks with
  | [] => []
  | k :: ks' =>
      match array_index k with
      | Some n => insert_index n k (index_keys ks')
      | None => index_keys ks'
      end
  end.

(** The keys in the order of [for (const k in o)]. *)
Definition for_in (o : Obj) : list K :=
  map snd (index_keys (map fst o))
    ++ filter (fun k => negb (is_index k)) (map fst o).
End Object.

Arguments Obj : clear implicits.

(** [if (!(k in o)) o[k] = []; o[k].push(x)] *)
Definition push_at {K A : Type} `{PropertyKey K}
    (o : Obj K (list A)) (k : K) (x : A) : Obj K (list A) :=
  let o := if has o k then o else set o k [] in
  match get o k with
  | Some arr => set o k (arr ++ [x])
  | None => o
  end.

(** *** [Array.prototype.sort(compareFn)]

    The sort is stable; [compareFn a b > 0] places [a] after [b]. *)
Section Sort.
Context {A : Type} (compareFn : A -> A -> Z).

Fixpoint sort_insert (x : A) (l : list A) : list A :=
  match l with
  | [] => [x]
  | y :: l' =>
      if compareFn x y <=? 0 then x :: l else y :: sort_insert x l'
  end.

Fixpoint sort (l : list A) : list A :=
  match l with
  | [] => []
  | x :: l' => sort_insert x (sort l')
  end.
End Sort.

(** *** [new TextDecoder().decode(bytes)]

    The UTF-8 decoder of the Encoding standard, in replacement mode
    ([fatal] is false) and with [ignoreBOM] false, followed by the
    conversion of the scalar values to UTF-16 code units. *)
Module TextDecoder.

Record Pending := {
  code_point : Z;
  bytes_needed : nat;
  lower_boundary : Z;
  upper_boundary : Z
}.

Definition replacement : Z := 65533.  (* U+FFFD *)

(** A byte met when no sequence is open. *)
Definition lead (b : Z) : list Z * option Pending :=
  if b <=? 127 then ([b], None)
  else if (194 <=? b) && (b <=? 223) then
    ([], Some {| code_point := Z.land b 31; bytes_needed := 1;
                 lower_boundary := 128; upper_boundary := 191 |})
  else if (224 <=? b) && (b <=? 239) then
    ([], Some {| code_point := Z.land b 15; bytes_needed := 2;
                 lower_boundary := if b =? 224 then 160 else 128;
                 upper_boundary := if b =? 237 then 159 else 191 |})
  else if (240 <=? b) && (b <=? 244) then
    ([], Some {| code_point := Z.land b 7; bytes_needed := 3;
                 lower_boundary := if b =? 240 then 144 else 128;
                 upper_boundary := if b =? 244 then 143 else 191 |})
  else ([replacement], None).

Fixpoint run (st : option Pending) (bs : list byte) : list Z :=
  match bs with
  | [] => match st with None => [] | Some _ => [replacement] end
  | b0 :: bs' =>
      let b := Z.of_N (Byte.to_N b0) in
      match st with
      | None => let (out, st') := lead b in out ++ run st' bs'
      | Some p =>
          if (lower_boundary p <=? b) && (b <=? upper_boundary p) then
            let cp := Z.lor (Z.shiftl (code_point p) 6) (Z.land b 63) in
            match bytes_needed p with
            | S (S n) =>
                run (Some {| code_point := cp; bytes_needed := S n;
                             lower_boundary := 128;
                             upper_boundary := 191 |}) bs'
            | _ => cp :: run None bs'
            end
          else
            (* the byte is put back and read again as a lead byte *)
            let (out, st') := lead b in
            replacement :: out ++ run st' bs'
      end
  end.

Definition strip_bom (cps : list Z) : list Z :=
  match cps with
  | 65279 :: rest => rest
  | _ => cps
  end.

Definition utf16 (cp : Z) : Str :=
  if cp <? 65536 then [cp]
  else [55296 + Z.shiftr (cp - 65536) 10; 56320 + Z.land (cp - 65536) 1023].

Definition decode (bytes : list byte) : Str :=
  flat_map utf16 (strip_bom (run None bytes)).
End TextDecoder.

End JS.

Import JS.

(* ================================================================== *)
(** ** The interface of the [source-map] package                        *)
(* ================================================================== *)

Module SourceMap.

(** [MappingItem]: [null] is [None]. *)
Record MappingItem := {
  source : option string;
  generatedLine : Z;
  generatedColumn : Z;
  lastGeneratedColumn : option Z;
  originalLine : option Z;
  originalColumn : option Z;
  name : option string
}.

Inductive Order := GENERATED_ORDER | ORIGINAL_ORDER.

(** What the source reads from a parsed consumer: its [sources], the
    embedded content of a source ([sourceContentFor(source, true)], which
    answers [null] and does not throw when the content is missing), and
    the mappings in the order [eachMapping] hands them to its callback. *)
Record Consumer := {
  sources : list string;
  sourceContentFor : string -> option string;
  eachMapping : Order -> list MappingItem
}.

End SourceMap.

Import SourceMap.

(** The result of an [async] function. *)
Inductive Promise (A : Type) : Type :=
  | Resolved (value : A)
  | Rejected.
Arguments Resolved {A} value.
Arguments Rejected {A}.

(** A non-empty string is truthy. *)
Definition truthy (s : string) : bool := negb (String.eqb s EmptyString).

(** [ChunkMetadata] of [./trie], as [convertSourcemapToContents] builds it. *)
Record ChunkMetadata := { id : string; code : string }.

Definition Uint8Array := list byte.

Definition Loc := MappingItem.

(** [bytes.subarray(begin, end)] for [begin <= end <= bytes.length]. *)
Definition subarray (bytes : Uint8Array) (begin end_ : nat) : Uint8Array :=
  firstn (end_ - begin) (skipn begin bytes).

Definition LF : byte := x0a.

(** The [for] loop of [splitBytesByNewLine] carries [(result, start)]. *)
Definition splitBytesByNewLine_step (bytes : Uint8Array)
    (st : list Uint8Array * nat) (i : nat) : list Uint8Array * nat :=
  let '(result, start) := st in
  match nth_error bytes i with
  | Some b =>
      if Byte.eqb b LF then (result ++ [subarray bytes start i], S i)
      else (result, start)
  | None => (result, start)
  end.

Definition splitBytesByNewLine (bytes : Uint8Array) : list Uint8Array :=
  let '(result, start) :=
    fold_left (splitBytesByNewLine_step bytes)
      (seq 0 (List.length bytes)) ([], 0%nat) in
  if (start <? List.length bytes)%nat
  then result ++ [subarray bytes start (List.length bytes)]
  else result.

(** The [reduce] that fills [maapingWithLine]. *)
Definition push_line (acc : Obj Z (list Loc)) (cur : Loc) : Obj Z (list Loc) :=
  push_at acc (generatedLine cur) cur.

Definition maapingWithLine (mappings : list Loc) : Obj Z (list Loc) :=
  fold_left push_line mappings [].

Definition is_null {A : Type} (x : option A) : bool :=
  match x with None => true | Some _ => false end.

(** [end] of line 66-68; [nextMapping?.generatedColumn] is [undefined],
    hence different from every number, when there is no next mapping. *)
Definition end_column (lastGeneratedColumn : Z) (nextMapping : option Loc)
    : Z :=
  match nextMapping with
  | Some next =>
      if lastGeneratedColumn + 1 =? generatedColumn next
      then generatedColumn next
      else lastGeneratedColumn
  | None => lastGeneratedColumn
  end.

(** What one turn of the inner loop appends to [s]. *)
Definition mapping_substring (runes : Str) (mappings : list Loc) (i : nat)
    : Str :=
  let cap := List.length mappings in
  match nth_error mappings i with
  | None => []
  | Some currentMaaping =>
      let nextMapping :=
        if (cap <=? i + 1)%nat then None else nth_error mappings (i + 1) in
      if (cap =? 1)%nat || is_null (lastGeneratedColumn currentMaaping)
      then substring runes (generatedColumn currentMaaping) None
      else
        match lastGeneratedColumn currentMaaping with
        | Some last =>
            substring runes (generatedColumn currentMaaping)
              (Some (end_column last nextMapping))
        | None => []
        end
  end.

(** The body of [for (const line in maapingWithLine)]. *)
Definition append_line (bytes : list Uint8Array) (o : Obj Z (list Loc))
    (s : Str) (line : Z) : Str :=
  let l := line - 1 in
  match index bytes l with
  | Some b =>
      let runes := TextDecoder.decode b in
      let mappings := match get o line with Some m => m | None => [] end in
      let cap := List.length mappings in
      fold_left (fun s i => s ++ mapping_substring runes mappings i)
        (seq 0 cap) s
  | None => s
  end.

Definition getStringFromSerializeMappings (bytes : list Uint8Array)
    (mappings : list Loc) : Str :=
  let o := maapingWithLine mappings in
  fold_left (append_line bytes o) (for_in o) [].

(** The callback given to [eachMapping] (lines 86-93); the wrapper
    [{ mappings: [] }] is identified with its one field. *)
Definition collect (formatter : string -> string)
    (mappingWithId : Obj string (list Loc)) (mapping : MappingItem)
    : Obj string (list Loc) :=
  match source mapping with
  | Some src =>
      if truthy src then push_at mappingWithId (formatter src) mapping
      else mappingWithId
  | None => mappingWithId
  end.

Definition mappingWithId (formatter : string -> string)
    (consumer : Consumer) : Obj string (list Loc) :=
  fold_left (collect formatter) (eachMapping consumer ORIGINAL_ORDER) [].

Definition by_generatedColumn (a b : Loc) : Z :=
  generatedColumn a - generatedColumn b.

(** [hints[id] = text] on the object literal [hints]: the setter that
    [{}] inherits for ["__proto__"] ignores a string, every other name
    becomes an own property. *)
Definition assign_hint (hints : Obj string Str) (id : string) (text : Str)
    : Obj string Str :=
  if String.eqb id "__proto__" then hints else set hints id text.

(** The body of [for (const id in mappingWithId)] (lines 96-102). *)
Definition attribute (bytes : list Uint8Array) (o : Obj string (list Loc))
    (hints : Obj string Str) (id : string) : Obj string Str :=
  let mappings := match get o id with Some m => m | None => [] end in
  let mappings := sort by_generatedColumn mappings in
  if (0 <? List.length mappings)%nat
  then assign_hint hints id (getStringFromSerializeMappings bytes mappings)
  else hints.

Section Sourcemap.

(** [await new SourceMapConsumer(rawSourceMap)]: [None] when the promise
    is rejected (the document does not parse). *)
Variable SourceMapConsumer_new : string -> option Consumer.

Definition convertSourcemapToContents (rawSourceMap : string)
    : Promise (list ChunkMetadata) :=
  match SourceMapConsumer_new rawSourceMap with
  | None => Rejected
  | Some consumer =>
      Resolved
        (fold_left
           (fun acc source =>
              match sourceContentFor consumer source with
              | Some s =>
                  if truthy s then acc ++ [{| id := source; code := s |}]
                  else acc
              | None => acc
              end)
           (sources consumer) [])
  end.

Definition getSourceMappings (code : Uint8Array) (rawSourceMap : string)
    (formatter : string -> string) : Promise (Obj string Str) :=
  let hints : Obj string Str := [] in
  let bytes := splitBytesByNewLine code in
  match SourceMapConsumer_new rawSourceMap with
  | None => Rejected
  | Some consumer =>
      let o := mappingWithId formatter consumer in
      Resolved (fold_left (attribute bytes o) (for_in o) hints)
  end.

End Sourcemap.

(* ================================================================== *)
(** ** src/server/index.ts: [closeBundle] and [callCount]               *)
(* ================================================================== *)

Module Server.

Local Open Scope string_scope.

Inductive AnalyzerMode := server | static | json.

Inductive Port := auto | port (n : Z).

(** [opts] after [{ ...defaultOptions, ...opts }]; a field that may be
    missing from the object is an [option]. *)
Record AnalyzerPluginOptions := {
  analyzerMode : AnalyzerMode;
  fileName : option string;
  openAnalyzer : option bool;
  analyzerPort : option Port
}.

(** [`${n}`] for an integer [n]. *)
Definition ToString (n : Z) : string :=
  NilEmpty.string_of_int (Z.to_int n).

(** The state [closeBundle] reads and writes: the module-level
    [callCount], the files on disk (path and content, at most one entry
    per path), and the ports given to [createServer]. *)
Record Process := {
  callCount : Z;
  disk : list (string * string);
  servers : list Z
}.

Definition existsSync (w : Process) (p : string) : bool :=
  existsb (fun f => String.eqb (fst f) p) (disk w).

Fixpoint write (files : list (string * string)) (p data : string)
    : list (string * string) :=
  match files with
  | [] => [(p, data)]
  | (q, old) :: files' =>
      if String.eqb q p then (q, data) :: files'
      else (q, old) :: write files' p data
  end.

Fixpoint read (files : list (string * string)) (p : string) : option string :=
  match files with
  | [] => None
  | (q, data) :: files' => if String.eqb q p then Some data else read files' p
  end.

Definition writeFile (w : Process) (p data : string) : Process :=
  {| callCount := callCount w; disk := write (disk w) p data;
     servers := servers w |}.

Definition bump (d : Z) (w : Process) : Process :=
  {| callCount := callCount w + d; disk := disk w; servers := servers w |}.

Definition createServer (w : Process) (p : Z) : Process :=
  {| callCount := callCount w; disk := disk w;
     servers := servers w ++ [p] |}.

Definition preferLivingServer (opts : AnalyzerPluginOptions) : bool :=
  match analyzerMode opts with server | static => true | json => false end.

Definition preferSilent (opts : AnalyzerPluginOptions) : bool :=
  match analyzerMode opts with json | static => true | server => false end.

Definition extension (opts : AnalyzerPluginOptions) : string :=
  match analyzerMode opts with json => "json" | _ => "html" end.

Definition output (opts : AnalyzerPluginOptions) : string :=
  match fileName opts with Some f => f | None => "stats" end.

Section CloseBundle.

(** [path.join] and the output directory resolved by [configResolved]. *)
Variable path_join : string -> string -> string.
Variable defaultWd : string.

(** Lines 178-181: the path the report goes to, read after
    [callCount++]. *)
Definition report_path (opts : AnalyzerPluginOptions) (w : Process) : string :=
  let p := path_join defaultWd (output opts ++ "." ++ extension opts) in
  if existsSync w p
  then path_join defaultWd
         (output opts ++ "-" ++ ToString (callCount w) ++ "."
            ++ extension opts)
  else p.

(** Lines 193-210, for a [createServer] that resolves. *)
Definition living_server (opts : AnalyzerPluginOptions) (w : Process)
    : Process :=
  let w := bump (-1) w in
  let w :=
    createServer w
      match analyzerPort opts with
      | Some auto => 0
      | Some (port n) => n
      | None => 8888 + callCount w
      end in
  bump 1 w.

(** One run of [closeBundle]; [report_json] and [html] are the texts
    that [JSON.stringify(analyzeModule, null, 2)] and [renderView]
    produce for this build. *)
Definition closeBundle (opts : AnalyzerPluginOptions)
    (report_json html : string) (w : Process) : Process :=
  let w := bump 1 w in
  if preferSilent opts then
    let p := report_path opts w in
    match analyzerMode opts with
    | json => writeFile w p report_json
    | _ =>
        let w := writeFile w p html in
        match analyzerMode opts, openAnalyzer opts with
        | static, (None | Some false) => w
        | _, _ =>
            if preferLivingServer opts then living_server opts w else w
        end
    end
  else if preferLivingServer opts then living_server opts w
  else w.

(** The builds that end in one process, one after the other. *)
Record Build := {
  options : AnalyzerPluginOptions;
  report : string;
  view : string
}.

Definition run (w : Process) (b : Build) : Process :=
  closeBundle (options b) (report b) (view b) w.

Definition runs (builds : list Build) (w : Process) : Process :=
  fold_left run builds w.

End CloseBundle.

End Server.

(* ================================================================== *)
(** ** src/server/index.ts: [validateChunk], [config], [generateBundle]  *)
(* ================================================================== *)

Module Analyzer.

Local Open Scope string_scope.

(** [states] of [./states], shared by the plugin and the rollup adapter. *)
Record States := {
  hasSetupSourcemapOption : bool;
  lastSourcemapOption : bool
}.

(** The values of a [sourcemap] option. *)
Inductive Sourcemap := boolean (b : bool) | inline | hidden | undefined.

(** [typeof sourcemap === 'boolean' ? sourcemap : sourcemap === 'hidden'] *)
Definition wanted (sm : Sourcemap) : bool :=
  match sm with
  | boolean b => b
  | hidden => true
  | inline | undefined => false
  end.

(** [config.build] and [config]; [sourcemap] is [None] when the key is not
    in the object, the remaining options are carried along. *)
Record BuildOptions := {
  sourcemap : option Sourcemap;
  build_others : list (string * string)
}.

Record UserConfig := {
  build : option BuildOptions;
  others : list (string * string)
}.

Inductive Outcome (A : Type) : Type :=
  | Returned (value : A)
  | Thrown.
Arguments Returned {A} value.
Arguments Thrown {A}.

(** Lines 108-113: with a [build] object, a boolean [sourcemap] becomes
    [true] and anything else ['hidden']. *)
Definition force (cfg : UserConfig) : UserConfig :=
  match build cfg with
  | Some b =>
      {| build :=
           Some {| sourcemap :=
                     match sourcemap b with
                     | Some (boolean _) => Some (boolean true)
                     | _ => Some hidden
                     end;
                   build_others := build_others b |};
         others := others cfg |}
  | None => cfg
  end.

Definition inline_warning : string :=
  "vite-bundle-analyzer: sourcemap option is set to `inline`, it might cause the result inaccurate.".

(** The [config] hook.  [logger] tells whether the plugin's [logger]
    variable has been assigned (by [configResolved]); calling [warn] on
    the unassigned variable throws.  The result is the new [states], the
    warnings logged and the returned configuration. *)
Definition config (logger : bool) (states : States) (cfg : UserConfig)
    : States * list string * Outcome UserConfig :=
  if hasSetupSourcemapOption states then (states, [], Returned (force cfg))
  else
    let states := {| hasSetupSourcemapOption := true;
                     lastSourcemapOption := lastSourcemapOption states |} in
    let b := match build cfg with
             | Some b => b
             | None => {| sourcemap := None; build_others := [] |}
             end in
    let cfg := {| build := Some b; others := others cfg |} in
    match sourcemap b with
    | Some sm =>
        let states := {| hasSetupSourcemapOption := true;
                         lastSourcemapOption := wanted sm |} in
        match sm with
        | inline =>
            if logger
            then (states, [inline_warning], Returned (force cfg))
            else (states, [], Thrown)
        | _ => (states, [], Returned (force cfg))
        end
    | None => (states, [], Returned (force cfg))
    end.

(** An entry of the output bundle: [map] is the chunk's [map] property,
    [None] once it is deleted. *)
Inductive OutputType := chunk | asset.

Record Output := {
  fileName : string;
  type : OutputType;
  map : option string;
  content : string
}.

Definition OutputBundle := Obj string Output.

(** [Reflect.deleteProperty(outputBundle, name)] *)
Definition deleteProperty (o : OutputBundle) (name : string) : OutputBundle :=
  filter (fun kv => negb (String.eqb (fst kv) name)) o.

(** [Reflect.deleteProperty(bundle, 'map')] *)
Definition without_map (b : Output) : Output :=
  {| fileName := fileName b; type := type b; map := None;
     content := content b |}.

Definition is_chunk (b : Output) : bool :=
  match type b with chunk => true | asset => false end.

Section Bundle.

(** [path.extname] *)
Variable extname : string -> string.

Definition expectFile (fileName ext : string) : bool :=
  String.eqb (extname fileName) ext.

Definition validateChunk (chunk : Output) (allChunks : OutputBundle)
    : bool * option string :=
  if expectFile (fileName chunk) ".js" then
    let possiblePath := fileName chunk ++ ".map" in
    if has allChunks possiblePath then (true, Some possiblePath)
    else (true, None)
  else (false, None).

(** The bundle and the calls [addModule(bundle, sourcemapFileName)] made
    so far. *)
Record Pass := {
  outputBundle : OutputBundle;
  addModule : list (Output * option string)
}.

(** One turn of [for (const bundleName in outputBundle)]; a property
    deleted before its turn is not visited. *)
Definition visit (states : States) (st : Pass) (bundleName : string) : Pass :=
  match get (outputBundle st) bundleName with
  | None => st
  | Some bundle =>
      let (pass, sourcemapFileName) :=
        validateChunk bundle (outputBundle st) in
      let calls :=
        if pass then (addModule st ++ [(bundle, sourcemapFileName)])%list
        else addModule st in
      if negb (lastSourcemapOption states) && pass then
        match sourcemapFileName with
        | Some name =>
            {| outputBundle := deleteProperty (outputBundle st) name;
               addModule := calls |}
        | None =>
            if is_chunk bundle
            then {| outputBundle :=
                      set (outputBundle st) bundleName (without_map bundle);
                    addModule := calls |}
            else {| outputBundle := outputBundle st; addModule := calls |}
        end
      else {| outputBundle := outputBundle st; addModule := calls |}
  end.

(** The [generateBundle] hook, for an [analyzerModule] that leaves the
    bundle as it is. *)
Definition generateBundle (states : States) (bundle : OutputBundle) : Pass :=
  fold_left (visit states) (for_in bundle)
    {| outputBundle := bundle; addModule := [] |}.

End Bundle.

End Analyzer.

(* ================================================================== *)
(** ** src/server/adapter.ts: [outputOptions]                           *)
(* ================================================================== *)

Module Adapter.

Import Analyzer.

Record OutputOptions := {
  dir : option string;
  sourcemap : option Sourcemap;
  others : list (string * string)
}.

(** What the hook reads and writes besides its argument: [states], the
    closure's [root] and [store.analyzerModule.workspaceRoot]. *)
Record Env := {
  states : States;
  root : string;
  workspaceRoot : string
}.

Section OutputOptions.

Variable searchForWorkspaceRoot : string -> string.

(** [None] is the [undefined] of the early [return]. *)
Definition outputOptions (env : Env) (outputOptions : OutputOptions)
    : Env * option OutputOptions :=
  if hasSetupSourcemapOption (states env) then (env, None)
  else
    let root :=
      match dir outputOptions with
      | Some d => if truthy d then d else root env
      | None => root env
      end in
    let last :=
      match sourcemap outputOptions with
      | Some sm => wanted sm
      | None => lastSourcemapOption (states env)
      end in
    ({| states := {| hasSetupSourcemapOption := true;
                     lastSourcemapOption := last |};
        root := root;
        workspaceRoot := searchForWorkspaceRoot root |},
     Some {| dir := dir outputOptions;
             sourcemap :=
               match sourcemap outputOptions with
               | Some (boolean true) => Some (boolean true)
               | _ => Some hidden
               end;
             others := others outputOptions |}).

End OutputOptions.

End Adapter.

(* ================================================================== *)
(** ** Definitions used to state the properties                         *)
(* ================================================================== *)

(** The module a mapping is attributed to, if any. *)
Definition module_of (formatter : string -> string) (m : MappingItem)
    : option string :=
  match source m with
  | Some src => if truthy src then Some (formatter src) else None
  | None => None
  end.

Definition has_source (m : MappingItem) : bool :=
  match source m with Some src => truthy src | None => false end.

Definition belongs_to (formatter : string -> string) (id : string)
    (m : MappingItem) : bool :=
  match module_of formatter m with
  | Some id' => String.eqb id' id
  | None => false
  end.

(** The mapping entries of module [id], in the order of the document. *)
Definition entries_of (formatter : string -> string) (id : string)
    (consumer : Consumer) : list Loc :=
  filter (belongs_to formatter id) (eachMapping consumer ORIGINAL_ORDER).

(** A consumer that hands out only the mappings that name a source. *)
Definition without_sourceless (consumer : Consumer) : Consumer :=
  {| sources := sources consumer;
     sourceContentFor := sourceContentFor consumer;
     eachMapping := fun order =>
       filter has_source (eachMapping consumer order) |}.

Definition on_line (line : Z) (m : Loc) : bool := generatedLine m =? line.

(** Line [line] (1-based) exists in the artifact. *)
Definition line_exists (bytes : list Uint8Array) (line : Z) : bool :=
  (1 <=? line) && (line <=? Z.of_nat (List.length bytes)).

(** The keys of the resolved record, in enumeration order. *)
Definition enumeration (result : Promise (Obj string Str))
    : Promise (list string) :=
  match result with
  | Resolved hints => Resolved (for_in hints)
  | Rejected => Rejected
  end.

(** The key [maapingWithLine] files a mapping under. *)
Definition line_key (m : Loc) : option Z := Some (generatedLine m).

(** The order of the array-index keys in [for_in]. *)
Definition index_le {K : Type} (a b : Z * K) : Prop := fst a <= fst b.

(** [x] is filed under key [k]. *)
Definition keyed {A K : Type} `{PropertyKey K} (key : A -> option K) (k : K)
    (x : A) : bool :=
  match key x with Some k' => key_eqb k' k | None => false end.

(** One step of [group_by]. *)
Definition group_step {A K : Type} `{PropertyKey K} (key : A -> option K)
    (o : Obj K (list A)) (x : A) : Obj K (list A) :=
  match key x with Some k => push_at o k x | None => o end.

(** Grouping the elements of a list under their keys, as both [reduce]
    and the [eachMapping] callback do. *)
Definition group_by {A K : Type} `{PropertyKey K} (key : A -> option K)
    (l : list A) : Obj K (list A) :=
  fold_left (group_step key) l [].

(** The array stored under [k], empty when there is none. *)
Definition group_of {K A : Type} `{PropertyKey K} (o : Obj K (list A)) (k : K)
    : list A :=
  match get o k with Some arr => arr | None => [] end.

(** The text [attribute] computes for module [id], and whether the
    assignment to [hints] creates a property. *)
Definition module_text (bytes : list Uint8Array) (o : Obj string (list Loc))
    (id : string) : Str :=
  getStringFromSerializeMappings bytes
    (sort by_generatedColumn (group_of o id)).

Definition gets_hint (o : Obj string (list Loc)) (id : string) : bool :=
  negb (String.eqb id "__proto__")
  && match group_of o id with [] => false | _ => true end.

(** The text one generated line contributes for the entries [group]. *)
Definition line_text (bytes : list Uint8Array) (line : Z) (group : list Loc)
    : Str :=
  match index bytes (line - 1) with
  | Some b =>
      List.concat (map (mapping_substring (TextDecoder.decode b) group)
                (seq 0 (List.length group)))
  | None => []
  end.

(** The specification's reading of the reconstruction and of the line
    splitting, to compare the code with. *)
Module Spec.

(** The distinct values of a list, ascending. *)
Fixpoint insert_line (line : Z) (ls : list Z) : list Z :=
  match ls with
  | [] => [line]
  | x :: rest =>
      if line <? x then line :: ls
      else if line =? x then ls
      else x :: insert_line line rest
  end.

Definition lines_ascending (entries : list Loc) : list Z :=
  fold_right insert_line [] (map generatedLine entries).

(** The entries of one line, ascending by generated column (entries with
    the same column stay in document order). *)
Definition entries_on_line (entries : list Loc) (line : Z) : list Loc :=
  sort by_generatedColumn (filter (on_line line) entries).

(** "Concatenate the substrings for all of a module's ranges, across all
    its lines, in line-then-column order." *)
Definition line_then_column_text (bytes : list Uint8Array)
    (entries : list Loc) : Str :=
  List.concat
    (map (fun line => line_text bytes line (entries_on_line entries line))
            (lines_ascending entries)).

(** Segments joined with one line feed between neighbours. *)
Fixpoint join_lines (segments : list Uint8Array) : Uint8Array :=
  match segments with
  | [] => []
  | [s] => s
  | s :: rest => s ++ LF :: join_lines rest
  end.

Definition ends_with_LF (bytes : Uint8Array) : bool :=
  match rev bytes with
  | b :: _ => Byte.eqb b LF
  | [] => false
  end.

Definition count_LF (bytes : Uint8Array) : nat :=
  List.length (filter (fun b => Byte.eqb b LF) bytes).

(** One record per source with non-empty embedded content, in the order
    of the [sources] list. *)
Definition embedded (consumer : Consumer) (src : string)
    : list ChunkMetadata :=
  match sourceContentFor consumer src with
  | Some s => if truthy s then [{| id := src; code := s |}] else []
  | None => []
  end.

Definition contents (consumer : Consumer) : list ChunkMetadata :=
  flat_map (embedded consumer) (sources consumer).

End Spec.

(** A comparator [(a, b) => m(a) - m(b)] and the order it sorts into. *)
Definition difference {A : Type} (m : A -> Z) (a b : A) : Z := m a - m b.

Definition ascending {A : Type} (m : A -> Z) (a b : A) : Prop := m a <= m b.

Definition strictly_ascending {A : Type} (m : A -> Z) (a b : A) : Prop :=
  m a < m b.

(** The generated position of an entry. *)
Definition position (m : Loc) : Z * Z := (generatedLine m, generatedColumn m).

(** The column order that [mappings.sort] establishes. *)
Definition column_le (a b : Loc) : Prop :=
  generatedColumn a <= generatedColumn b.

Definition has_content (consumer : Consumer) (src : string) : bool :=
  match sourceContentFor consumer src with
  | Some s => truthy s
  | None => false
  end.

(** Concrete inputs: the scenarios of the specification's testable
    properties, and small documents to run the functions on. *)
Module Sample.

Local Open Scope string_scope.

Definition entry (src : option string) (line column : Z) (last : option Z)
    : MappingItem :=
  {| source := src; generatedLine := line; generatedColumn := column;
     lastGeneratedColumn := last; originalLine := Some 1;
     originalColumn := Some 0; name := None |}.

Definition bytes_of (s : string) : Uint8Array := list_byte_of_string s.

Definition code : Uint8Array := bytes_of "abcdefghij".

(** Boundary adjacency: A covers columns 0..4, B columns 5..9. *)
Definition A : Loc := entry (Some "src/a.ts") 1 0 (Some 4).
Definition B : Loc := entry (Some "src/a.ts") 1 5 (Some 9).

(** A gap before the next entry: C covers columns 0..2, D starts at 5. *)
Definition C : Loc := entry (Some "src/a.ts") 1 0 (Some 2).
Definition D : Loc := entry (Some "src/a.ts") 1 5 None.

Definition document (mappings : list MappingItem) : Consumer :=
  {| sources := ["src/a.ts"; "src/b.ts"; "src/c.ts"];
     sourceContentFor := fun src =>
       if String.eqb src "src/a.ts" then Some "export const a = 1"
       else if String.eqb src "src/b.ts" then Some EmptyString
       else None;
     eachMapping := fun _ => mappings |}.

Definition parse (mappings : list MappingItem) (raw : string)
    : option Consumer :=
  Some (document mappings).

Definition formatter (id : string) : string := id.

(** Two lines; entries of two modules, out of order, one without a
    source and one on a line the artifact does not have. *)
Definition two_lines : Uint8Array :=
  (bytes_of "abcdef" ++ [LF] ++ bytes_of "ghijkl" ++ [LF])%list.

Definition scattered : list MappingItem :=
  [ entry (Some "src/a.ts") 2 3 None;
    entry (Some "src/b.ts") 1 4 (Some 5);
    entry None 1 2 (Some 3);
    entry (Some "src/a.ts") 1 0 (Some 1);
    entry (Some "src/a.ts") 7 0 None;
    entry (Some "src/a.ts") 2 0 (Some 2) ].

(** Modules whose ids are numerals, a module called [__proto__] and two
    ordinary ones. *)
Definition numbered : list MappingItem :=
  [ entry (Some "src/b.ts") 1 0 None;
    entry (Some "10") 1 1 None;
    entry (Some "__proto__") 1 2 None;
    entry (Some "9") 1 3 None;
    entry (Some "src/a.ts") 1 4 None;
    entry (Some "10") 2 0 None;
    entry (Some "007") 2 1 None ].

Definition numbered_order : list string :=
  ["9"; "10"; "src/b.ts"; "src/a.ts"; "007"].

(** A POSIX [path.join] on a directory and a plain file name. *)
Definition join (dir file : string) : string := dir ++ "/" ++ file.

Definition json_options : Server.AnalyzerPluginOptions :=
  {| Server.analyzerMode := Server.json; Server.fileName := None;
     Server.openAnalyzer := None; Server.analyzerPort := None |}.

(** A new process on the disk an earlier one left: [callCount] starts
    again at 0. *)
Definition restart (w : Server.Process) : Server.Process :=
  {| Server.callCount := 0; Server.disk := Server.disk w;
     Server.servers := [] |}.

Definition empty_directory : Server.Process :=
  {| Server.callCount := 0; Server.disk := []; Server.servers := [] |}.

(** Two builds, each in a process of its own, into the same directory:
    the first writes [dist/stats.json], the second [dist/stats-1.json]. *)
Definition first_process : Server.Process :=
  Server.closeBundle join "dist" json_options "first report" EmptyString
    empty_directory.

Definition second_process : Server.Process :=
  Server.closeBundle join "dist" json_options "second report" EmptyString
    (restart first_process).

(** A third process, before its first run of [closeBundle]. *)
Definition fresh_process : Server.Process := restart second_process.

Definition untouched : Analyzer.States :=
  {| Analyzer.hasSetupSourcemapOption := false;
     Analyzer.lastSourcemapOption := false |}.

(** [{ build: { sourcemap } }] *)
Definition with_sourcemap (sm : Analyzer.Sourcemap) : Analyzer.UserConfig :=
  {| Analyzer.build :=
       Some {| Analyzer.sourcemap := Some sm;
               Analyzer.build_others := [("outDir", "dist")] |};
     Analyzer.others := [("root", ".")] |}.

Definition output_with (sm : Analyzer.Sourcemap) : Adapter.OutputOptions :=
  {| Adapter.dir := Some "out"; Adapter.sourcemap := Some sm;
     Adapter.others := [("format", "es")] |}.

Definition adapter_start : Adapter.Env :=
  {| Adapter.states := untouched; Adapter.root := "/work";
     Adapter.workspaceRoot := "/work" |}.

(** The extension of a file name: from its last dot on. *)
Fixpoint last_dot (s : string) : option string :=
  match s with
  | EmptyString => None
  | String c rest =>
      match last_dot rest with
      | Some e => Some e
      | None => if Ascii.eqb c "."%char then Some s else None
      end
  end.

Definition extname (s : string) : string :=
  match last_dot s with Some e => e | None => EmptyString end.

Definition output (name : string) (type : Analyzer.OutputType)
    (map : option string) : Analyzer.Output :=
  {| Analyzer.fileName := name; Analyzer.type := type; Analyzer.map := map;
     Analyzer.content := EmptyString |}.

(** A chunk with its source map file, a chunk that carries its map
    itself, and a style sheet. *)
Definition index_js : Analyzer.Output :=
  output "index.js" Analyzer.chunk (Some "index map").

Definition worker_js : Analyzer.Output :=
  output "worker.js" Analyzer.chunk (Some "worker map").

Definition bundle : Analyzer.OutputBundle :=
  [("index.js", index_js);
   ("index.js.map", output "index.js.map" Analyzer.asset None);
   ("worker.js", worker_js);
   ("style.css", output "style.css" Analyzer.asset None)].

Definition server_build : Server.Build :=
  {| Server.options :=
       {| Server.analyzerMode := Server.server; Server.fileName := None;
          Server.openAnalyzer := None; Server.analyzerPort := None |};
     Server.report := EmptyString; Server.view := EmptyString |}.

End Sample.

(** The names of a report: [<outputName>.<ext>] and
    [<outputName>-<n>.<ext>], and the text written into it. *)
Definition base_name (opts : Server.AnalyzerPluginOptions) : string :=
  (Server.output opts ++ "." ++ Server.extension opts)%string.

Definition counter_name (opts : Server.AnalyzerPluginOptions) (n : Z)
    : string :=
  (Server.output opts ++ "-" ++ Server.ToString n ++ "."
     ++ Server.extension opts)%string.

Definition report_text (opts : Server.AnalyzerPluginOptions)
    (report_json html : string) : string :=
  match Server.analyzerMode opts with
  | Server.json => report_json
  | _ => html
  end.

(** [name] is one of the names a report of [opts] can get. *)
Definition report_name (opts : Server.AnalyzerPluginOptions) (name : string)
    : Prop :=
  name = base_name opts \/ exists n, name = counter_name opts n.

(** "An existing report of the same base name is never overwritten": a
    file named [<outputName>.<ext>] or [<outputName>-<n>.<ext>] that is on
    disk before a report-producing run has the same content after it. *)
Definition keeps_existing_reports (path_join : string -> string -> string)
    (defaultWd : string) (opts : Server.AnalyzerPluginOptions)
    (report_json html : string) (w : Server.Process) : Prop :=
  forall name old,
    report_name opts name ->
    Server.read (Server.disk w) (path_join defaultWd name) = Some old ->
    Server.read
      (Server.disk
         (Server.closeBundle path_join defaultWd opts report_json html w))
      (path_join defaultWd name)
    = Some old.

(** Every byte of a segment differs from the line feed. *)
Definition no_LF (s : Uint8Array) : Prop := Forall (fun b => b <> LF) s.

(** Segments each followed by a line feed. *)
Definition terminated (segments : list Uint8Array) : Uint8Array :=
  List.concat (map (fun s => s ++ [LF]) segments).

(** What the loop of [splitBytesByNewLine] maintains before it reads
    [bytes[i]]: the bytes before [start] are the finished segments, each
    with its line feed, and the open segment [start, i) has no line feed. *)
Definition split_inv (bytes : Uint8Array) (i : nat)
    (st : list Uint8Array * nat) : Prop :=
  (snd st <= i)%nat
  /\ firstn (snd st) bytes = terminated (fst st)
  /\ Forall no_LF (fst st)
  /\ no_LF (subarray bytes (snd st) i).

(** What an entry without [lastGeneratedColumn] contributes: its line from
    its column to the end. *)
Definition rest_of_line (bytes : list Uint8Array) (m : Loc) : Str :=
  match index bytes (generatedLine m - 1) with
  | Some b => substring (TextDecoder.decode b) (generatedColumn m) None
  | None => []
  end.

(** [x] has a key at all. *)
Definition has_key {A K : Type} (key : A -> option K) (x : A) : bool :=
  match key x with Some _ => true | None => false end.

(** Whether a run of [closeBundle] reaches [createServer], and the port it
    asks for when [count] runs came before it. *)
Definition starts_server (opts : Server.AnalyzerPluginOptions) : bool :=
  match Server.analyzerMode opts, Server.openAnalyzer opts with
  | Server.server, _ => true
  | Server.static, Some true => true
  | _, _ => false
  end.

Definition requested_port (opts : Server.AnalyzerPluginOptions) (count : Z) : Z :=
  match Server.analyzerPort opts with
  | Some Server.auto => 0
  | Some (Server.port n) => n
  | None => 8888 + count
  end.

(** A build in server mode that names no port. *)
Definition default_server (b : Server.Build) : Prop :=
  Server.analyzerMode (Server.options b) = Server.server
  /\ Server.analyzerPort (Server.options b) = None.

(** The [sourcemap] option a configuration carries, if any. *)
Definition configured (cfg : Analyzer.UserConfig) : option Analyzer.Sourcemap :=
  match Analyzer.build cfg with
  | Some b => Analyzer.sourcemap b
  | None => None
  end.

(** The value [config] forces a [sourcemap] option to. *)
Definition forced (sm : option Analyzer.Sourcemap) : Analyzer.Sourcemap :=
  match sm with
  | Some (Analyzer.boolean _) => Analyzer.boolean true
  | _ => Analyzer.hidden
  end.

(** An entry [validateChunk] passes: its file name has the extension
    [.js]; and the key under which its source map is looked up. *)
Definition js (extname : string -> string) (v : Analyzer.Output) : bool :=
  Analyzer.expectFile extname (Analyzer.fileName v) ".js".

Definition map_name (v : Analyzer.Output) : string :=
  (Analyzer.fileName v ++ ".map")%string.

(** [k] is the source map file of a [.js] entry of [b]. *)
Definition map_of_module (extname : string -> string)
    (b : Analyzer.OutputBundle) (k : string) : bool :=
  existsb (fun kv => js extname (snd kv) && String.eqb (map_name (snd kv)) k)
    b.

(** What [generateBundle] leaves of an entry when source maps were not
    asked for: a [.js] chunk without a source map file loses its [map]. *)
Definition stripped (extname : string -> string) (b : Analyzer.OutputBundle)
    (v : Analyzer.Output) : Analyzer.Output :=
  if js extname v && negb (has b (map_name v)) && Analyzer.is_chunk v
  then Analyzer.without_map v
  else v.

(** The bundle without the source map files of its [.js] entries. *)
Definition cleaned (extname : string -> string) (b : Analyzer.OutputBundle)
    : Analyzer.OutputBundle :=
  map (fun kv => (fst kv, stripped extname b (snd kv)))
    (filter (fun kv => negb (map_of_module extname b (fst kv))) b).

(** The call of [addModule] for the key [k] of [b]. *)
Definition call_of (extname : string -> string) (b : Analyzer.OutputBundle)
    (k : string) : list (Analyzer.Output * option string) :=
  match get b k with
  | Some v =>
      if js extname v
      then [(v, if has b (map_name v) then Some (map_name v) else None)]
      else []
  | None => []
  end.

(** Every entry is stored under its file name, as rollup does, and no
    key occurs twice. *)
Definition by_fileName (b : Analyzer.OutputBundle) : Prop :=
  NoDup (map fst b) /\ forall k v, In (k, v) b -> Analyzer.fileName v = k.

(** What the loop of [generateBundle] maintains when source maps were not
    asked for: after the keys [done], the source maps of the [.js]
    entries among them are gone and those entries are [stripped]. *)
Definition visited (done : list string) (k : string) : bool :=
  existsb (String.eqb k) done.

Definition map_of_visited (extname : string -> string) (done : list string)
    (b : Analyzer.OutputBundle) (k : string) : bool :=
  existsb (fun kv => visited done (fst kv) && js extname (snd kv)
                     && String.eqb (map_name (snd kv)) k) b.

Definition bundle_after (extname : string -> string) (done : list string)
    (b : Analyzer.OutputBundle) : Analyzer.OutputBundle :=
  map (fun kv => (fst kv, if visited done (fst kv)
                          then stripped extname b (snd kv) else snd kv))
    (filter (fun kv => negb (map_of_visited extname done b (fst kv))) b).

(** The distinct names of a list, each where it first occurs. *)
Fixpoint first_occurrences (l : list string) : list string :=
  match l with
  | [] => []
  | x :: rest =>
      x :: filter (fun y => negb (String.eqb y x)) (first_occurrences rest)
  end.

(** The key of an element, as a list. *)
Definition key_list {A K : Type} (key : A -> option K) (x : A) : list K :=
  match key x with Some k => [k] | None => [] end.

(** The module ids a document names, in the order in which it first
    names them. *)
Definition module_ids (formatter : string -> string) (consumer : Consumer)
    : list string :=
  first_occurrences
    (flat_map (key_list (module_of formatter))
       (eachMapping consumer ORIGINAL_ORDER)).

(** The number an array-index name stands for. *)
Definition index_value (id : string) : Z :=
  match string_index id with Some n => n | None => 0 end.

(** The order in which an object enumerates names it got in the order
    [ids]: the array-index names by ascending value, then the other names
    in the order given. *)
Definition key_order (ids : list string) : list string :=
  (sort (difference index_value) (filter is_index ids)
   ++ filter (fun id => negb (is_index id)) ids)%list.

Definition not_proto (id : string) : bool :=
  negb (String.eqb id "__proto__").

(* ================================================================== *)
(** ** Lists                                                            *)
(* ================================================================== *)

Lemma firstn_snoc {A : Type} (l : list A) (n : nat) (x : A) :
  nth_error l n = Some x -> firstn (S n) l = firstn n l ++ [x].
Proof.
  revert n; induction l as [|a l IH]; intros [|n] Hn; simpl in *;
    try discriminate.
  - now inversion Hn.
  - now rewrite (IH n Hn).
Qed.

Lemma firstn_cut {A : Type} (l : list A) (s j : nat) :
  (s <= j)%nat -> firstn j l = firstn s l ++ firstn (j - s) (skipn s l).
Proof.
  revert s j; induction l as [|a l IH]; intros s j Hle.
  - now rewrite skipn_nil, !firstn_nil.
  - destruct s as [|s]; simpl.
    + now rewrite Nat.sub_0_r.
    + destruct j as [|j]; [lia|]. simpl. f_equal. apply IH. lia.
Qed.

Lemma fold_left_append {A B : Type} (f : B -> list A) (l : list B)
    (s : list A) :
  fold_left (fun s i => s ++ f i) l s = s ++ List.concat (map f l).
Proof.
  revert s; induction l as [|x l IH]; intros s; simpl.
  - now rewrite app_nil_r.
  - now rewrite IH, app_assoc.
Qed.

Lemma concat_map_filter {A B : Type} (f : A -> list B) (keep : A -> bool)
    (l : list A) :
  (forall x, In x l -> keep x = false -> f x = []) ->
  List.concat (map f (filter keep l)) = List.concat (map f l).
Proof.
  induction l as [|x l IH]; intros Hf; simpl; [reflexivity|].
  destruct (keep x) eqn:Hk; simpl.
  - f_equal. apply IH. intros y Hy. apply Hf. now right.
  - rewrite (Hf x (or_introl eq_refl) Hk). simpl.
    apply IH. intros y Hy. apply Hf. now right.
Qed.

Lemma filter_implied {A : Type} (f g : A -> bool) (l : list A) :
  (forall x, f x = true -> g x = true) ->
  filter f (filter g l) = filter f l.
Proof.
  intros Himp. induction l as [|x l IH]; simpl; [reflexivity|].
  destruct (g x) eqn:Eg; simpl; rewrite IH; [reflexivity|].
  destruct (f x) eqn:Ef; [|reflexivity].
  rewrite (Himp x Ef) in Eg. discriminate.
Qed.

(* ================================================================== *)
(** ** [splitBytesByNewLine]                                            *)
(* ================================================================== *)

Lemma subarray_empty (bytes : Uint8Array) (s : nat) : subarray bytes s s = [].
Proof. unfold subarray. now rewrite Nat.sub_diag. Qed.

Lemma subarray_snoc (bytes : Uint8Array) (s i : nat) (b : byte) :
  (s <= i)%nat -> nth_error bytes i = Some b ->
  subarray bytes s (S i) = subarray bytes s i ++ [b].
Proof.
  intros Hle Hb. unfold subarray.
  replace (S i - s)%nat with (S (i - s)) by lia.
  apply firstn_snoc. rewrite nth_error_skipn.
  now replace (s + (i - s))%nat with i by lia.
Qed.

Lemma terminated_snoc (r : list Uint8Array) (s : Uint8Array) :
  terminated (r ++ [s]) = terminated r ++ s ++ [LF].
Proof.
  unfold terminated. rewrite map_app, concat_app. simpl.
  now rewrite app_nil_r.
Qed.

Lemma split_step_inv (bytes : Uint8Array) (i : nat) st :
  (i < List.length bytes)%nat ->
  split_inv bytes i st ->
  split_inv bytes (S i) (splitBytesByNewLine_step bytes st i).
Proof.
  intros Hi. destruct st as [result start].
  unfold split_inv, splitBytesByNewLine_step. cbn [fst snd].
  intros (Hle & Hpre & Hsegs & Hopen).
  destruct (nth_error bytes i) as [b|] eqn:Hb.
  2:{ apply nth_error_None in Hb. lia. }
  destruct (Byte.eqb b LF) eqn:Hlf; cbn [fst snd].
  - apply Byte.byte_dec_bl in Hlf. subst b.
    repeat split.
    + lia.
    + rewrite terminated_snoc, <- Hpre.
      rewrite (firstn_snoc _ _ _ Hb), (firstn_cut bytes start i Hle).
      unfold subarray. now rewrite app_assoc.
    + apply Forall_app. split; [assumption|]. now constructor.
    + rewrite subarray_empty. constructor.
  - repeat split; try assumption.
    + lia.
    + rewrite (subarray_snoc _ _ _ _ Hle Hb). apply Forall_app.
      split; [assumption|]. constructor; [|constructor].
      now apply Byte.eqb_false.
Qed.

Lemma split_loop_inv (bytes : Uint8Array) (n a : nat) st :
  (a + n <= List.length bytes)%nat ->
  split_inv bytes a st ->
  split_inv bytes (a + n)
    (fold_left (splitBytesByNewLine_step bytes) (seq a n) st).
Proof.
  revert a st; induction n as [|n IH]; intros a st Hlen Hinv; simpl.
  - now rewrite Nat.add_0_r.
  - replace (a + S n)%nat with (S a + n)%nat by lia.
    apply IH; [lia|]. apply split_step_inv; [lia | assumption].
Qed.

(** The two shapes of the result: the input ends with a line feed (or is
    empty) and every segment is closed, or a last open segment remains. *)
Lemma split_shape (bytes : Uint8Array) :
  exists result,
    Forall no_LF result /\
    ((splitBytesByNewLine bytes = result /\ bytes = terminated result) \/
     (exists last, last <> [] /\ no_LF last /\
        splitBytesByNewLine bytes = result ++ [last] /\
        bytes = terminated result ++ last)).
Proof.
  pose proof (split_loop_inv bytes (List.length bytes) 0 ([], 0%nat)) as Hinv.
  unfold splitBytesByNewLine.
  destruct (fold_left _ _ _) as [result start].
  destruct Hinv as (Hle & Hpre & Hsegs & Hopen).
  - simpl. lia.
  - unfold split_inv. cbn [fst snd]. repeat split.
    + lia.
    + constructor.
    + rewrite subarray_empty. constructor.
  - cbn [fst snd] in *. exists result. split; [assumption|].
    destruct (start <? List.length bytes)%nat eqn:Hlt.
    + apply Nat.ltb_lt in Hlt. right.
      exists (subarray bytes start (List.length bytes)).
      assert (Hsub : subarray bytes start (List.length bytes)
                     = skipn start bytes).
      { unfold subarray. apply firstn_all2. rewrite length_skipn. lia. }
      repeat split.
      * rewrite Hsub. intros Hnil.
        apply (f_equal (@List.length byte)) in Hnil.
        rewrite length_skipn in Hnil. simpl in Hnil. lia.
      * assumption.
      * rewrite <- Hpre, Hsub. symmetry. apply firstn_skipn.
    + apply Nat.ltb_ge in Hlt. left. split; [reflexivity|].
      rewrite <- Hpre. symmetry. apply firstn_all2. lia.
Qed.

Lemma join_lines_snoc (r : list Uint8Array) (s : Uint8Array) :
  Spec.join_lines (r ++ [s]) = terminated r ++ s.
Proof.
  induction r as [|a r IH]; [reflexivity|].
  assert (Hcons : Spec.join_lines ((a :: r) ++ [s])
                  = a ++ LF :: Spec.join_lines (r ++ [s])).
  { destruct r; reflexivity. }
  rewrite Hcons, IH. unfold terminated. cbn [map List.concat].
  now rewrite <- !app_assoc.
Qed.

Lemma terminated_join (r : list Uint8Array) :
  r <> [] -> terminated r = Spec.join_lines r ++ [LF].
Proof.
  intros Hr. destruct (exists_last Hr) as (r' & s & ->).
  now rewrite terminated_snoc, join_lines_snoc, app_assoc.
Qed.

Lemma ends_with_LF_snoc (l : Uint8Array) (b : byte) :
  Spec.ends_with_LF (l ++ [b]) = Byte.eqb b LF.
Proof. unfold Spec.ends_with_LF. now rewrite rev_unit. Qed.

Lemma ends_with_LF_terminated (r : list Uint8Array) :
  Spec.ends_with_LF (terminated r) = negb (Nat.eqb (List.length r) 0).
Proof.
  destruct r as [|a r]; [reflexivity|].
  assert (Hr : a :: r <> []) by discriminate.
  destruct (exists_last Hr) as (r' & s & ->).
  rewrite terminated_snoc, !app_assoc, ends_with_LF_snoc.
  rewrite length_app. simpl. now rewrite Nat.add_comm.
Qed.

Lemma ends_with_LF_open (l last : Uint8Array) :
  last <> [] -> no_LF last -> Spec.ends_with_LF (l ++ last) = false.
Proof.
  intros Hne Hno. destruct (exists_last Hne) as (s & b & ->).
  rewrite app_assoc, ends_with_LF_snoc.
  apply Forall_app in Hno. destruct Hno as [_ Hb].
  inversion Hb as [|? ? Hneq _]; subst.
  destruct (Byte.eqb b LF) eqn:E; [|reflexivity].
  now apply Byte.byte_dec_bl in E.
Qed.

Lemma count_LF_app (a b : Uint8Array) :
  Spec.count_LF (a ++ b) = (Spec.count_LF a + Spec.count_LF b)%nat.
Proof. unfold Spec.count_LF. now rewrite filter_app, length_app. Qed.

Lemma count_LF_no_LF (s : Uint8Array) : no_LF s -> Spec.count_LF s = 0%nat.
Proof.
  unfold Spec.count_LF. induction 1 as [|b s Hb _ IH]; [reflexivity|].
  simpl. destruct (Byte.eqb b LF) eqn:E; [|assumption].
  now apply Byte.byte_dec_bl in E.
Qed.

Lemma count_LF_terminated (r : list Uint8Array) :
  Forall no_LF r -> Spec.count_LF (terminated r) = List.length r.
Proof.
  induction 1 as [|s r Hs _ IH]; [reflexivity|].
  unfold terminated in *. cbn [map List.concat].
  rewrite !count_LF_app, IH, (count_LF_no_LF s Hs). reflexivity.
Qed.

Lemma split_no_LF (bytes : Uint8Array) :
  Forall no_LF (splitBytesByNewLine bytes).
Proof.
  destruct (split_shape bytes) as (result & Hsegs & [[-> _] | H]);
    [assumption|].
  destruct H as (last & _ & Hlast & -> & _).
  apply Forall_app. split; [assumption|]. now constructor.
Qed.

Lemma split_join (bytes : Uint8Array) :
  bytes = Spec.join_lines (splitBytesByNewLine bytes)
            ++ (if Spec.ends_with_LF bytes then [LF] else []).
Proof.
  destruct (split_shape bytes) as (result & Hsegs & [[Hs Hb] | H]).
  - rewrite Hs. rewrite Hb at 2. rewrite ends_with_LF_terminated.
    destruct result as [|a r]; [now rewrite Hb|].
    cbn [List.length Nat.eqb negb]. rewrite Hb at 1.
    now apply terminated_join.
  - destruct H as (last & Hne & Hlast & Hs & Hb).
    rewrite Hs. rewrite Hb at 2.
    rewrite (ends_with_LF_open _ _ Hne Hlast), app_nil_r, join_lines_snoc.
    exact Hb.
Qed.

Lemma split_length (bytes : Uint8Array) :
  List.length (splitBytesByNewLine bytes)
  = (Spec.count_LF bytes
     + (if Spec.ends_with_LF bytes then 0
        else match bytes with [] => 0 | _ => 1 end))%nat.
Proof.
  destruct (split_shape bytes) as (result & Hsegs & [[Hs Hb] | H]).
  - rewrite Hs. rewrite Hb at 1 2. rewrite Hb at 1.
    rewrite ends_with_LF_terminated, (count_LF_terminated _ Hsegs).
    destruct result; simpl; [reflexivity | lia].
  - destruct H as (last & Hne & Hlast & Hs & Hb).
    rewrite Hs, length_app. simpl.
    assert (Hc : Spec.count_LF bytes = List.length result).
    { rewrite Hb, count_LF_app, (count_LF_terminated _ Hsegs),
        (count_LF_no_LF _ Hlast). lia. }
    assert (He : Spec.ends_with_LF bytes = false).
    { rewrite Hb. now apply ends_with_LF_open. }
    rewrite Hc, He. destruct bytes; [|reflexivity].
    symmetry in Hb. apply app_eq_nil in Hb. now destruct Hb.
Qed.

(** An input that ends with a line feed is its segments, each closed by
    a line feed: the empty rest after the last line feed is no segment. *)
Lemma split_terminated (bytes : Uint8Array) :
  Spec.ends_with_LF bytes = true ->
  bytes = terminated (splitBytesByNewLine bytes).
Proof.
  intros Hend.
  destruct (split_shape bytes) as (result & Hsegs & [[Hs Hb] | H]).
  - now rewrite Hs.
  - destruct H as (last & Hne & Hlast & _ & Hb).
    rewrite Hb, (ends_with_LF_open _ _ Hne Hlast) in Hend. discriminate.
Qed.

(* ================================================================== *)
(** ** Objects: lookup, assignment and key order                        *)
(* ================================================================== *)

Section ObjectFacts.
Context {K : Type} `{PropertyKey K}.

Lemma key_eqb_refl (k : K) : key_eqb k k = true.
Proof. now apply key_eqb_eq. Qed.

Lemma key_eqb_neq (a b : K) : a <> b -> key_eqb a b = false.
Proof.
  intros Hne. destruct (key_eqb a b) eqn:E; [|reflexivity].
  now apply key_eqb_eq in E.
Qed.

Lemma key_eqb_false (a b : K) : key_eqb a b = false -> a <> b.
Proof. intros E ->. now rewrite key_eqb_refl in E. Qed.

Section Values.
Context {V : Type}.
Implicit Types (o : Obj K V) (k : K) (v : V).

Lemma get_set_same o k v : get (set o k v) k = Some v.
Proof.
  induction o as [|[k' v'] o IH]; simpl.
  - now rewrite key_eqb_refl.
  - destruct (key_eqb k' k) eqn:E; simpl; now rewrite E.
Qed.

Lemma get_set_other o k k' v : k <> k' -> get (set o k v) k' = get o k'.
Proof.
  intros Hne. induction o as [|[k0 v0] o IH]; simpl.
  - now rewrite (key_eqb_neq _ _ Hne).
  - destruct (key_eqb k0 k) eqn:E; simpl.
    + apply key_eqb_eq in E. subst k0.
      now rewrite (key_eqb_neq _ _ Hne).
    + now rewrite IH.
Qed.

Lemma has_keys o k : has o k = true <-> In k (map fst o).
Proof.
  unfold has. induction o as [|[k' v'] o IH]; simpl.
  - split; [discriminate | contradiction].
  - destruct (key_eqb k' k) eqn:E.
    + apply key_eqb_eq in E. subst. split; auto.
    + rewrite IH. split; [now right|].
      intros [->|Hin]; [|assumption].
      now rewrite key_eqb_refl in E.
Qed.

Lemma get_None_keys o k : get o k = None <-> ~ In k (map fst o).
Proof.
  rewrite <- has_keys. unfold has.
  destruct (get o k); split; intros; congruence.
Qed.

Lemma keys_set o k v :
  map fst (set o k v)
  = if has o k then map fst o else map fst o ++ [k].
Proof.
  unfold has. induction o as [|[k' v'] o IH]; simpl; [reflexivity|].
  destruct (key_eqb k' k) eqn:E; simpl; [reflexivity|].
  rewrite IH. now destruct (get o k).
Qed.

Lemma get_filter (keep : K -> bool) o k :
  keep k = true -> get (filter (fun kv => keep (fst kv)) o) k = get o k.
Proof.
  intros Hk. induction o as [|[k' v'] o IH]; simpl; [reflexivity|].
  destruct (keep k') eqn:Hk'; simpl.
  - now rewrite IH.
  - rewrite IH. destruct (key_eqb k' k) eqn:E; [|reflexivity].
    apply key_eqb_eq in E. congruence.
Qed.

Lemma set_filter (keep : K -> bool) o k v :
  filter (fun kv => keep (fst kv)) (set o k v)
  = if keep k then set (filter (fun kv => keep (fst kv)) o) k v
    else filter (fun kv => keep (fst kv)) o.
Proof.
  induction o as [|[k' v'] o IH]; simpl.
  - now destruct (keep k).
  - destruct (key_eqb k' k) eqn:E; simpl.
    + apply key_eqb_eq in E. subst k'.
      destruct (keep k); simpl; [now rewrite key_eqb_refl | reflexivity].
    + rewrite IH. destruct (keep k'), (keep k); simpl;
        try rewrite E; reflexivity.
Qed.
End Values.

(** *** Grouping *)
Section Groups.
Context {A : Type}.
Implicit Types (o : Obj K (list A)) (k : K) (x : A).

Lemma get_push_same o k x :
  get (push_at o k x) k = Some (group_of o k ++ [x]).
Proof.
  unfold push_at, group_of, has.
  destruct (get o k) as [arr|] eqn:Hg.
  - now rewrite Hg, get_set_same.
  - now rewrite !get_set_same.
Qed.

Lemma get_push_other o k k' x :
  k <> k' -> get (push_at o k x) k' = get o k'.
Proof.
  intros Hne. unfold push_at, has.
  destruct (get o k) as [arr|] eqn:Hg.
  - now rewrite Hg, get_set_other.
  - rewrite get_set_same. now rewrite !get_set_other.
Qed.

Lemma keys_push o k x :
  map fst (push_at o k x)
  = if has o k then map fst o else map fst o ++ [k].
Proof.
  unfold push_at. cbv zeta. destruct (has o k) eqn:Hh.
  - unfold has in Hh. destruct (get o k) eqn:Hg; [|discriminate].
    rewrite keys_set. unfold has. now rewrite Hg.
  - rewrite (get_set_same o k []), !keys_set. unfold has at 1.
    rewrite (get_set_same o k []). now rewrite Hh.
Qed.

Lemma push_filter (keep : K -> bool) o k x :
  filter (fun kv => keep (fst kv)) (push_at o k x)
  = if keep k then push_at (filter (fun kv => keep (fst kv)) o) k x
    else filter (fun kv => keep (fst kv)) o.
Proof.
  unfold push_at, has. cbv zeta. destruct (keep k) eqn:Hk.
  - rewrite (get_filter keep o k Hk).
    destruct (get o k) as [arr|] eqn:Hg.
    + rewrite Hg, (get_filter keep o k Hk), Hg.
      now rewrite set_filter, Hk.
    + rewrite (get_set_same o k []), (get_set_same (filter _ o) k []).
      now rewrite !set_filter, Hk.
  - destruct (get o k) as [arr|] eqn:Hg.
    + rewrite Hg. now rewrite set_filter, Hk.
    + rewrite (get_set_same o k []). now rewrite !set_filter, Hk.
Qed.
End Groups.
End ObjectFacts.

Section GroupFacts.
Context {A K : Type} `{PropertyKey K} (key : A -> option K).
Implicit Types (o acc : Obj K (list A)) (l : list A) (k : K).

Lemma group_fold_get l acc k :
  get (fold_left (group_step key) l acc) k
  = match filter (keyed key k) l with
    | [] => get acc k
    | g => Some (group_of acc k ++ g)
    end.
Proof.
  revert acc; induction l as [|x l IH]; intros acc; [reflexivity|].
  cbn [fold_left filter]. rewrite IH. unfold group_step, keyed at 2.
  destruct (key x) as [k'|]; [|reflexivity].
  destruct (key_eqb k' k) eqn:E.
  - apply key_eqb_eq in E. subst k'.
    unfold group_of at 1. rewrite get_push_same.
    destruct (filter (keyed key k) l); now rewrite <- ?app_assoc.
  - apply key_eqb_false in E. unfold group_of.
    now rewrite (get_push_other _ _ _ _ E).
Qed.

Lemma group_by_get l k :
  get (group_by key l) k
  = match filter (keyed key k) l with [] => None | g => Some g end.
Proof. unfold group_by. rewrite group_fold_get. reflexivity. Qed.

Lemma group_of_group_by l k :
  group_of (group_by key l) k = filter (keyed key k) l.
Proof.
  unfold group_of. rewrite group_by_get.
  now destruct (filter (keyed key k) l).
Qed.

Lemma group_fold_keys l acc k :
  In k (map fst (fold_left (group_step key) l acc))
  <-> In k (map fst acc) \/ exists x, In x l /\ key x = Some k.
Proof.
  revert acc; induction l as [|x l IH]; intros acc; cbn [fold_left].
  - split; [now left|]. intros [Hin | (x & [] & _)]. assumption.
  - rewrite IH. unfold group_step at 1.
    destruct (key x) as [k'|] eqn:Hx.
    + rewrite keys_push. split.
      * intros [Hin | (y & Hy & Hk)].
        -- destruct (has acc k'); [now left|].
           apply in_app_or in Hin. destruct Hin as [Hin | [<- | []]].
           ++ now left.
           ++ right. exists x. split; [now left | assumption].
        -- right. exists y. split; [now right | assumption].
      * intros [Hin | (y & [<- | Hy] & Hk)].
        -- left. destruct (has acc k'); [assumption|].
           apply in_or_app. now left.
        -- left. rewrite Hx in Hk. inversion Hk; subst k'.
           destruct (has acc k) eqn:Hh; [now apply has_keys|].
           apply in_or_app. right. now left.
        -- right. now exists y.
    + split.
      * intros [Hin | (y & Hy & Hk)]; [now left|].
        right. exists y. split; [now right | assumption].
      * intros [Hin | (y & [<- | Hy] & Hk)]; [now left | congruence |].
        right. now exists y.
Qed.

Lemma group_by_keys l k :
  In k (map fst (group_by key l)) <-> exists x, In x l /\ key x = Some k.
Proof.
  unfold group_by. rewrite group_fold_keys. simpl. tauto.
Qed.

Lemma group_fold_NoDup l acc :
  NoDup (map fst acc) -> NoDup (map fst (fold_left (group_step key) l acc)).
Proof.
  revert acc; induction l as [|x l IH]; intros acc Hnd; [assumption|].
  cbn [fold_left]. apply IH. unfold group_step.
  destruct (key x) as [k|]; [|assumption].
  rewrite keys_push. destruct (has acc k) eqn:Hh; [assumption|].
  apply NoDup_app; [assumption | repeat constructor; auto |].
  intros a Ha [<- | []]. apply has_keys in Ha. congruence.
Qed.

Lemma group_by_NoDup l : NoDup (map fst (group_by key l)).
Proof. apply group_fold_NoDup. constructor. Qed.

(** Dropping the elements whose key fails [keep] drops exactly the
    properties under those keys, and leaves the others in place. *)
Lemma group_fold_filter (keep : K -> bool) (sel : A -> bool) l acc :
  (forall x k, key x = Some k -> sel x = keep k) ->
  fold_left (group_step key) (filter sel l)
    (filter (fun kv => keep (fst kv)) acc)
  = filter (fun kv => keep (fst kv)) (fold_left (group_step key) l acc).
Proof.
  intros Hsel. revert acc; induction l as [|x l IH]; intros acc;
    [reflexivity|].
  cbn [fold_left filter]. rewrite <- IH.
  unfold group_step at 2 3. destruct (key x) as [k|] eqn:Hx.
  - rewrite push_filter, (Hsel x k Hx).
    destruct (keep k); [|reflexivity].
    cbn [fold_left]. unfold group_step at 2. now rewrite Hx.
  - destruct (sel x); [|reflexivity].
    cbn [fold_left]. unfold group_step at 2. now rewrite Hx.
Qed.

Lemma group_by_filter (keep : K -> bool) (sel : A -> bool) l :
  (forall x k, key x = Some k -> sel x = keep k) ->
  group_by key (filter sel l)
  = filter (fun kv => keep (fst kv)) (group_by key l).
Proof.
  intros Hsel. unfold group_by.
  now rewrite <- (group_fold_filter keep sel l [] Hsel).
Qed.
End GroupFacts.

(* ================================================================== *)
(** ** The order of [for ... in]                                        *)
(* ================================================================== *)

Section ForInFacts.
Context {K : Type} `{PropertyKey K}.
Implicit Types (ks : list K) (l : list (Z * K)) (k : K) (n : Z).

Lemma insert_index_In n k l p :
  In p (insert_index n k l) <-> p = (n, k) \/ In p l.
Proof.
  induction l as [|[m k'] l IH]; simpl.
  - intuition congruence.
  - destruct (n <? m); simpl; [intuition congruence|].
    rewrite IH. intuition congruence.
Qed.

Lemma index_keys_In ks n k :
  In (n, k) (index_keys ks) <-> In k ks /\ array_index k = Some n.
Proof.
  induction ks as [|k' ks IH]; simpl; [tauto|].
  destruct (array_index k') as [m|] eqn:E.
  - rewrite insert_index_In, IH. split.
    + intros [Heq | [Hin Hk]]; [inversion Heq; subst; auto | auto].
    + intros [[-> | Hin] Hk]; [left; congruence | auto].
  - rewrite IH. split; [tauto|].
    intros [[-> | Hin] Hk]; [congruence | auto].
Qed.

Lemma for_in_In {V : Type} (o : Obj K V) k :
  In k (for_in o) <-> In k (map fst o).
Proof.
  unfold for_in. rewrite in_app_iff, filter_In, in_map_iff. split.
  - intros [([n k'] & <- & Hin) | [Hin _]]; [|assumption].
    now apply index_keys_In in Hin.
  - intros Hin. unfold is_index.
    destruct (array_index k) as [n|] eqn:E; [left | right; auto].
    exists (n, k). split; [reflexivity|]. now apply index_keys_In.
Qed.

Lemma insert_index_sorted n k l :
  StronglySorted index_le l -> StronglySorted index_le (insert_index n k l).
Proof.
  induction 1 as [|[m k'] l Hs IH Hall]; simpl.
  - repeat constructor.
  - destruct (n <? m) eqn:E.
    + apply Z.ltb_lt in E. constructor.
      * now constructor.
      * constructor; [unfold index_le; simpl; lia|].
        eapply Forall_impl; [|exact Hall].
        unfold index_le. simpl. intros; lia.
    + apply Z.ltb_ge in E. constructor; [assumption|].
      apply Forall_forall. intros p Hp. apply insert_index_In in Hp.
      destruct Hp as [-> | Hp]; [exact E|].
      now apply (proj1 (Forall_forall _ _) Hall).
Qed.

Lemma index_keys_sorted ks : StronglySorted index_le (index_keys ks).
Proof.
  induction ks as [|k ks IH]; simpl; [constructor|].
  destruct (array_index k); [now apply insert_index_sorted | assumption].
Qed.

Lemma insert_index_front n k l :
  Forall (fun p => n < fst p) l -> insert_index n k l = (n, k) :: l.
Proof.
  intros Hall. destruct l as [|[m k'] l]; [reflexivity|]. simpl.
  inversion Hall as [|? ? Hm _]; subst. simpl in Hm.
  apply Z.ltb_lt in Hm. now rewrite Hm.
Qed.

Lemma insert_index_filter (keep : K -> bool) n k l :
  StronglySorted index_le l ->
  filter (fun p => keep (snd p)) (insert_index n k l)
  = if keep k then insert_index n k (filter (fun p => keep (snd p)) l)
    else filter (fun p => keep (snd p)) l.
Proof.
  induction 1 as [|[m k'] l Hs IH Hall]; cbn [insert_index].
  - simpl. now destruct (keep k).
  - destruct (n <? m) eqn:E.
    + remember ((m, k') :: l) as rest eqn:Hrest.
      cbn [filter snd]. destruct (keep k) eqn:Hk; [|reflexivity].
      symmetry. apply insert_index_front.
      apply Z.ltb_lt in E.
      assert (Hlt : Forall (fun p : Z * K => n < fst p) rest).
      { subst rest. constructor; [exact E|].
        eapply Forall_impl; [|exact Hall].
        unfold index_le. simpl. intros; lia. }
      apply Forall_forall. intros p Hp.
      apply filter_In in Hp. destruct Hp as [Hp _].
      now apply (proj1 (Forall_forall _ _) Hlt).
    + cbn [filter snd]. rewrite IH.
      destruct (keep k'), (keep k); cbn [insert_index];
        try rewrite E; reflexivity.
Qed.

Lemma index_keys_filter (keep : K -> bool) ks :
  index_keys (filter keep ks)
  = filter (fun p => keep (snd p)) (index_keys ks).
Proof.
  induction ks as [|k ks IH]; simpl; [reflexivity|].
  destruct (array_index k) as [n|] eqn:E.
  - rewrite (insert_index_filter keep n k _ (index_keys_sorted ks)).
    destruct (keep k); simpl; [now rewrite E, IH | assumption].
  - destruct (keep k); simpl; [now rewrite E, IH | assumption].
Qed.

Lemma filter_comm {A : Type} (f g : A -> bool) (l : list A) :
  filter f (filter g l) = filter g (filter f l).
Proof.
  induction l as [|x l IH]; simpl; [reflexivity|].
  destruct (f x) eqn:Ef, (g x) eqn:Eg; simpl; rewrite ?Ef, ?Eg, IH;
    reflexivity.
Qed.

Lemma map_fst_filter {V : Type} (keep : K -> bool) (o : Obj K V) :
  map fst (filter (fun kv => keep (fst kv)) o) = filter keep (map fst o).
Proof.
  induction o as [|[k v] o IH]; simpl; [reflexivity|].
  destruct (keep k); simpl; now rewrite IH.
Qed.

Lemma map_snd_filter (keep : K -> bool) l :
  map snd (filter (fun p => keep (snd p)) l) = filter keep (map snd l).
Proof.
  induction l as [|[n k] l IH]; simpl; [reflexivity|].
  destruct (keep k); simpl; now rewrite IH.
Qed.

(** Removing properties does not reorder the ones that stay. *)
Lemma for_in_filter {V : Type} (keep : K -> bool) (o : Obj K V) :
  for_in (filter (fun kv => keep (fst kv)) o) = filter keep (for_in o).
Proof.
  unfold for_in.
  rewrite map_fst_filter, index_keys_filter, map_snd_filter, filter_app.
  f_equal. apply filter_comm.
Qed.
End ForInFacts.

(* ================================================================== *)
(** ** [Array.prototype.sort] with a comparator [m a - m b]             *)
(* ================================================================== *)

Section SortFacts.
Context {A : Type} (m : A -> Z).

Lemma sort_insert_perm (x : A) (l : list A) :
  Permutation (sort_insert (difference m) x l) (x :: l).
Proof.
  induction l as [|y l IH]; simpl; [reflexivity|].
  destruct (difference m x y <=? 0); [reflexivity|].
  rewrite IH. apply perm_swap.
Qed.

Lemma sort_perm (l : list A) : Permutation (sort (difference m) l) l.
Proof.
  induction l as [|x l IH]; simpl; [reflexivity|].
  rewrite sort_insert_perm. now constructor.
Qed.

Lemma sort_length (l : list A) :
  List.length (sort (difference m) l) = List.length l.
Proof. apply Permutation_length, sort_perm. Qed.

Lemma sort_In (l : list A) (x : A) : In x (sort (difference m) l) <-> In x l.
Proof.
  split; apply Permutation_in; [|symmetry]; apply sort_perm.
Qed.

Lemma sort_insert_sorted (x : A) (l : list A) :
  StronglySorted (ascending m) l ->
  StronglySorted (ascending m) (sort_insert (difference m) x l).
Proof.
  induction 1 as [|y l Hs IH Hall]; simpl.
  - repeat constructor.
  - unfold difference at 1. destruct (m x - m y <=? 0) eqn:E.
    + apply Z.leb_le in E. constructor; [now constructor|].
      constructor; [unfold ascending; lia|].
      eapply Forall_impl; [|exact Hall]. unfold ascending. intros; lia.
    + apply Z.leb_gt in E. constructor; [assumption|].
      apply Forall_forall. intros z Hz.
      apply (Permutation_in _ (sort_insert_perm x l)) in Hz.
      destruct Hz as [<- | Hz]; [unfold ascending; lia|].
      now apply (proj1 (Forall_forall _ _) Hall).
Qed.

Lemma sort_sorted (l : list A) :
  StronglySorted (ascending m) (sort (difference m) l).
Proof.
  induction l as [|x l IH]; simpl; [constructor|].
  now apply sort_insert_sorted.
Qed.

Lemma sort_insert_front (x : A) (l : list A) :
  Forall (ascending m x) l -> sort_insert (difference m) x l = x :: l.
Proof.
  intros Hall. destruct l as [|y l]; [reflexivity|]. simpl.
  inversion Hall as [|? ? Hy _]; subst.
  unfold ascending in Hy. unfold difference.
  destruct (m x - m y <=? 0) eqn:E; [reflexivity|].
  apply Z.leb_gt in E. lia.
Qed.

Lemma sort_insert_filter (f : A -> bool) (x : A) (l : list A) :
  StronglySorted (ascending m) l ->
  filter f (sort_insert (difference m) x l)
  = if f x then sort_insert (difference m) x (filter f l) else filter f l.
Proof.
  induction 1 as [|y l Hs IH Hall]; cbn [sort_insert].
  - simpl. now destruct (f x).
  - unfold difference at 1. destruct (m x - m y <=? 0) eqn:E.
    + remember (y :: l) as rest eqn:Hrest.
      cbn [filter]. destruct (f x); [|reflexivity].
      symmetry. apply sort_insert_front.
      apply Z.leb_le in E.
      assert (Hle : Forall (ascending m x) rest).
      { subst rest. constructor; [unfold ascending; lia|].
        eapply Forall_impl; [|exact Hall]. unfold ascending. intros; lia. }
      apply Forall_forall. intros z Hz.
      apply filter_In in Hz. destruct Hz as [Hz _].
      now apply (proj1 (Forall_forall _ _) Hle).
    + cbn [filter]. rewrite IH.
      destruct (f y), (f x); cbn [sort_insert]; unfold difference;
        try rewrite E; reflexivity.
Qed.

(** The sort is stable: it commutes with taking a sub-sequence. *)
Lemma sort_filter (f : A -> bool) (l : list A) :
  filter f (sort (difference m) l) = sort (difference m) (filter f l).
Proof.
  induction l as [|x l IH]; simpl; [reflexivity|].
  rewrite (sort_insert_filter f x _ (sort_sorted l)), IH.
  now destruct (f x).
Qed.
End SortFacts.

(** The same facts for [mappings.sort((a, b) => a.generatedColumn -
    b.generatedColumn)]. *)
Lemma sort_column_length (l : list Loc) :
  List.length (sort by_generatedColumn l) = List.length l.
Proof. exact (sort_length generatedColumn l). Qed.

Lemma sort_column_In (l : list Loc) (x : Loc) :
  In x (sort by_generatedColumn l) <-> In x l.
Proof. exact (sort_In generatedColumn l x). Qed.

Lemma sort_column_perm (l : list Loc) :
  Permutation (sort by_generatedColumn l) l.
Proof. exact (sort_perm generatedColumn l). Qed.

Lemma sort_column_sorted (l : list Loc) :
  StronglySorted column_le (sort by_generatedColumn l).
Proof. exact (sort_sorted generatedColumn l). Qed.

Lemma sort_column_filter (f : Loc -> bool) (l : list Loc) :
  filter f (sort by_generatedColumn l) = sort by_generatedColumn (filter f l).
Proof. exact (sort_filter generatedColumn f l). Qed.

(* ================================================================== *)
(** ** [getStringFromSerializeMappings]                                 *)
(* ================================================================== *)

Lemma maapingWithLine_group (mappings : list Loc) :
  maapingWithLine mappings = group_by line_key mappings.
Proof. reflexivity. Qed.

Lemma append_line_text (bytes : list Uint8Array) (o : Obj Z (list Loc))
    (s : Str) (line : Z) :
  append_line bytes o s line = s ++ line_text bytes line (group_of o line).
Proof.
  unfold append_line, line_text, group_of.
  destruct (index bytes (line - 1)); [|now rewrite app_nil_r].
  apply fold_left_append.
Qed.

(** The reconstruction is the concatenation, over the lines in [for_in]
    order, of the text of each line's entries. *)
Lemma getString_lines (bytes : list Uint8Array) (mappings : list Loc) :
  getStringFromSerializeMappings bytes mappings
  = List.concat
      (map (fun line =>
              line_text bytes line (filter (on_line line) mappings))
         (for_in (maapingWithLine mappings))).
Proof.
  unfold getStringFromSerializeMappings.
  assert (Hfold : forall keys s,
    fold_left (append_line bytes (maapingWithLine mappings)) keys s
    = s ++ List.concat
             (map (fun line =>
                     line_text bytes line (filter (on_line line) mappings))
                keys)).
  { induction keys as [|k keys IH]; intros s; simpl.
    - now rewrite app_nil_r.
    - rewrite IH, append_line_text, maapingWithLine_group,
        group_of_group_by. now rewrite app_assoc. }
  apply Hfold.
Qed.

Lemma index_missing_line (bytes : list Uint8Array) (line : Z) :
  line_exists bytes line = false -> index bytes (line - 1) = None.
Proof.
  unfold line_exists, index. intros Hl.
  destruct (line - 1 <? 0) eqn:E; [reflexivity|].
  apply Z.ltb_ge in E. apply nth_error_None.
  apply andb_false_iff in Hl. destruct Hl as [Hl | Hl].
  - apply Z.leb_gt in Hl. lia.
  - apply Z.leb_gt in Hl. lia.
Qed.

Lemma line_text_missing (bytes : list Uint8Array) (line : Z)
    (group : list Loc) :
  line_exists bytes line = false -> line_text bytes line group = [].
Proof.
  intros Hl. unfold line_text. now rewrite (index_missing_line _ _ Hl).
Qed.

(** Entries on lines the artifact does not have can be left out. *)
Lemma getString_drop_lines (keep : Z -> bool) (bytes : list Uint8Array)
    (mappings : list Loc) :
  (forall line, keep line = false -> line_exists bytes line = false) ->
  getStringFromSerializeMappings bytes
    (filter (fun m => keep (generatedLine m)) mappings)
  = getStringFromSerializeMappings bytes mappings.
Proof.
  intros Hkeep. rewrite !getString_lines, !maapingWithLine_group.
  rewrite (group_by_filter line_key keep
             (fun m => keep (generatedLine m)) mappings).
  2:{ intros x k Hk. now inversion Hk. }
  rewrite for_in_filter.
  rewrite <- (concat_map_filter
                (fun line => line_text bytes line
                               (filter (on_line line) mappings)) keep).
  2:{ intros line _ Hl. apply line_text_missing. now apply Hkeep. }
  f_equal. apply map_ext_in. intros line Hin.
  apply filter_In in Hin. destruct Hin as [_ Hk].
  f_equal. apply filter_implied. intros x Hx.
  apply Z.eqb_eq in Hx. now rewrite Hx.
Qed.

(* ================================================================== *)
(** ** Ascending lists of lines                                         *)
(* ================================================================== *)

Lemma sorted_filter {A : Type} (R : A -> A -> Prop) (f : A -> bool)
    (l : list A) :
  StronglySorted R l -> StronglySorted R (filter f l).
Proof.
  induction 1 as [|x l Hs IH Hall]; simpl; [constructor|].
  destruct (f x); [|assumption]. constructor; [assumption|].
  apply Forall_forall. intros y Hy. apply filter_In in Hy.
  now apply (proj1 (Forall_forall _ _) Hall).
Qed.

Lemma sorted_app {A : Type} (R : A -> A -> Prop) (l1 l2 : list A) :
  StronglySorted R l1 -> StronglySorted R l2 ->
  (forall a b, In a l1 -> In b l2 -> R a b) ->
  StronglySorted R (l1 ++ l2).
Proof.
  induction 1 as [|x l Hs IH Hall]; intros H2 Hcross; simpl; [assumption|].
  constructor.
  - apply IH; [assumption|]. intros a b Ha Hb.
    apply Hcross; [now right | assumption].
  - apply Forall_app. split; [assumption|].
    apply Forall_forall. intros b Hb. apply Hcross; [now left | assumption].
Qed.

Lemma sorted_ascending_strict {A : Type} (m : A -> Z) (l : list A) :
  StronglySorted (ascending m) l -> NoDup (map m l) ->
  StronglySorted (strictly_ascending m) l.
Proof.
  induction 1 as [|x l Hs IH Hall]; intros Hnd; [constructor|].
  simpl in Hnd. inversion Hnd as [|? ? Hnin Hnd']; subst.
  constructor; [now apply IH|].
  apply Forall_forall. intros y Hy.
  pose proof (proj1 (Forall_forall _ _) Hall y Hy) as Hle.
  unfold ascending in Hle. unfold strictly_ascending.
  assert (m x <> m y).
  { intros Heq. apply Hnin. rewrite Heq. now apply in_map. }
  lia.
Qed.

Lemma sorted_le_NoDup_lt (l : list Z) :
  StronglySorted Z.le l -> NoDup l -> StronglySorted Z.lt l.
Proof.
  intros Hs Hnd. apply (sorted_ascending_strict (fun x => x)); [exact Hs|].
  now rewrite map_id.
Qed.

Lemma NoDup_const_sorted (c : Z) (l : list Z) :
  NoDup l -> Forall (eq c) l -> StronglySorted Z.lt l.
Proof.
  intros Hnd Hall. destruct l as [|a [|b l]].
  - constructor.
  - repeat constructor.
  - inversion Hall as [|? ? Ha Hall']; subst.
    inversion Hall' as [|? ? Hb _]; subst.
    inversion Hnd as [|? ? Hnin _]; subst. exfalso. apply Hnin. now left.
Qed.

(** A strictly ascending list is determined by its elements. *)
Lemma sorted_strict_unique {A : Type} (m : A -> Z) (l1 l2 : list A) :
  StronglySorted (strictly_ascending m) l1 ->
  StronglySorted (strictly_ascending m) l2 ->
  (forall x, In x l1 <-> In x l2) -> l1 = l2.
Proof.
  unfold strictly_ascending.
  intros H1; revert l2. induction H1 as [|a l1 Hs1 IH Hall1];
    intros l2 H2 Hsame.
  - destruct l2 as [|b l2]; [reflexivity|].
    exfalso. apply (Hsame b). now left.
  - destruct H2 as [|b l2 Hs2 Hall2].
    + exfalso. apply (Hsame a). now left.
    + assert (Hab : a = b).
      { destruct (proj1 (Hsame a) (or_introl eq_refl)) as [Hb | Hb];
          [now symmetry|].
        destruct (proj2 (Hsame b) (or_introl eq_refl)) as [Ha | Ha];
          [assumption|].
        pose proof (proj1 (Forall_forall _ _) Hall2 a Hb).
        pose proof (proj1 (Forall_forall _ _) Hall1 b Ha). simpl in *. lia. }
      subst b. f_equal. apply IH; [assumption|].
      intros x. split; intros Hx.
      * pose proof (proj1 (Forall_forall _ _) Hall1 x Hx) as Hlt.
        destruct (proj1 (Hsame x) (or_intror Hx)) as [-> | Hin];
          [simpl in Hlt; lia | assumption].
      * pose proof (proj1 (Forall_forall _ _) Hall2 x Hx) as Hlt.
        destruct (proj2 (Hsame x) (or_intror Hx)) as [-> | Hin];
          [simpl in Hlt; lia | assumption].
Qed.

Lemma sorted_lt_unique (l1 l2 : list Z) :
  StronglySorted Z.lt l1 -> StronglySorted Z.lt l2 ->
  (forall x, In x l1 <-> In x l2) -> l1 = l2.
Proof. exact (sorted_strict_unique (fun x => x) l1 l2). Qed.

Lemma insert_line_In (line x : Z) (ls : list Z) :
  In x (Spec.insert_line line ls) <-> x = line \/ In x ls.
Proof.
  induction ls as [|y ls IH]; simpl; [intuition|].
  destruct (line <? y); simpl; [intuition|].
  destruct (line =? y) eqn:E; simpl.
  - apply Z.eqb_eq in E. subst. intuition.
  - rewrite IH. intuition.
Qed.

Lemma insert_line_sorted (line : Z) (ls : list Z) :
  StronglySorted Z.lt ls -> StronglySorted Z.lt (Spec.insert_line line ls).
Proof.
  induction 1 as [|y ls Hs IH Hall]; simpl; [repeat constructor|].
  destruct (line <? y) eqn:Hlt.
  - apply Z.ltb_lt in Hlt. constructor; [now constructor|].
    constructor; [assumption|].
    eapply Forall_impl; [|exact Hall]. simpl. intros; lia.
  - apply Z.ltb_ge in Hlt. destruct (line =? y) eqn:E.
    + now constructor.
    + apply Z.eqb_neq in E. constructor; [assumption|].
      apply Forall_forall. intros x Hx. apply insert_line_In in Hx.
      destruct Hx as [-> | Hx]; [lia|].
      now apply (proj1 (Forall_forall _ _) Hall).
Qed.

Lemma lines_ascending_sorted (entries : list Loc) :
  StronglySorted Z.lt (Spec.lines_ascending entries).
Proof.
  unfold Spec.lines_ascending.
  induction (map generatedLine entries) as [|x l IH]; simpl; [constructor|].
  now apply insert_line_sorted.
Qed.

Lemma lines_ascending_In (entries : list Loc) (line : Z) :
  In line (Spec.lines_ascending entries)
  <-> exists m, generatedLine m = line /\ In m entries.
Proof.
  unfold Spec.lines_ascending. rewrite <- in_map_iff.
  induction (map generatedLine entries) as [|x l IH]; simpl; [tauto|].
  rewrite insert_line_In, IH. intuition.
Qed.

(** *** The line keys in [for ... in] order *)

Lemma index_keys_perm {K : Type} `{PropertyKey K} (ks : list K) :
  Permutation (map snd (index_keys ks)) (filter is_index ks).
Proof.
  induction ks as [|k ks IH]; simpl; [reflexivity|].
  unfold is_index at 1. destruct (array_index k) as [n|]; [|assumption].
  rewrite <- IH. clear IH.
  induction (index_keys ks) as [|[m k'] l IHl]; simpl; [reflexivity|].
  destruct (n <? m); simpl; [reflexivity|].
  rewrite IHl. apply perm_swap.
Qed.

Lemma number_index_bound (k n : Z) :
  number_index k = Some n -> n = k /\ 0 <= k < max_array_index.
Proof.
  unfold number_index.
  destruct ((0 <=? k) && (k <? max_array_index)) eqn:E; [|discriminate].
  intros Hn. inversion Hn; subst. apply andb_true_iff in E.
  destruct E as [E1 E2]. apply Z.leb_le in E1. apply Z.ltb_lt in E2. lia.
Qed.

Lemma number_keys_sorted (ks : list Z) :
  NoDup ks -> StronglySorted Z.lt (map snd (index_keys ks)).
Proof.
  intros Hnd. apply sorted_le_NoDup_lt.
  - assert (Hfs : Forall (fun p : Z * Z => fst p = snd p) (index_keys ks)).
    { apply Forall_forall. intros [n k] Hin. apply index_keys_In in Hin.
      destruct Hin as [_ Hn]. simpl in Hn.
      now destruct (number_index_bound _ _ Hn). }
    pose proof (index_keys_sorted ks) as Hs.
    induction Hs as [|[n k] l Hs IH Hall]; simpl; [constructor|].
    inversion Hfs as [|? ? Hnk Hfs']; subst. simpl in Hnk. subst n.
    constructor; [now apply IH|].
    apply Forall_forall. intros y Hy. apply in_map_iff in Hy.
    destruct Hy as ([n' k'] & <- & Hin).
    pose proof (proj1 (Forall_forall _ _) Hall _ Hin) as Hle.
    pose proof (proj1 (Forall_forall _ _) Hfs' _ Hin) as Heq.
    unfold index_le in Hle. simpl in *. lia.
  - eapply Permutation_NoDup; [symmetry; apply index_keys_perm|].
    now apply NoDup_filter.
Qed.

Lemma line_not_index (bytes : list Uint8Array) (x : Z) :
  Z.of_nat (List.length bytes) <= max_array_index ->
  line_exists bytes x = true -> is_index x = false -> x = max_array_index.
Proof.
  intros Hlen Hex Hni.
  unfold line_exists in Hex. apply andb_true_iff in Hex.
  destruct Hex as [H1 H2]. apply Z.leb_le in H1. apply Z.leb_le in H2.
  unfold is_index in Hni. simpl in Hni. unfold number_index in Hni.
  destruct ((0 <=? x) && (x <? max_array_index)) eqn:E; [discriminate|].
  apply andb_false_iff in E. destruct E as [E | E].
  - apply Z.leb_gt in E. lia.
  - apply Z.ltb_ge in E. lia.
Qed.

(** Among the lines the artifact has, [for ... in] goes upwards: they are
    array-index keys, except line [2^32 - 1], which comes last. *)
Lemma for_in_lines_sorted {V : Type} (bytes : list Uint8Array) (o : Obj Z V) :
  NoDup (map fst o) ->
  Z.of_nat (List.length bytes) <= max_array_index ->
  StronglySorted Z.lt (filter (line_exists bytes) (for_in o)).
Proof.
  intros Hnd Hlen. unfold for_in. rewrite filter_app.
  apply sorted_app.
  - apply sorted_filter. now apply number_keys_sorted.
  - apply (NoDup_const_sorted max_array_index).
    + now repeat apply NoDup_filter.
    + apply Forall_forall. intros x Hx.
      apply filter_In in Hx. destruct Hx as [Hx Hex].
      apply filter_In in Hx. destruct Hx as [_ Hni].
      symmetry. apply (line_not_index bytes); try assumption.
      now destruct (is_index x).
  - intros a b Ha Hb.
    apply filter_In in Ha. destruct Ha as [Ha _].
    apply in_map_iff in Ha. destruct Ha as ([n k] & <- & Hin).
    apply index_keys_In in Hin. destruct Hin as [_ Hn]. simpl in Hn.
    destruct (number_index_bound _ _ Hn) as [_ Hk]. simpl.
    apply filter_In in Hb. destruct Hb as [Hb Hex].
    apply filter_In in Hb. destruct Hb as [_ Hni].
    rewrite (line_not_index bytes b); try assumption; [lia|].
    now destruct (is_index b).
Qed.

(** After the sort by column, the reconstruction walks the lines upwards
    and, on each line, the entries by ascending column. *)
Lemma getString_line_then_column (bytes : list Uint8Array)
    (entries : list Loc) :
  Z.of_nat (List.length bytes) <= max_array_index ->
  getStringFromSerializeMappings bytes (sort by_generatedColumn entries)
  = Spec.line_then_column_text bytes entries.
Proof.
  intros Hlen. rewrite getString_lines. unfold Spec.line_then_column_text.
  set (F := fun line =>
              line_text bytes line (Spec.entries_on_line entries line)).
  rewrite (map_ext _ F).
  2:{ intros line. unfold F, Spec.entries_on_line. f_equal.
      apply sort_column_filter. }
  rewrite <- (concat_map_filter F (line_exists bytes)
                (for_in (maapingWithLine _))).
  2:{ intros line _ Hl. now apply line_text_missing. }
  etransitivity;
    [|apply (concat_map_filter F (line_exists bytes));
      intros line _ Hl; now apply line_text_missing].
  do 2 f_equal. apply sorted_lt_unique.
  - apply for_in_lines_sorted; [|assumption].
    rewrite maapingWithLine_group. apply group_by_NoDup.
  - apply sorted_filter, lines_ascending_sorted.
  - intros line. rewrite !filter_In, for_in_In, maapingWithLine_group,
      group_by_keys, lines_ascending_In.
    split; intros [[m [Hm1 Hm2]] Hex]; (split; [|assumption]); exists m.
    + inversion Hm2; subst. split; [reflexivity|].
      now apply sort_column_In.
    + split; [|unfold line_key; now rewrite Hm1].
      now apply sort_column_In.
Qed.

(** *** Independence of the document order *)

Lemma columns_on_line_NoDup (entries : list Loc) (line : Z) :
  NoDup (map position entries) ->
  NoDup (map generatedColumn (filter (on_line line) entries)).
Proof.
  induction entries as [|x l IH]; intros Hnd; [constructor|].
  simpl in Hnd. inversion Hnd as [|? ? Hnin Hnd']; subst.
  simpl. destruct (on_line line x) eqn:Hx; [|now apply IH].
  simpl. constructor; [|now apply IH].
  intros Hin. apply in_map_iff in Hin. destruct Hin as (y & Hy & Hyin).
  apply filter_In in Hyin. destruct Hyin as [Hyin Hyl].
  apply Hnin. apply in_map_iff. exists y. split; [|assumption].
  unfold on_line in *. apply Z.eqb_eq in Hx. apply Z.eqb_eq in Hyl.
  unfold position. congruence.
Qed.

Lemma entries_on_line_perm (entries entries' : list Loc) (line : Z) :
  Permutation entries entries' ->
  NoDup (map position entries) ->
  Spec.entries_on_line entries line = Spec.entries_on_line entries' line.
Proof.
  intros Hperm Hnd. unfold Spec.entries_on_line.
  assert (Hnd' : NoDup (map position entries')).
  { eapply Permutation_NoDup; [|exact Hnd]. now apply Permutation_map. }
  apply (sorted_strict_unique generatedColumn).
  - apply sorted_ascending_strict; [apply sort_column_sorted|].
    eapply Permutation_NoDup;
      [apply Permutation_map; symmetry; apply sort_column_perm|].
    now apply columns_on_line_NoDup.
  - apply sorted_ascending_strict; [apply sort_column_sorted|].
    eapply Permutation_NoDup;
      [apply Permutation_map; symmetry; apply sort_column_perm|].
    now apply columns_on_line_NoDup.
  - intros x. rewrite !sort_column_In, !filter_In.
    split; intros [Hin Hl]; (split; [|assumption]).
    + now apply (Permutation_in _ Hperm).
    + now apply (Permutation_in _ (Permutation_sym Hperm)).
Qed.

(** With at most one entry per generated position, the text does not
    depend on the order of the entries in the document. *)
Lemma line_then_column_perm (bytes : list Uint8Array)
    (entries entries' : list Loc) :
  Permutation entries entries' ->
  NoDup (map position entries) ->
  Spec.line_then_column_text bytes entries
  = Spec.line_then_column_text bytes entries'.
Proof.
  intros Hperm Hnd. unfold Spec.line_then_column_text.
  assert (Hlines : Spec.lines_ascending entries
                   = Spec.lines_ascending entries').
  { apply sorted_lt_unique; try apply lines_ascending_sorted.
    intros line. rewrite !lines_ascending_In.
    split; intros (m & Hm & Hin); exists m; (split; [assumption|]).
    - now apply (Permutation_in _ Hperm).
    - now apply (Permutation_in _ (Permutation_sym Hperm)). }
  rewrite <- Hlines. f_equal. apply map_ext. intros line.
  now rewrite (entries_on_line_perm entries entries' line Hperm Hnd).
Qed.

(* ================================================================== *)
(** ** [getSourceMappings]                                              *)
(* ================================================================== *)

Lemma fold_left_ext {A B : Type} (f g : A -> B -> A) (l : list B) (a : A) :
  (forall a x, f a x = g a x) -> fold_left f l a = fold_left g l a.
Proof.
  intros Hfg. revert a; induction l as [|x l IH]; intros a; simpl;
    [reflexivity|].
  now rewrite Hfg, IH.
Qed.

Lemma collect_group_step (formatter : string -> string)
    (o : Obj string (list Loc)) (m : MappingItem) :
  collect formatter o m = group_step (module_of formatter) o m.
Proof.
  unfold collect, group_step, module_of.
  destruct (source m) as [src|]; [|reflexivity].
  now destruct (truthy src).
Qed.

Lemma mappingWithId_group (formatter : string -> string) (consumer : Consumer) :
  mappingWithId formatter consumer
  = group_by (module_of formatter) (eachMapping consumer ORIGINAL_ORDER).
Proof.
  unfold mappingWithId, group_by. apply fold_left_ext.
  apply collect_group_step.
Qed.

Lemma mappingWithId_entries (formatter : string -> string)
    (consumer : Consumer) (id : string) :
  group_of (mappingWithId formatter consumer) id
  = entries_of formatter id consumer.
Proof. rewrite mappingWithId_group, group_of_group_by. reflexivity. Qed.

Lemma attribute_get (bytes : list Uint8Array) (o : Obj string (list Loc))
    (hints : Obj string Str) (id' id : string) :
  get (attribute bytes o hints id') id
  = if String.eqb id id' && gets_hint o id
    then Some (module_text bytes o id)
    else get hints id.
Proof.
  unfold attribute, gets_hint, module_text, assign_hint.
  fold (group_of o id'). rewrite sort_column_length.
  destruct (String.eqb id id') eqn:E.
  - apply String.eqb_eq in E. subst id'.
    destruct (group_of o id) as [|m g] eqn:Hg;
      cbn [List.length Nat.ltb Nat.leb].
    + now rewrite andb_false_r.
    + destruct (String.eqb id "__proto__"); [reflexivity|].
      cbn [negb andb]. apply (get_set_same hints id).
  - apply String.eqb_neq in E. cbn [andb].
    destruct (0 <? List.length (group_of o id'))%nat; [|reflexivity].
    destruct (String.eqb id' "__proto__"); [reflexivity|].
    apply (get_set_other hints id' id). congruence.
Qed.

Lemma attribute_fold_get (bytes : list Uint8Array) (o : Obj string (list Loc))
    (ids : list string) (hints : Obj string Str) (id : string) :
  get (fold_left (attribute bytes o) ids hints) id
  = if existsb (String.eqb id) ids && gets_hint o id
    then Some (module_text bytes o id)
    else get hints id.
Proof.
  revert hints; induction ids as [|id' ids IH]; intros hints; [reflexivity|].
  cbn [fold_left existsb]. rewrite IH, attribute_get.
  destruct (String.eqb id id'), (existsb (String.eqb id) ids),
    (gets_hint o id); reflexivity.
Qed.

(** The lookup of a module id in the hints of a consumer. *)
Lemma hints_get (bytes : list Uint8Array) (formatter : string -> string)
    (consumer : Consumer) (id : string) :
  let o := mappingWithId formatter consumer in
  get (fold_left (attribute bytes o) (for_in o) []) id
  = match entries_of formatter id consumer with
    | [] => None
    | entries =>
        if String.eqb id "__proto__" then None
        else Some (getStringFromSerializeMappings bytes
                     (sort by_generatedColumn entries))
    end.
Proof.
  intros o. rewrite attribute_fold_get.
  unfold gets_hint, module_text. subst o.
  rewrite mappingWithId_entries.
  destruct (entries_of formatter id consumer) as [|m g] eqn:He.
  - now rewrite !andb_false_r.
  - assert (Hin : existsb (String.eqb id)
                    (for_in (mappingWithId formatter consumer)) = true).
    { apply existsb_exists. exists id. split; [|apply String.eqb_refl].
      apply for_in_In. rewrite mappingWithId_group. apply group_by_keys.
      exists m. assert (Hm : In m (entries_of formatter id consumer))
        by (rewrite He; now left).
      apply filter_In in Hm. destruct Hm as [Hm Hb]. split; [assumption|].
      unfold belongs_to in Hb.
      destruct (module_of formatter m) as [id'|]; [|discriminate].
      apply String.eqb_eq in Hb. now subst. }
    rewrite Hin. now destruct (String.eqb id "__proto__").
Qed.

Lemma getSourceMappings_resolved
    (SourceMapConsumer_new : string -> option Consumer)
    (code : Uint8Array) (rawSourceMap : string)
    (formatter : string -> string) (consumer : Consumer) :
  SourceMapConsumer_new rawSourceMap = Some consumer ->
  getSourceMappings SourceMapConsumer_new code rawSourceMap formatter
  = Resolved
      (fold_left
         (attribute (splitBytesByNewLine code)
            (mappingWithId formatter consumer))
         (for_in (mappingWithId formatter consumer)) []).
Proof. intros Hc. unfold getSourceMappings. now rewrite Hc. Qed.

(** The text stored for a module is reconstructed from the line table of
    the whole artifact and from the module's entries sorted by column. *)
Lemma hint_text (SourceMapConsumer_new : string -> option Consumer)
    (code : Uint8Array) (rawSourceMap : string)
    (formatter : string -> string) (consumer : Consumer)
    (hints : Obj string Str) (id : string) (text : Str) :
  SourceMapConsumer_new rawSourceMap = Some consumer ->
  getSourceMappings SourceMapConsumer_new code rawSourceMap formatter
  = Resolved hints ->
  get hints id = Some text ->
  entries_of formatter id consumer <> []
  /\ text = getStringFromSerializeMappings (splitBytesByNewLine code)
              (sort by_generatedColumn (entries_of formatter id consumer)).
Proof.
  intros Hc Hrun Hget.
  rewrite (getSourceMappings_resolved _ _ _ _ _ Hc) in Hrun.
  inversion Hrun; subst hints; clear Hrun.
  rewrite hints_get in Hget.
  destruct (entries_of formatter id consumer) as [|m g]; [discriminate|].
  split; [discriminate|].
  destruct (String.eqb id "__proto__"); [discriminate|].
  now inversion Hget.
Qed.

Lemma In_get {K V : Type} `{PropertyKey K} (o : Obj K V) (k : K) (v : V) :
  NoDup (map fst o) -> In (k, v) o -> get o k = Some v.
Proof.
  induction o as [|[k' v'] o IH]; intros Hnd Hin; [contradiction|].
  simpl in *. inversion Hnd as [|? ? Hnin Hnd']; subst.
  destruct Hin as [Heq | Hin].
  - inversion Heq; subst. now rewrite key_eqb_refl.
  - destruct (key_eqb k' k) eqn:E.
    + apply key_eqb_eq in E. subst k'. exfalso. apply Hnin.
      apply in_map_iff. now exists (k, v).
    + now apply IH.
Qed.

(** Elements without a key leave the grouping as it is. *)
Lemma group_by_keyless {A K : Type} `{PropertyKey K} (key : A -> option K)
    (sel : A -> bool) (l : list A) :
  (forall x, sel x = false -> key x = None) ->
  group_by key (filter sel l) = group_by key l.
Proof.
  intros Hsel. unfold group_by. generalize (@nil (K * list A)).
  induction l as [|x l IH]; intros acc; [reflexivity|].
  cbn [filter fold_left]. destruct (sel x) eqn:Hx.
  - cbn [fold_left]. apply IH.
  - assert (Hskip : group_step key acc x = acc).
    { unfold group_step. now rewrite (Hsel x Hx). }
    rewrite Hskip. apply IH.
Qed.

Lemma module_of_has_source (formatter : string -> string) (m : MappingItem)
    (id : string) :
  module_of formatter m = Some id -> has_source m = true.
Proof.
  unfold module_of, has_source. destruct (source m) as [src|];
    [|discriminate].
  now destruct (truthy src).
Qed.

Lemma mappingWithId_without_sourceless (formatter : string -> string)
    (consumer : Consumer) :
  mappingWithId formatter (without_sourceless consumer)
  = mappingWithId formatter consumer.
Proof.
  rewrite !mappingWithId_group. cbn [without_sourceless eachMapping].
  apply group_by_keyless. intros m Hm. unfold module_of, has_source in *.
  destruct (source m) as [src|]; [|reflexivity]. now rewrite Hm.
Qed.

(* ================================================================== *)
(** ** The properties of the specification                              *)
(* ================================================================== *)

(** C8. [splitBytesByNewLine] cuts exactly at the line feeds: no segment
    contains 0x0A; the segments joined with one 0x0A between neighbours
    give the input back, short of one trailing 0x0A when the input ends
    with one; such an input is its segments each closed by 0x0A, so the
    empty rest after the last line feed yields no segment (there are as
    many segments as line feeds, plus one when bytes follow the last line
    feed); and [getSourceMappings] reconstructs the text of every module
    from this one split of the artifact. *)
Theorem splitBytesByNewLine_lines (code : Uint8Array) :
  Forall no_LF (splitBytesByNewLine code)
  /\ code = Spec.join_lines (splitBytesByNewLine code)
              ++ (if Spec.ends_with_LF code then [LF] else [])
  /\ (Spec.ends_with_LF code = true ->
        code = terminated (splitBytesByNewLine code))
  /\ List.length (splitBytesByNewLine code)
     = (Spec.count_LF code
        + (if Spec.ends_with_LF code then 0
           else match code with [] => 0 | _ => 1 end))%nat
  /\ forall SourceMapConsumer_new rawSourceMap formatter consumer hints id text,
       SourceMapConsumer_new rawSourceMap = Some consumer ->
       getSourceMappings SourceMapConsumer_new code rawSourceMap formatter
       = Resolved hints ->
       get hints id = Some text ->
       text = getStringFromSerializeMappings (splitBytesByNewLine code)
                (sort by_generatedColumn (entries_of formatter id consumer)).
Proof.
  split; [apply split_no_LF|].
  split; [apply split_join|].
  split; [apply split_terminated|].
  split; [apply split_length|].
  intros parse raw formatter consumer hints id text Hc Hrun Hget.
  exact (proj2 (hint_text _ _ _ _ _ _ _ _ Hc Hrun Hget)).
Qed.

Lemma splitBytesByNewLine_lines_witness :
  Sample.two_lines = terminated (splitBytesByNewLine Sample.two_lines)
  /\ lit "abcdefghijkl"
     = getStringFromSerializeMappings (splitBytesByNewLine Sample.two_lines)
         (sort by_generatedColumn
            (entries_of Sample.formatter "src/a.ts"
               (Sample.document Sample.scattered))).
Proof.
  destruct (splitBytesByNewLine_lines Sample.two_lines)
    as (_ & _ & Hclosed & _ & Hreuse).
  split.
  - apply Hclosed. reflexivity.
  - apply (Hreuse (Sample.parse Sample.scattered) EmptyString
             Sample.formatter (Sample.document Sample.scattered)
             [("src/a.ts"%string, lit "abcdefghijkl");
              ("src/b.ts"%string, lit "ef")]
             "src/a.ts"%string);
      reflexivity.
Defined.

(** C10. [convertSourcemapToContents] returns the records of the sources
    whose embedded content is present and non-empty: one [{id, code}] per
    such entry of the [sources] list, with [id] the source and [code] its
    content, in the order of that list; a source without content is left
    out and raises nothing (the promise is rejected only when the document
    itself does not parse). *)
Theorem convertSourcemapToContents_records
    (SourceMapConsumer_new : string -> option Consumer)
    (rawSourceMap : string) :
  convertSourcemapToContents SourceMapConsumer_new rawSourceMap
  = match SourceMapConsumer_new rawSourceMap with
    | Some consumer => Resolved (Spec.contents consumer)
    | None => Rejected
    end
  /\ forall consumer,
       map id (Spec.contents consumer)
       = filter (has_content consumer) (sources consumer)
       /\ Forall (fun r => sourceContentFor consumer (id r) = Some (code r)
                           /\ code r <> EmptyString)
            (Spec.contents consumer).
Proof.
  split.
  - unfold convertSourcemapToContents.
    destruct (SourceMapConsumer_new rawSourceMap) as [consumer|];
      [|reflexivity].
    f_equal. unfold Spec.contents. rewrite flat_map_concat_map.
    rewrite <- (app_nil_l (List.concat _)).
    rewrite <- (fold_left_append (Spec.embedded consumer)).
    apply fold_left_ext. intros acc src. unfold Spec.embedded.
    destruct (sourceContentFor consumer src) as [s|];
      [|now rewrite app_nil_r].
    destruct (truthy s); [reflexivity | now rewrite app_nil_r].
  - intros consumer. unfold Spec.contents, has_content. split.
    + induction (sources consumer) as [|src l IH]; [reflexivity|].
      cbn [flat_map filter]. rewrite map_app, IH. unfold Spec.embedded.
      destruct (sourceContentFor consumer src) as [s|]; [|reflexivity].
      destruct (truthy s); reflexivity.
    + apply Forall_flat_map, Forall_forall. intros src _.
      unfold Spec.embedded.
      destruct (sourceContentFor consumer src) as [s|] eqn:Hs;
        [|constructor].
      destruct (truthy s) eqn:Ht; constructor; [|constructor].
      simpl. split; [assumption|]. intros ->. discriminate.
Qed.

(** The range of one entry, case by case (lines 61-69): to the end of the
    line for an only entry or one without [lastGeneratedColumn]; up to the
    next entry's column when that is [lastGeneratedColumn + 1]; otherwise
    up to, and not including, [lastGeneratedColumn]. *)
Lemma mapping_substring_cases (runes : Str) (mappings : list Loc) (i : nat)
    (cur : Loc) :
  nth_error mappings i = Some cur ->
  mapping_substring runes mappings i
  = match lastGeneratedColumn cur with
    | None => substring runes (generatedColumn cur) None
    | Some last =>
        if (List.length mappings =? 1)%nat
        then substring runes (generatedColumn cur) None
        else
          match nth_error mappings (i + 1) with
          | Some next =>
              if last + 1 =? generatedColumn next
              then substring runes (generatedColumn cur)
                     (Some (generatedColumn next))
              else substring runes (generatedColumn cur) (Some last)
          | None => substring runes (generatedColumn cur) (Some last)
          end
    end.
Proof.
  intros Hcur. unfold mapping_substring. rewrite Hcur.
  destruct (lastGeneratedColumn cur) as [last|]; cbn [is_null].
  2:{ now rewrite orb_true_r. }
  rewrite orb_false_r.
  destruct (List.length mappings =? 1)%nat; [reflexivity|].
  destruct (List.length mappings <=? i + 1)%nat eqn:Hcap.
  - apply Nat.leb_le in Hcap.
    rewrite (proj2 (nth_error_None mappings (i + 1)) Hcap). reflexivity.
  - unfold end_column.
    destruct (nth_error mappings (i + 1)) as [next|]; [|reflexivity].
    now destruct (last + 1 =? generatedColumn next).
Qed.

(** [substring(a, b)] for [0 <= a <= b] holds the code units at the
    indices [a .. b - 1]. *)
Lemma substring_range (s : Str) (a b : Z) :
  0 <= a <= b ->
  substring s a (Some b)
  = let len := Z.of_nat (List.length s) in
    firstn (Z.to_nat (Z.min b len - Z.min a len)) (skipn (Z.to_nat a) s).
Proof.
  intros Hab. unfold substring, clamp.
  replace (Z.max a 0) with a by lia. replace (Z.max b 0) with b by lia.
  set (len := Z.of_nat (List.length s)).
  replace (Z.min (Z.min a len) (Z.min b len)) with (Z.min a len) by lia.
  replace (Z.max (Z.min a len) (Z.min b len)) with (Z.min b len) by lia.
  destruct (Z.le_gt_cases a len) as [Hle | Hgt].
  - now replace (Z.min a len) with a by lia.
  - rewrite !skipn_all2 by (unfold len in *; lia). now rewrite !firstn_nil.
Qed.

(** C1, on the code: for the line ["abcdefghij"] with the entries
    A (column 0, last column 4) and B (column 5, last column 9) of one
    module, the reconstruction gives ["abcde"] for A but ["fghi"] for B:
    the character at column 9 is missing from B and from the module's
    text. *)
Theorem adjacent_entries_reconstruction :
  let runes := TextDecoder.decode Sample.code in
  mapping_substring runes [Sample.A; Sample.B] 0 = lit "abcde"
  /\ mapping_substring runes [Sample.A; Sample.B] 1 = lit "fghi"
  /\ getSourceMappings (Sample.parse [Sample.A; Sample.B]) Sample.code
       EmptyString Sample.formatter
     = Resolved [("src/a.ts"%string, lit "abcdefghi")].
Proof. repeat split. Qed.

(** C2, on the code: when the next entry does not start at
    [lastGeneratedColumn + 1], the range of an entry stops before the
    character at [lastGeneratedColumn]: for C (column 0, last column 2)
    followed by D (column 5) on ["abcdefghij"] the substring of C is
    ["ab"], without the character at index 2. *)
Theorem gap_entry_reconstruction :
  let runes := TextDecoder.decode Sample.code in
  mapping_substring runes [Sample.C; Sample.D] 0 = lit "ab"
  /\ mapping_substring runes [Sample.C; Sample.D] 0
     <> substring runes 0 (Some (2 + 1))
  /\ mapping_substring runes [Sample.C; Sample.D] 1 = lit "fghij".
Proof. repeat split. discriminate. Qed.

(** C3. A module without mapping entries gets no reconstructed text and no
    bytes: the reconstruction of an empty entry list is the empty string,
    the loop over [mappingWithId] leaves [hints] alone for an id whose
    array is empty, and the record returned by [getSourceMappings] has no
    key for a module to which the document attributes no entry. *)
Theorem module_without_entries_has_no_hint
    (SourceMapConsumer_new : string -> option Consumer)
    (code : Uint8Array) (rawSourceMap : string)
    (formatter : string -> string) (consumer : Consumer)
    (hints : Obj string Str) (id : string) :
  SourceMapConsumer_new rawSourceMap = Some consumer ->
  getSourceMappings SourceMapConsumer_new code rawSourceMap formatter
  = Resolved hints ->
  entries_of formatter id consumer = [] ->
  getStringFromSerializeMappings (splitBytesByNewLine code)
    (entries_of formatter id consumer) = []
  /\ (forall o h, group_of o id = [] ->
        attribute (splitBytesByNewLine code) o h id = h)
  /\ get hints id = None
  /\ ~ In id (map fst hints)
  /\ ~ In id (for_in hints).
Proof.
  intros Hc Hrun Hnone.
  rewrite (getSourceMappings_resolved _ _ _ _ _ Hc) in Hrun.
  inversion Hrun; subst hints; clear Hrun.
  assert (Hget : get (fold_left
                        (attribute (splitBytesByNewLine code)
                           (mappingWithId formatter consumer))
                        (for_in (mappingWithId formatter consumer)) []) id
                 = None).
  { rewrite hints_get. now rewrite Hnone. }
  split; [now rewrite Hnone|].
  split.
  { intros o h Hg. unfold attribute. fold (group_of o id).
    rewrite sort_column_length, Hg. reflexivity. }
  split; [assumption|].
  split.
  - now apply get_None_keys.
  - rewrite for_in_In. now apply get_None_keys.
Qed.

Lemma module_without_entries_has_no_hint_witness :
  get [("src/a.ts"%string, lit "abcdefghijkl"); ("src/b.ts"%string, lit "ef")]
    "src/c.ts"%string = None.
Proof.
  apply (module_without_entries_has_no_hint
           (Sample.parse Sample.scattered) Sample.two_lines EmptyString
           Sample.formatter (Sample.document Sample.scattered)
           [("src/a.ts"%string, lit "abcdefghijkl");
            ("src/b.ts"%string, lit "ef")]
           "src/c.ts"%string);
    reflexivity.
Defined.

(** C4. An entry whose [generatedLine] lies beyond the last line of the
    artifact is passed over: the reconstruction is a total function (it
    raises nothing), leaving out one such entry, or all of them, does not
    change the text, so the entries on existing lines are reconstructed as
    if the others were absent; when every entry is beyond the last line
    the text is empty. *)
Theorem missing_generated_line_skipped (bytes : list Uint8Array) :
  (forall mappings,
     getStringFromSerializeMappings bytes
       (filter (fun m => generatedLine m <=? Z.of_nat (List.length bytes))
          mappings)
     = getStringFromSerializeMappings bytes mappings)
  /\ (forall before m after,
        Z.of_nat (List.length bytes) < generatedLine m ->
        getStringFromSerializeMappings bytes (before ++ m :: after)
        = getStringFromSerializeMappings bytes (before ++ after))
  /\ (forall mappings,
        Forall (fun m => Z.of_nat (List.length bytes) < generatedLine m)
          mappings ->
        getStringFromSerializeMappings bytes mappings = []).
Proof.
  assert (Hall : forall mappings,
    getStringFromSerializeMappings bytes
      (filter (fun m => generatedLine m <=? Z.of_nat (List.length bytes))
         mappings)
    = getStringFromSerializeMappings bytes mappings).
  { intros mappings.
    apply (getString_drop_lines
             (fun line => line <=? Z.of_nat (List.length bytes))).
    intros line Hl. apply Z.leb_gt in Hl. unfold line_exists.
    apply andb_false_iff. right. apply Z.leb_gt. lia. }
  split; [exact Hall|]. split.
  - intros before m after Hm.
    set (keep := fun line => negb (line =? generatedLine m)).
    assert (Hkeep : forall line,
              keep line = false -> line_exists bytes line = false).
    { intros line Hl. unfold keep in Hl. apply negb_false_iff in Hl.
      apply Z.eqb_eq in Hl. subst line. unfold line_exists.
      apply andb_false_iff. right. apply Z.leb_gt. lia. }
    rewrite <- (getString_drop_lines keep bytes (before ++ m :: after) Hkeep).
    rewrite <- (getString_drop_lines keep bytes (before ++ after) Hkeep).
    f_equal. rewrite !filter_app. cbn [filter]. unfold keep at 2.
    now rewrite Z.eqb_refl.
  - intros mappings Hbeyond. rewrite <- Hall.
    replace (filter _ mappings) with (@nil Loc); [reflexivity|].
    symmetry. induction Hbeyond as [|m l Hm _ IH]; [reflexivity|].
    simpl. rewrite IH. apply Z.leb_gt in Hm. now rewrite Hm.
Qed.

Lemma missing_generated_line_skipped_witness :
  getStringFromSerializeMappings (splitBytesByNewLine Sample.two_lines)
    ([Sample.entry (Some "src/a.ts"%string) 1 0 (Some 1)]
       ++ Sample.entry (Some "src/a.ts"%string) 7 0 None
       :: [Sample.entry (Some "src/a.ts"%string) 2 0 (Some 2);
           Sample.entry (Some "src/a.ts"%string) 2 3 None])
  = lit "abcdefghijkl"
  /\ getStringFromSerializeMappings (splitBytesByNewLine Sample.two_lines)
       [Sample.entry (Some "src/a.ts"%string) 7 0 None] = [].
Proof.
  split.
  - rewrite (proj1 (proj2 (missing_generated_line_skipped
                             (splitBytesByNewLine Sample.two_lines)))).
    + reflexivity.
    + vm_compute. reflexivity.
  - apply (proj2 (proj2 (missing_generated_line_skipped
                           (splitBytesByNewLine Sample.two_lines)))).
    repeat constructor.
Defined.

(** C5. A mapping without an original source (its [source] is [null] or
    empty) is dropped by the decoder: every entry filed under a module id
    has a source, formatted to that id; the decoder's output and the
    record of [getSourceMappings] are the same as for the document with
    the source-less mappings taken out. *)
Theorem sourceless_mappings_dropped
    (SourceMapConsumer_new : string -> option Consumer)
    (code : Uint8Array) (rawSourceMap : string)
    (formatter : string -> string) :
  (forall consumer id group m,
     In (id, group) (mappingWithId formatter consumer) -> In m group ->
     has_source m = true /\ module_of formatter m = Some id)
  /\ (forall consumer,
        mappingWithId formatter (without_sourceless consumer)
        = mappingWithId formatter consumer)
  /\ getSourceMappings
       (fun raw => option_map without_sourceless (SourceMapConsumer_new raw))
       code rawSourceMap formatter
     = getSourceMappings SourceMapConsumer_new code rawSourceMap formatter.
Proof.
  split; [|split].
  - intros consumer id group m Hin Hm.
    rewrite mappingWithId_group in Hin.
    apply In_get in Hin; [|apply group_by_NoDup].
    rewrite group_by_get in Hin.
    destruct (filter _ _) as [|x g] eqn:Hf; [discriminate|].
    inversion Hin; subst group; clear Hin. rewrite <- Hf in Hm.
    apply filter_In in Hm. destruct Hm as [_ Hk]. unfold keyed in Hk.
    destruct (module_of formatter m) as [id'|] eqn:Hmod; [|discriminate].
    apply key_eqb_eq in Hk. subst id'.
    split; [now apply (module_of_has_source formatter m id) | reflexivity].
  - apply mappingWithId_without_sourceless.
  - unfold getSourceMappings.
    destruct (SourceMapConsumer_new rawSourceMap) as [consumer|];
      [|reflexivity].
    cbn [option_map]. now rewrite mappingWithId_without_sourceless.
Qed.

Lemma sourceless_mappings_dropped_witness :
  has_source (Sample.entry (Some "src/b.ts"%string) 1 4 (Some 5)) = true.
Proof.
  apply (proj1 (sourceless_mappings_dropped
                  (Sample.parse Sample.scattered) Sample.two_lines
                  EmptyString Sample.formatter)
           (Sample.document Sample.scattered) "src/b.ts"%string
           [Sample.entry (Some "src/b.ts"%string) 1 4 (Some 5)]
           (Sample.entry (Some "src/b.ts"%string) 1 4 (Some 5))).
  - vm_compute. right. left. reflexivity.
  - left. reflexivity.
Defined.

(** C6. The text of a module is the concatenation of its entries'
    substrings in line-then-column order, whatever the order of the
    entries in the document: the generated lines are walked in ascending
    order and, on each line, the entries by ascending generated column
    (the decoder's sequence, sorted by generated column before the
    reconstruction, is sorted within every line); with at most one entry
    per generated position, a document that lists the same entries in
    another order gives the same text. *)
Theorem reconstruction_in_line_then_column_order
    (SourceMapConsumer_new : string -> option Consumer)
    (code : Uint8Array) (rawSourceMap : string)
    (formatter : string -> string) (consumer : Consumer)
    (hints : Obj string Str) (id : string) (text : Str) :
  Z.of_nat (List.length (splitBytesByNewLine code)) <= max_array_index ->
  SourceMapConsumer_new rawSourceMap = Some consumer ->
  getSourceMappings SourceMapConsumer_new code rawSourceMap formatter
  = Resolved hints ->
  get hints id = Some text ->
  let entries := entries_of formatter id consumer in
  text = Spec.line_then_column_text (splitBytesByNewLine code) entries
  /\ StronglySorted Z.lt (Spec.lines_ascending entries)
  /\ (forall line,
        StronglySorted column_le (Spec.entries_on_line entries line)
        /\ Permutation (Spec.entries_on_line entries line)
             (filter (on_line line) entries)
        /\ Spec.entries_on_line entries line
           = filter (on_line line) (sort by_generatedColumn entries))
  /\ text = getStringFromSerializeMappings (splitBytesByNewLine code)
              (sort by_generatedColumn entries)
  /\ (forall entries',
        Permutation entries entries' -> NoDup (map position entries) ->
        text
        = Spec.line_then_column_text (splitBytesByNewLine code) entries').
Proof.
  intros Hlen Hc Hrun Hget entries.
  destruct (hint_text _ _ _ _ _ _ _ _ Hc Hrun Hget) as [_ Htext].
  fold entries in Htext.
  assert (Hspec : text = Spec.line_then_column_text
                           (splitBytesByNewLine code) entries).
  { rewrite Htext. now apply getString_line_then_column. }
  split; [exact Hspec|]. split; [|split; [|split]].
  - apply lines_ascending_sorted.
  - intros line. unfold Spec.entries_on_line. split; [|split].
    + apply sort_column_sorted.
    + apply sort_column_perm.
    + symmetry. apply sort_column_filter.
  - exact Htext.
  - intros entries' Hperm Hnd. rewrite Hspec.
    now apply line_then_column_perm.
Qed.

Lemma reconstruction_in_line_then_column_order_witness :
  lit "abcdefghijkl"
  = Spec.line_then_column_text (splitBytesByNewLine Sample.two_lines)
      (entries_of Sample.formatter "src/a.ts"
         (Sample.document Sample.scattered))
  /\ lit "abcdefghijkl"
     = Spec.line_then_column_text (splitBytesByNewLine Sample.two_lines)
         (rev (entries_of Sample.formatter "src/a.ts"
                 (Sample.document Sample.scattered))).
Proof.
  destruct (reconstruction_in_line_then_column_order
              (Sample.parse Sample.scattered) Sample.two_lines EmptyString
              Sample.formatter (Sample.document Sample.scattered)
              [("src/a.ts"%string, lit "abcdefghijkl");
               ("src/b.ts"%string, lit "ef")]
              "src/a.ts"%string (lit "abcdefghijkl"))
    as (Htext & _ & _ & _ & Horder).
  - vm_compute. discriminate.
  - reflexivity.
  - reflexivity.
  - reflexivity.
  - split; [exact Htext|]. apply Horder.
    + apply Permutation_rev.
    + vm_compute. repeat constructor; simpl; intuition discriminate.
Defined.

(* ================================================================== *)
(** ** [closeBundle]: where the report goes                             *)
(* ================================================================== *)

Section ReportFacts.
Import Server.
Local Open Scope string_scope.

Lemma append_cancel_l (a x y : string) : a ++ x = a ++ y -> x = y.
Proof.
  induction a as [|c a IH]; simpl; intros Heq; [assumption|].
  inversion Heq. now apply IH.
Qed.

Lemma append_length (a b : string) :
  String.length (a ++ b) = (String.length a + String.length b)%nat.
Proof. induction a as [|c a IH]; simpl; [reflexivity | now rewrite IH]. Qed.

Lemma append_cancel_r (x y t : string) : x ++ t = y ++ t -> x = y.
Proof.
  revert y; induction x as [|c x IH]; intros [|d y] Heq; simpl in *.
  - reflexivity.
  - apply (f_equal String.length) in Heq. simpl in Heq.
    rewrite append_length in Heq. lia.
  - apply (f_equal String.length) in Heq. simpl in Heq.
    rewrite append_length in Heq. lia.
  - inversion Heq. f_equal. now apply IH.
Qed.

Lemma ToString_inj (n m : Z) : ToString n = ToString m -> n = m.
Proof.
  unfold ToString. intros Heq. apply DecimalZ.to_int_inj.
  apply (f_equal NilEmpty.int_of_string) in Heq.
  rewrite !NilEmpty.isi in Heq. now inversion Heq.
Qed.

Lemma base_name_not_counter_name (opts : AnalyzerPluginOptions) (n : Z) :
  base_name opts <> counter_name opts n.
Proof.
  unfold base_name, counter_name. intros Heq.
  apply append_cancel_l in Heq. discriminate.
Qed.

Lemma counter_name_inj (opts : AnalyzerPluginOptions) (n m : Z) :
  counter_name opts n = counter_name opts m -> n = m.
Proof.
  unfold counter_name. intros Heq.
  apply append_cancel_l in Heq. apply (append_cancel_l "-") in Heq.
  apply append_cancel_r in Heq. now apply ToString_inj.
Qed.

Lemma read_write_same (files : list (string * string)) (p data : string) :
  read (write files p data) p = Some data.
Proof.
  induction files as [|[q old] files IH]; simpl.
  - now rewrite String.eqb_refl.
  - destruct (String.eqb q p) eqn:E; simpl; now rewrite E.
Qed.

Lemma read_write_other (files : list (string * string)) (p q data : string) :
  q <> p -> read (write files p data) q = read files q.
Proof.
  intros Hne. induction files as [|[r old] files IH]; simpl.
  - destruct (String.eqb p q) eqn:E; [|reflexivity].
    apply String.eqb_eq in E. congruence.
  - destruct (String.eqb r p) eqn:E; simpl.
    + apply String.eqb_eq in E. subst r.
      destruct (String.eqb p q) eqn:E'; [|reflexivity].
      apply String.eqb_eq in E'. congruence.
    + now rewrite IH.
Qed.

Variable path_join : string -> string -> string.
Variable defaultWd : string.

(** Every run of [closeBundle] raises [callCount] by one. *)
Lemma closeBundle_callCount (opts : AnalyzerPluginOptions)
    (report_json html : string) (w : Process) :
  callCount (closeBundle path_join defaultWd opts report_json html w)
  = callCount w + 1.
Proof.
  unfold closeBundle, preferSilent, preferLivingServer, living_server,
    writeFile, bump, createServer.
  destruct (analyzerMode opts); destruct (openAnalyzer opts) as [[|]|];
    simpl; lia.
Qed.

Lemma runs_callCount (builds : list Build) (w : Process) :
  callCount (runs path_join defaultWd builds w)
  = callCount w + Z.of_nat (List.length builds).
Proof.
  unfold runs. revert w; induction builds as [|b builds IH]; intros w.
  - simpl. lia.
  - cbn [fold_left List.length]. rewrite IH. unfold run.
    rewrite closeBundle_callCount. lia.
Qed.

(** A report-producing run writes one file, at [report_path]. *)
Lemma closeBundle_disk (opts : AnalyzerPluginOptions)
    (report_json html : string) (w : Process) :
  preferSilent opts = true ->
  disk (closeBundle path_join defaultWd opts report_json html w)
  = write (disk w) (report_path path_join defaultWd opts (bump 1 w))
      (report_text opts report_json html).
Proof.
  unfold closeBundle, report_text, preferSilent, preferLivingServer,
    living_server, writeFile, createServer.
  destruct (analyzerMode opts) eqn:Hm; intros Hs; try discriminate;
    destruct (openAnalyzer opts) as [[|]|]; reflexivity.
Qed.
Lemma closeBundle_disk_server (opts : AnalyzerPluginOptions)
    (report_json html : string) (w : Process) :
  preferSilent opts = false ->
  disk (closeBundle path_join defaultWd opts report_json html w) = disk w.
Proof.
  unfold closeBundle, preferSilent, preferLivingServer, living_server,
    createServer.
  destruct (analyzerMode opts); intros Hs; try discriminate. reflexivity.
Qed.

Lemma exists_write_same (files : list (string * string)) (p data : string) :
  existsb (fun f => String.eqb (fst f) p) (write files p data) = true.
Proof.
  induction files as [|[q old] files IH]; simpl.
  - now rewrite String.eqb_refl.
  - destruct (String.eqb q p) eqn:E; simpl; rewrite E; [reflexivity|].
    exact IH.
Qed.

Lemma exists_write_mono (files : list (string * string)) (p q data : string) :
  existsb (fun f => String.eqb (fst f) q) files = true ->
  existsb (fun f => String.eqb (fst f) q) (write files p data) = true.
Proof.
  induction files as [|[r old] files IH]; simpl; [discriminate|].
  destruct (String.eqb r p) eqn:E; simpl; [trivial|].
  destruct (String.eqb r q); [reflexivity | exact IH].
Qed.

(** Files are created and rewritten, never removed. *)
Lemma closeBundle_exists_mono (opts : AnalyzerPluginOptions)
    (report_json html : string) (w : Process) (q : string) :
  existsSync w q = true ->
  existsSync (closeBundle path_join defaultWd opts report_json html w) q
  = true.
Proof.
  unfold existsSync. intros Hq.
  destruct (preferSilent opts) eqn:Hs.
  - rewrite (closeBundle_disk _ _ _ _ Hs). now apply exists_write_mono.
  - now rewrite (closeBundle_disk_server _ _ _ _ Hs).
Qed.

Lemma runs_exists_mono (builds : list Build) (w : Process) (q : string) :
  existsSync w q = true ->
  existsSync (runs path_join defaultWd builds w) q = true.
Proof.
  unfold runs. revert w; induction builds as [|b builds IH]; intros w Hq;
    [assumption|].
  cbn [fold_left]. apply IH. unfold run. now apply closeBundle_exists_mono.
Qed.
End ReportFacts.

(** C9, as stated, fails: after two builds in two processes the directory
    holds [stats.json] and [stats-1.json]; the json report of a third
    process is written to [stats-1.json] again and replaces the report of
    the second. *)
Lemma suffixed_report_overwritten :
  let after :=
    Server.closeBundle Sample.join "dist" Sample.json_options
      "third report" EmptyString Sample.fresh_process in
  Server.read (Server.disk Sample.fresh_process) "dist/stats-1.json"
  = Some "second report"%string
  /\ Server.read (Server.disk after) "dist/stats-1.json"
     = Some "third report"%string
  /\ ~ keeps_existing_reports Sample.join "dist" Sample.json_options
        "third report" EmptyString Sample.fresh_process.
Proof.
  split; [reflexivity|]. split; [reflexivity|].
  intros Hkeep.
  specialize (Hkeep "stats-1.json"%string "second report"%string
                (or_intror (ex_intro _ 1 eq_refl)) eq_refl).
  vm_compute in Hkeep. discriminate.
Qed.

(** C9, amended. A json or static report is written to
    [<outputName>.json] or [<outputName>.html]; when a file of that exact
    name exists, it is written to [<outputName>-<n>.<ext>] instead, where
    [n] is the per-process counter, which every run raises by one.  The
    run changes no other file, so the existing [<outputName>.<ext>] is
    kept, and no later run of the same process with the same options
    writes to the path this run wrote to.  The suffixed path is not looked
    up before it is written. *)
Theorem closeBundle_report_naming
    (path_join : string -> string -> string) (defaultWd : string)
    (opts : Server.AnalyzerPluginOptions) (report_json html : string)
    (w : Server.Process) :
  Server.preferSilent opts = true ->
  (forall a b, report_name opts a -> report_name opts b ->
     path_join defaultWd a = path_join defaultWd b -> a = b) ->
  let base := path_join defaultWd (base_name opts) in
  let p := if Server.existsSync w base
           then path_join defaultWd
                  (counter_name opts (Server.callCount w + 1))
           else base in
  let w' := Server.closeBundle path_join defaultWd opts report_json html w in
  Server.disk w'
  = Server.write (Server.disk w) p (report_text opts report_json html)
  /\ Server.read (Server.disk w') p
     = Some (report_text opts report_json html)
  /\ Server.callCount w' = Server.callCount w + 1
  /\ (forall builds,
        Server.callCount (Server.runs path_join defaultWd builds w)
        = Server.callCount w + Z.of_nat (List.length builds))
  /\ (forall q, q <> p ->
        Server.read (Server.disk w') q = Server.read (Server.disk w) q)
  /\ (Server.existsSync w base = true ->
        Server.read (Server.disk w') base = Server.read (Server.disk w) base)
  /\ (forall builds report_json2 html2,
        let w2 := Server.runs path_join defaultWd builds w' in
        Server.read
          (Server.disk
             (Server.closeBundle path_join defaultWd opts report_json2 html2
                w2)) p
        = Server.read (Server.disk w2) p).
Proof.
  intros Hs Hjoin base p w'.
  assert (Hdisk : Server.disk w'
                  = Server.write (Server.disk w) p
                      (report_text opts report_json html)).
  { unfold w'. rewrite (closeBundle_disk _ _ _ _ _ _ Hs). reflexivity. }
  assert (Hbase : report_name opts (base_name opts)) by now left.
  assert (Hcnt : forall n, report_name opts (counter_name opts n))
    by (intros n; right; now exists n).
  split; [exact Hdisk|].
  split; [rewrite Hdisk; apply read_write_same|].
  split; [apply closeBundle_callCount|].
  split; [intros builds; apply runs_callCount|].
  split; [intros q Hq; rewrite Hdisk; now apply read_write_other|].
  split.
  - intros Hex. rewrite Hdisk. apply read_write_other.
    unfold p. rewrite Hex. intros Heq.
    apply (Hjoin _ _ Hbase (Hcnt _)) in Heq.
    now apply base_name_not_counter_name in Heq.
  - intros builds report_json2 html2 w2.
    rewrite (closeBundle_disk _ _ _ _ _ _ Hs).
    apply read_write_other.
    assert (Hcount : Server.callCount w2
                     = Server.callCount w + 1
                       + Z.of_nat (List.length builds)).
    { unfold w2. rewrite runs_callCount. unfold w'.
      now rewrite closeBundle_callCount. }
    assert (Hex2 : Server.existsSync w2 base = true).
    { unfold w2. apply runs_exists_mono.
      destruct (Server.existsSync w base) eqn:Hex.
      - unfold w'. now apply closeBundle_exists_mono.
      - unfold Server.existsSync. rewrite Hdisk.
        exact (exists_write_same (Server.disk w) base _). }
    unfold Server.report_path.
    change (Server.existsSync (Server.bump 1 w2)
              (path_join defaultWd
                 (Server.output opts ++ "." ++ Server.extension opts)%string))
      with (Server.existsSync w2 base).
    rewrite Hex2.
    change (path_join defaultWd _)
      with (path_join defaultWd
              (counter_name opts (Server.callCount w2 + 1))).
    intros Heq. unfold p in Heq.
    destruct (Server.existsSync w base).
    + apply (Hjoin _ _ (Hcnt _) (Hcnt _)) in Heq.
      apply counter_name_inj in Heq. lia.
    + apply (Hjoin _ _ (Hbase) (Hcnt _)) in Heq.
      now apply base_name_not_counter_name in Heq.
Qed.

Lemma closeBundle_report_naming_witness :
  Server.disk
    (Server.closeBundle Sample.join "dist" Sample.json_options
       "third report" EmptyString Sample.fresh_process)
  = Server.write (Server.disk Sample.fresh_process) "dist/stats-1.json"
      "third report"
  /\ Server.read
       (Server.disk
          (Server.closeBundle Sample.join "dist" Sample.json_options
             "third report" EmptyString Sample.fresh_process))
       "dist/stats.json"
     = Some "first report"%string.
Proof.
  assert (Hjoin : forall a b : string,
            report_name Sample.json_options a ->
            report_name Sample.json_options b ->
            Sample.join "dist" a = Sample.join "dist" b -> a = b).
  { intros a b _ _ Heq. unfold Sample.join in Heq.
    apply append_cancel_l in Heq. now apply (append_cancel_l "/") in Heq. }
  destruct (closeBundle_report_naming Sample.join "dist" Sample.json_options
              "third report" EmptyString Sample.fresh_process
              eq_refl Hjoin) as (Hdisk & _ & _ & _ & _ & Hbase & _).
  split; [exact Hdisk | exact (Hbase eq_refl)].
Defined.

(* ================================================================== *)
(** ** More on [splitBytesByNewLine]: lines in, lines out               *)
(* ================================================================== *)

Lemma no_LF_cut (a a' x x' : Uint8Array) :
  no_LF a -> no_LF a' -> a ++ LF :: x = a' ++ LF :: x' -> a = a' /\ x = x'.
Proof.
  intros Ha; revert a'. induction Ha as [|b a Hb _ IH]; intros a' Ha' Heq.
  - destruct a' as [|b' a']; simpl in Heq.
    + inversion Heq. now split.
    + inversion Heq; subst b'. inversion Ha' as [|? ? Hb' _]; subst.
      now contradiction Hb'.
  - destruct a' as [|b' a']; simpl in Heq.
    + inversion Heq; subst b. now contradiction Hb.
    + inversion Heq; subst b'. inversion Ha' as [|? ? _ Ha'']; subst.
      destruct (IH a' Ha'' H1) as [-> ->]. now split.
Qed.

Lemma no_LF_whole (t a x : Uint8Array) : no_LF t -> t <> a ++ LF :: x.
Proof.
  intros Ht Heq. subst t. apply Forall_app in Ht. destruct Ht as [_ Ht].
  inversion Ht as [|? ? Hb _]; subst. now apply Hb.
Qed.

(** The segments and the open rest of a byte sequence are unique. *)
Lemma terminated_inj (r r' : list Uint8Array) (t t' : Uint8Array) :
  Forall no_LF r -> Forall no_LF r' -> no_LF t -> no_LF t' ->
  terminated r ++ t = terminated r' ++ t' -> r = r' /\ t = t'.
Proof.
  intros Hr; revert r'. induction Hr as [|a r Ha _ IH];
    intros r' Hr' Ht Ht' Heq.
  - destruct Hr' as [|a' r' Ha' Hr'].
    + simpl in Heq. now split.
    + exfalso. unfold terminated in Heq. cbn [map List.concat app] in Heq.
      rewrite <- !app_assoc in Heq. cbn [app] in Heq.
      exact (no_LF_whole _ _ _ Ht Heq).
  - destruct Hr' as [|a' r' Ha' Hr'].
    + exfalso. unfold terminated in Heq. cbn [map List.concat app] in Heq.
      rewrite <- !app_assoc in Heq. cbn [app] in Heq.
      symmetry in Heq. exact (no_LF_whole _ _ _ Ht' Heq).
    + unfold terminated in Heq. cbn [map List.concat] in Heq.
      rewrite <- !app_assoc in Heq. cbn [app] in Heq.
      destruct (no_LF_cut _ _ _ _ Ha Ha' Heq) as [-> Hrest].
      destruct (IH r' Hr' Ht Ht' Hrest) as [-> ->]. now split.
Qed.

Lemma split_of_segments (r : list Uint8Array) (t : Uint8Array) :
  Forall no_LF r -> no_LF t ->
  splitBytesByNewLine (terminated r ++ t)
  = r ++ match t with [] => [] | _ => [t] end.
Proof.
  intros Hr Ht.
  destruct (split_shape (terminated r ++ t))
    as (result & Hres & [[Hs Hb] | (last & Hne & Hlast & Hs & Hb)]).
  - rewrite <- (app_nil_r (terminated result)) in Hb.
    destruct (terminated_inj _ _ _ _ Hr Hres Ht (Forall_nil _) Hb)
      as [-> ->].
    now rewrite Hs, app_nil_r.
  - destruct (terminated_inj _ _ _ _ Hr Hres Ht Hlast Hb) as [-> ->].
    rewrite Hs. now destruct last.
Qed.

(** Every byte sequence is a list of closed segments and an open rest. *)
Lemma split_decompose (bytes : Uint8Array) :
  exists r t, Forall no_LF r /\ no_LF t /\ bytes = terminated r ++ t
              /\ splitBytesByNewLine bytes
                 = r ++ match t with [] => [] | _ => [t] end.
Proof.
  destruct (split_shape bytes)
    as (result & Hres & [[Hs Hb] | (last & Hne & Hlast & Hs & Hb)]).
  - exists result, []. repeat split; try assumption; [constructor | |].
    + now rewrite app_nil_r.
    + now rewrite app_nil_r.
  - exists result, last. repeat split; try assumption.
    rewrite Hs. now destruct last.
Qed.

Lemma terminated_app (r r' : list Uint8Array) :
  terminated (r ++ r') = terminated r ++ terminated r'.
Proof. unfold terminated. now rewrite map_app, concat_app. Qed.

(** X1. Splitting undoes joining: for segments without 0x0A, the split of
    the segments each closed by 0x0A is the list of segments, and an
    unfinished last segment comes back as one more element if and only if
    it is not empty. *)
Theorem splitBytesByNewLine_of_lines (segments : list Uint8Array)
    (rest : Uint8Array) :
  Forall no_LF segments -> no_LF rest ->
  splitBytesByNewLine (terminated segments) = segments
  /\ splitBytesByNewLine (terminated segments ++ rest)
     = segments ++ match rest with [] => [] | _ => [rest] end
  /\ (rest <> [] ->
        splitBytesByNewLine (Spec.join_lines (segments ++ [rest]))
        = segments ++ [rest]).
Proof.
  intros Hsegs Hrest. split; [|split].
  - rewrite <- (app_nil_r (terminated segments)).
    rewrite (split_of_segments segments [] Hsegs (Forall_nil _)).
    apply app_nil_r.
  - now apply split_of_segments.
  - intros Hne. rewrite join_lines_snoc, (split_of_segments _ _ Hsegs Hrest).
    now destruct rest.
Qed.

Lemma splitBytesByNewLine_of_lines_witness :
  splitBytesByNewLine
    (terminated [Sample.bytes_of "ab"; []; Sample.bytes_of "c"]
       ++ Sample.bytes_of "de")
  = [Sample.bytes_of "ab"; []; Sample.bytes_of "c"; Sample.bytes_of "de"].
Proof.
  apply (proj1 (proj2 (splitBytesByNewLine_of_lines
                         [Sample.bytes_of "ab"; []; Sample.bytes_of "c"]
                         (Sample.bytes_of "de")
                         ltac:(repeat constructor; discriminate)
                         ltac:(repeat constructor; discriminate)))).
Defined.

(** X2. Splitting distributes over concatenation at a line end: when the
    first part is empty or ends with 0x0A, the lines of the whole are the
    lines of the first part followed by the lines of the second; in
    particular a line without 0x0A in front of a line feed is the first
    segment. *)
Theorem splitBytesByNewLine_app (first second : Uint8Array) :
  (first = [] \/ Spec.ends_with_LF first = true) ->
  splitBytesByNewLine (first ++ second)
  = splitBytesByNewLine first ++ splitBytesByNewLine second.
Proof.
  intros Hend.
  destruct (split_decompose second) as (r2 & t2 & Hr2 & Ht2 & Hb2 & Hs2).
  destruct Hend as [-> | Hend].
  - destruct (split_decompose []) as (r & t & Hr & Ht & Hb & Hs).
    symmetry in Hb. apply app_eq_nil in Hb. destruct Hb as [Hb ->].
    destruct r as [|a r]; [now rewrite Hs|].
    unfold terminated in Hb. simpl in Hb. destruct a; discriminate.
  - pose proof (split_terminated first Hend) as Hb1.
    pose proof (split_no_LF first) as Hr1.
    rewrite Hs2. rewrite Hb1 at 1. rewrite Hb2.
    rewrite app_assoc, <- terminated_app.
    rewrite (split_of_segments _ t2 (proj2 (Forall_app _ _ _) (conj Hr1 Hr2))
               Ht2).
    now rewrite app_assoc.
Qed.

Lemma splitBytesByNewLine_app_witness :
  splitBytesByNewLine (Sample.two_lines ++ Sample.code)
  = splitBytesByNewLine Sample.two_lines ++ [Sample.code].
Proof.
  apply (splitBytesByNewLine_app Sample.two_lines Sample.code).
  right. reflexivity.
Defined.

(* ================================================================== *)
(** ** Grouping keeps every element once                                *)
(* ================================================================== *)

Section GroupPermutation.
Context {A K : Type} `{PropertyKey K}.
Implicit Types (o : Obj K (list A)) (k : K).

Lemma set_absent {V : Type} (o : Obj K V) k (v : V) :
  get o k = None -> set o k v = o ++ [(k, v)].
Proof.
  induction o as [|[k' v'] o IH]; simpl; [reflexivity|].
  destruct (key_eqb k' k); [discriminate|]. intros Hg. now rewrite IH.
Qed.

Lemma concat_set_present o k (arr ys : list A) :
  get o k = Some arr ->
  Permutation (List.concat (map snd (set o k (arr ++ ys))))
    (List.concat (map snd o) ++ ys).
Proof.
  induction o as [|[k' v'] o IH]; simpl; [discriminate|].
  destruct (key_eqb k' k); simpl.
  - intros Hg. inversion Hg; subst v'.
    rewrite <- !app_assoc. apply Permutation_app_head, Permutation_app_comm.
  - intros Hg. rewrite <- app_assoc. apply Permutation_app_head. now apply IH.
Qed.

Lemma push_at_perm o k (x : A) :
  Permutation (List.concat (map snd (push_at o k x)))
    (List.concat (map snd o) ++ [x]).
Proof.
  unfold push_at, has. cbv zeta.
  destruct (get o k) as [arr|] eqn:Hg.
  - rewrite Hg. now apply concat_set_present.
  - rewrite (get_set_same o k []).
    rewrite <- (app_nil_r (List.concat (map snd o))) at 1.
    rewrite (set_absent o k [] Hg).
    etransitivity;
      [apply (concat_set_present (o ++ [(k, [])]) k [] [x])|].
    + rewrite <- (set_absent o k [] Hg). apply get_set_same.
    + rewrite map_app, concat_app. simpl. now rewrite !app_nil_r.
Qed.

Lemma group_fold_perm (key : A -> option K) (l : list A) o :
  Permutation
    (List.concat (map snd (fold_left (group_step key) l o)))
    (List.concat (map snd o) ++ filter (has_key key) l).
Proof.
  revert o; induction l as [|x l IH]; intros o; cbn [fold_left filter].
  - now rewrite app_nil_r.
  - rewrite IH.
    assert (Hstep : Permutation
                      (List.concat (map snd (group_step key o x)))
                      (List.concat (map snd o)
                         ++ if has_key key x then [x] else [])).
    { unfold group_step, has_key.
      destruct (key x); [apply push_at_perm | now rewrite app_nil_r]. }
    rewrite Hstep, <- app_assoc. now destruct (has_key key x).
Qed.

(** Every element with a key is in exactly one group, once. *)
Lemma group_by_perm (key : A -> option K) (l : list A) :
  Permutation (List.concat (map snd (group_by key l)))
    (filter (has_key key) l).
Proof. unfold group_by. now rewrite group_fold_perm. Qed.

Lemma filter_split_perm {B : Type} (f : B -> bool) (l : list B) :
  Permutation (filter f l ++ filter (fun x => negb (f x)) l) l.
Proof.
  induction l as [|x l IH]; simpl; [reflexivity|].
  destruct (f x); simpl.
  - now constructor.
  - rewrite <- Permutation_middle. now constructor.
Qed.

(** [for ... in] visits every own key once. *)
Lemma for_in_perm {V : Type} (o : Obj K V) :
  Permutation (for_in o) (map fst o).
Proof.
  unfold for_in. rewrite index_keys_perm. apply filter_split_perm.
Qed.

Lemma groups_in_for_in_order o :
  NoDup (map fst o) ->
  Permutation (flat_map (group_of o) (for_in o)) (List.concat (map snd o)).
Proof.
  intros Hnd. rewrite (Permutation_flat_map (group_of o) (for_in_perm o)).
  rewrite flat_map_concat_map, map_map.
  replace (map (fun x => group_of o (fst x)) o) with (map snd o);
    [reflexivity|].
  apply map_ext_in. intros [k v] Hin. unfold group_of. simpl.
  now rewrite (In_get o k v Hnd Hin).
Qed.
End GroupPermutation.

(* ================================================================== *)
(** ** More on the decoder and the reconstruction                       *)
(* ================================================================== *)

Lemma has_source_has_key (formatter : string -> string) (m : MappingItem) :
  has_key (module_of formatter) m = has_source m.
Proof.
  unfold has_key, module_of, has_source.
  destruct (source m) as [src|]; [|reflexivity]. now destruct (truthy src).
Qed.

(** X3. The decoder files every mapping that names a source under exactly
    one key, the formatted source, and keeps the order of the document
    within a key: the keys are distinct and are the formatted sources that
    occur; the array under a key is the sub-sequence of the document's
    mappings that format to it (never empty); all arrays together hold the
    mappings with a source, each once. *)
Theorem mappingWithId_partition (formatter : string -> string)
    (consumer : Consumer) :
  let o := mappingWithId formatter consumer in
  let mappings := eachMapping consumer ORIGINAL_ORDER in
  NoDup (map fst o)
  /\ (forall id, In id (map fst o)
                 <-> exists m, In m mappings
                               /\ module_of formatter m = Some id)
  /\ (forall id group, In (id, group) o ->
        group = filter (belongs_to formatter id) mappings /\ group <> [])
  /\ Permutation (List.concat (map snd o)) (filter has_source mappings).
Proof.
  intros o mappings. unfold o. rewrite mappingWithId_group.
  fold mappings. split; [apply group_by_NoDup|].
  split; [intros id; apply group_by_keys|]. split.
  - intros id group Hin.
    apply In_get in Hin; [|apply group_by_NoDup].
    rewrite group_by_get in Hin.
    change (filter (keyed (module_of formatter) id) mappings)
      with (filter (belongs_to formatter id) mappings) in Hin.
    destruct (filter (belongs_to formatter id) mappings) as [|x g];
      [discriminate|].
    inversion Hin. split; [reflexivity | discriminate].
  - rewrite group_by_perm. apply Permutation_refl'.
    apply filter_ext. apply has_source_has_key.
Qed.

Lemma mappingWithId_partition_witness :
  [Sample.entry (Some "src/a.ts"%string) 2 3 None;
   Sample.entry (Some "src/a.ts"%string) 1 0 (Some 1);
   Sample.entry (Some "src/a.ts"%string) 7 0 None;
   Sample.entry (Some "src/a.ts"%string) 2 0 (Some 2)]
  = filter (belongs_to Sample.formatter "src/a.ts")
      (eachMapping (Sample.document Sample.scattered) ORIGINAL_ORDER).
Proof.
  apply (proj1 (proj2 (proj2 (mappingWithId_partition Sample.formatter
                                (Sample.document Sample.scattered))))
           "src/a.ts"%string).
  vm_compute. left. reflexivity.
Defined.

(** X4. The record [getSourceMappings] resolves to has a key for a module
    id exactly when the document attributes at least one mapping to it
    (and the id is not ["__proto__"], which an object literal does not
    store); the value is reconstructed from that module's mappings alone,
    sorted by column, so the mappings of other modules do not change
    it. *)
Theorem getSourceMappings_hints
    (SourceMapConsumer_new : string -> option Consumer)
    (code : Uint8Array) (rawSourceMap : string)
    (formatter : string -> string) (consumer : Consumer) :
  SourceMapConsumer_new rawSourceMap = Some consumer ->
  exists hints,
    getSourceMappings SourceMapConsumer_new code rawSourceMap formatter
    = Resolved hints
    /\ (forall id,
          get hints id
          = match entries_of formatter id consumer with
            | [] => None
            | entries =>
                if String.eqb id "__proto__" then None
                else Some (getStringFromSerializeMappings
                             (splitBytesByNewLine code)
                             (sort by_generatedColumn entries))
            end)
    /\ (forall id consumer',
          entries_of formatter id consumer'
          = entries_of formatter id consumer ->
          get (fold_left
                 (attribute (splitBytesByNewLine code)
                    (mappingWithId formatter consumer'))
                 (for_in (mappingWithId formatter consumer')) []) id
          = get hints id).
Proof.
  intros Hc. eexists.
  split; [exact (getSourceMappings_resolved _ _ _ _ _ Hc)|].
  split.
  - intros id. apply hints_get.
  - intros id consumer' Hsame. rewrite !hints_get. now rewrite Hsame.
Qed.

Lemma getSourceMappings_hints_witness :
  exists hints,
    getSourceMappings (Sample.parse Sample.scattered) Sample.two_lines
      EmptyString Sample.formatter = Resolved hints
    /\ get hints "src/b.ts"%string = Some (lit "ef")
    /\ get hints "src/c.ts"%string = None.
Proof.
  destruct (getSourceMappings_hints (Sample.parse Sample.scattered)
              Sample.two_lines EmptyString Sample.formatter
              (Sample.document Sample.scattered) eq_refl)
    as (hints & Hrun & Hget & _).
  exists hints. split; [exact Hrun|]. split.
  - rewrite (Hget "src/b.ts"%string). reflexivity.
  - rewrite (Hget "src/c.ts"%string). reflexivity.
Defined.

Lemma substring_rest_length (s : Str) (a : Z) :
  Z.of_nat (List.length (substring s a None))
  = Z.of_nat (List.length s) - clamp (Z.of_nat (List.length s)) a.
Proof.
  unfold substring, clamp.
  set (len := Z.of_nat (List.length s)).
  replace (Z.min (Z.min (Z.max a 0) len) len) with (Z.min (Z.max a 0) len)
    by lia.
  replace (Z.max (Z.min (Z.max a 0) len) len) with len by lia.
  rewrite length_firstn, length_skipn. unfold len. lia.
Qed.

Lemma map_by_index {A B : Type} (F : nat -> B) (G : A -> B) (g : list A)
    (a : nat) :
  (forall i m, nth_error g i = Some m -> F (a + i)%nat = G m) ->
  map F (seq a (List.length g)) = map G g.
Proof.
  revert a; induction g as [|x g IH]; intros a HF; [reflexivity|].
  simpl. f_equal.
  - rewrite <- (HF 0%nat x eq_refl). f_equal. lia.
  - apply IH. intros i m Hi.
    rewrite <- (HF (S i) m Hi). f_equal. lia.
Qed.

Lemma line_text_without_last (bytes : list Uint8Array) (line : Z)
    (group : list Loc) :
  Forall (fun m => lastGeneratedColumn m = None /\ generatedLine m = line)
    group ->
  line_text bytes line group = flat_map (rest_of_line bytes) group.
Proof.
  intros Hall. unfold line_text. rewrite flat_map_concat_map.
  destruct (index bytes (line - 1)) as [b|] eqn:Hb.
  - f_equal. apply (map_by_index _ _ group 0). intros i m Hi.
    pose proof (proj1 (Forall_forall _ _) Hall m (nth_error_In _ _ Hi))
      as [Hlast Hline].
    simpl. rewrite (mapping_substring_cases _ _ _ _ Hi), Hlast.
    unfold rest_of_line. now rewrite Hline, Hb.
  - symmetry. apply concat_nil_Forall, Forall_map.
    eapply Forall_impl; [|exact Hall]. intros m [_ Hline].
    unfold rest_of_line. now rewrite Hline, Hb.
Qed.

(** Without the sort: the reconstruction walks the lines the artifact
    has upwards and, on each line, the entries in the order given. *)
Lemma getString_lines_ascending (bytes : list Uint8Array)
    (mappings : list Loc) :
  Z.of_nat (List.length bytes) <= max_array_index ->
  getStringFromSerializeMappings bytes mappings
  = List.concat
      (map (fun line =>
              line_text bytes line (filter (on_line line) mappings))
         (Spec.lines_ascending mappings)).
Proof.
  intros Hlen. rewrite getString_lines.
  set (F := fun line =>
              line_text bytes line (filter (on_line line) mappings)).
  rewrite <- (concat_map_filter F (line_exists bytes)
                (for_in (maapingWithLine _))).
  2:{ intros line _ Hl. now apply line_text_missing. }
  etransitivity;
    [|apply (concat_map_filter F (line_exists bytes));
      intros line _ Hl; now apply line_text_missing].
  do 2 f_equal. apply sorted_lt_unique.
  - apply for_in_lines_sorted; [|assumption].
    rewrite maapingWithLine_group. apply group_by_NoDup.
  - apply sorted_filter, lines_ascending_sorted.
  - intros line. rewrite !filter_In, for_in_In, maapingWithLine_group,
      group_by_keys, lines_ascending_In.
    split; intros [[m [Hm1 Hm2]] Hex]; (split; [|assumption]); exists m.
    + inversion Hm2; subst. now split.
    + split; [assumption|]. unfold line_key. now rewrite Hm1.
Qed.

(** X5. When no mapping carries a [lastGeneratedColumn], every mapping on
    an existing line contributes its line from its column to the end: the
    text is, for the generated lines in ascending order, the rests of the
    line for the mappings on it in the order they are given, one after
    the other.  Its length is the sum of the lengths of these rests, which
    for a column inside the line is (line length - column), however many
    mappings share a line. *)
Theorem reconstruction_without_lastGeneratedColumn
    (bytes : list Uint8Array) (mappings : list Loc) :
  Forall (fun m => lastGeneratedColumn m = None) mappings ->
  Z.of_nat (List.length bytes) <= max_array_index ->
  getStringFromSerializeMappings bytes mappings
  = flat_map (fun line =>
                flat_map (rest_of_line bytes)
                  (filter (on_line line) mappings))
      (Spec.lines_ascending mappings)
  /\ List.length (getStringFromSerializeMappings bytes mappings)
     = list_sum
         (map (fun m => List.length (rest_of_line bytes m)) mappings)
  /\ (forall m b,
        index bytes (generatedLine m - 1) = Some b ->
        0 <= generatedColumn m
             <= Z.of_nat (List.length (TextDecoder.decode b)) ->
        Z.of_nat (List.length (rest_of_line bytes m))
        = Z.of_nat (List.length (TextDecoder.decode b))
          - generatedColumn m).
Proof.
  intros Hnull Hlen.
  assert (Hline : forall line,
            line_text bytes line (filter (on_line line) mappings)
            = flat_map (rest_of_line bytes)
                (filter (on_line line) mappings)).
  { intros line. apply line_text_without_last. apply Forall_forall.
    intros m Hm. apply filter_In in Hm. destruct Hm as [Hm Hl].
    split; [exact (proj1 (Forall_forall _ _) Hnull m Hm)|].
    now apply Z.eqb_eq in Hl. }
  assert (Hperm : Permutation
                    (getStringFromSerializeMappings bytes mappings)
                    (flat_map (rest_of_line bytes) mappings)).
  { rewrite getString_lines.
    rewrite (map_ext_in _
               (fun line => flat_map (rest_of_line bytes)
                              (group_of (maapingWithLine mappings) line))).
    2:{ intros line _. rewrite maapingWithLine_group, group_of_group_by.
        apply Hline. }
    rewrite <- flat_map_concat_map.
    assert (Hflat : forall ks,
              flat_map (fun line =>
                          flat_map (rest_of_line bytes)
                            (group_of (maapingWithLine mappings) line)) ks
              = flat_map (rest_of_line bytes)
                  (flat_map (group_of (maapingWithLine mappings)) ks)).
    { induction ks as [|k ks IH]; [reflexivity|].
      simpl. now rewrite flat_map_app, IH. }
    rewrite Hflat. apply Permutation_flat_map.
    rewrite groups_in_for_in_order
      by (rewrite maapingWithLine_group; apply group_by_NoDup).
    rewrite maapingWithLine_group, group_by_perm.
    apply Permutation_refl'.
    clear. induction mappings as [|m l IH]; [reflexivity|].
    simpl. f_equal. exact IH. }
  split; [|split].
  - rewrite (getString_lines_ascending bytes mappings Hlen).
    rewrite flat_map_concat_map. f_equal.
    apply map_ext. exact Hline.
  - rewrite (Permutation_length Hperm). clear.
    induction mappings as [|m l IH]; [reflexivity|].
    simpl. now rewrite length_app, IH.
  - intros m b Hb Hcol. unfold rest_of_line. rewrite Hb.
    rewrite substring_rest_length. unfold clamp. lia.
Qed.

Lemma reconstruction_without_lastGeneratedColumn_witness :
  getStringFromSerializeMappings (splitBytesByNewLine Sample.two_lines)
    [Sample.entry None 2 4 None; Sample.entry None 1 1 None;
     Sample.entry None 2 0 None]
  = rest_of_line (splitBytesByNewLine Sample.two_lines)
      (Sample.entry None 1 1 None)
    ++ rest_of_line (splitBytesByNewLine Sample.two_lines)
         (Sample.entry None 2 4 None)
    ++ rest_of_line (splitBytesByNewLine Sample.two_lines)
         (Sample.entry None 2 0 None).
Proof.
  rewrite (proj1 (reconstruction_without_lastGeneratedColumn
                    (splitBytesByNewLine Sample.two_lines)
                    [Sample.entry None 2 4 None;
                     Sample.entry None 1 1 None;
                     Sample.entry None 2 0 None]
                    ltac:(repeat constructor)
                    ltac:(vm_compute; discriminate))).
  reflexivity.
Defined.

(* ================================================================== *)
(** ** [closeBundle]: servers and files                                 *)
(* ================================================================== *)

Lemma closeBundle_servers (path_join : string -> string -> string)
    (defaultWd : string) (opts : Server.AnalyzerPluginOptions)
    (report_json html : string) (w : Server.Process) :
  Server.servers
    (Server.closeBundle path_join defaultWd opts report_json html w)
  = if starts_server opts
    then Server.servers w ++ [requested_port opts (Server.callCount w)]
    else Server.servers w.
Proof.
  unfold Server.closeBundle, starts_server, requested_port,
    Server.preferSilent, Server.preferLivingServer, Server.living_server,
    Server.writeFile, Server.bump, Server.createServer.
  destruct (Server.analyzerMode opts);
    destruct (Server.openAnalyzer opts) as [[|]|];
    destruct (Server.analyzerPort opts) as [[|n]|];
    cbn [Server.callCount Server.disk Server.servers];
    try reflexivity; do 3 f_equal; lia.
Qed.

(** X6. A run that starts the viewer asks for port 8888 plus the number
    of runs of [closeBundle] that came before it in the process (0 for
    ['auto'], the given number otherwise); json mode, and static mode
    without [openAnalyzer], start no server.  So builds in server mode
    without [analyzerPort], one after the other, get the consecutive ports
    8888 + c, 8888 + c + 1, ... *)
Theorem closeBundle_ports (path_join : string -> string -> string)
    (defaultWd : string) (builds : list Server.Build) (w : Server.Process) :
  Forall default_server builds ->
  Server.servers (Server.runs path_join defaultWd builds w)
  = Server.servers w
      ++ map (fun i => 8888 + Server.callCount w + Z.of_nat i)
           (seq 0 (List.length builds))
  /\ NoDup (map (fun i => 8888 + Server.callCount w + Z.of_nat i)
              (seq 0 (List.length builds)))
  /\ (forall opts report_json html,
        Server.servers
          (Server.closeBundle path_join defaultWd opts report_json html w)
        = if starts_server opts
          then Server.servers w ++ [requested_port opts (Server.callCount w)]
          else Server.servers w).
Proof.
  intros Hall. split; [|split].
  - unfold Server.runs. revert w.
    induction Hall as [|b builds [Hmode Hport] _ IH]; intros w.
    + simpl. now rewrite app_nil_r.
    + cbn [fold_left List.length seq map]. rewrite IH. unfold Server.run.
      rewrite closeBundle_servers, closeBundle_callCount.
      unfold starts_server, requested_port. rewrite Hmode, Hport.
      rewrite <- app_assoc. cbn [app]. do 2 f_equal; [lia|].
      rewrite <- seq_shift, map_map. apply map_ext. intros i. lia.
  - apply Finite.Injective_map_NoDup; [|apply seq_NoDup].
    intros i j Hij. lia.
  - intros opts report_json html. apply closeBundle_servers.
Qed.

Lemma closeBundle_ports_witness :
  Server.servers
    (Server.runs Sample.join "dist"
       [Sample.server_build; Sample.server_build; Sample.server_build]
       Sample.empty_directory)
  = [8888; 8889; 8890].
Proof.
  apply (proj1 (closeBundle_ports Sample.join "dist"
                  [Sample.server_build; Sample.server_build;
                   Sample.server_build]
                  Sample.empty_directory
                  ltac:(repeat constructor))).
Defined.

(** X7. [closeBundle] writes at most one file and removes none: in server
    mode the disk is left as it is, in json and static mode exactly the
    report path is written, and a path that exists before any sequence of
    runs exists after it. *)
Theorem closeBundle_files (path_join : string -> string -> string)
    (defaultWd : string) (opts : Server.AnalyzerPluginOptions)
    (report_json html : string) (w : Server.Process) :
  let w' := Server.closeBundle path_join defaultWd opts report_json html w in
  (Server.analyzerMode opts = Server.server ->
     Server.disk w' = Server.disk w)
  /\ (Server.analyzerMode opts <> Server.server ->
        exists p, Server.disk w'
                  = Server.write (Server.disk w) p
                      (report_text opts report_json html))
  /\ (forall builds q,
        Server.existsSync w q = true ->
        Server.existsSync (Server.runs path_join defaultWd builds w) q
        = true).
Proof.
  intros w'. split; [|split].
  - intros Hmode. apply closeBundle_disk_server.
    unfold Server.preferSilent. now rewrite Hmode.
  - intros Hmode. eexists. apply closeBundle_disk.
    unfold Server.preferSilent.
    destruct (Server.analyzerMode opts); [congruence | reflexivity..].
  - intros builds q. apply runs_exists_mono.
Qed.

Lemma closeBundle_files_witness :
  Server.existsSync
    (Server.runs Sample.join "dist"
       [Sample.server_build; Sample.server_build] Sample.fresh_process)
    "dist/stats-1.json" = true.
Proof.
  apply (proj2 (proj2 (closeBundle_files Sample.join "dist"
                         Sample.json_options EmptyString EmptyString
                         Sample.fresh_process))).
  reflexivity.
Defined.

(* ================================================================== *)
(** ** The [sourcemap] option: [config] and the adapter's [outputOptions] *)
(* ================================================================== *)

(** The configuration [config] returns, when it returns. *)
Lemma config_returned (logger : bool) (states : Analyzer.States)
    (cfg : Analyzer.UserConfig) (states' : Analyzer.States)
    (warnings : list string) (cfg' : Analyzer.UserConfig) :
  Analyzer.config logger states cfg
  = (states', warnings, Analyzer.Returned cfg') ->
  cfg' = Analyzer.force
           (if Analyzer.hasSetupSourcemapOption states then cfg
            else {| Analyzer.build :=
                      Some match Analyzer.build cfg with
                           | Some b => b
                           | None => {| Analyzer.sourcemap := None;
                                        Analyzer.build_others := [] |}
                           end;
                    Analyzer.others := Analyzer.others cfg |}).
Proof.
  unfold Analyzer.config.
  destruct (Analyzer.hasSetupSourcemapOption states).
  - intros Hrun. now inversion Hrun.
  - destruct (Analyzer.sourcemap _) as [sm|].
    + destruct sm; try destruct logger; intros Hrun; now inversion Hrun.
    + intros Hrun. now inversion Hrun.
Qed.

(** X8. A configuration that [config] returns has source maps switched
    on: with a [build] object, or on the first call (which creates one),
    [build.sourcemap] is [true] when the option was a boolean, even
    [false], and ['hidden'] otherwise; nothing else is changed.  Only a
    later call on a configuration without [build] returns it as it
    is. *)
Theorem config_forces_sourcemap (logger : bool) (states : Analyzer.States)
    (cfg : Analyzer.UserConfig) (states' : Analyzer.States)
    (warnings : list string) (cfg' : Analyzer.UserConfig) :
  Analyzer.config logger states cfg
  = (states', warnings, Analyzer.Returned cfg') ->
  Analyzer.others cfg' = Analyzer.others cfg
  /\ (Analyzer.hasSetupSourcemapOption states = false
      \/ Analyzer.build cfg <> None ->
      exists b',
        Analyzer.build cfg' = Some b'
        /\ Analyzer.sourcemap b' = Some (forced (configured cfg))
        /\ Analyzer.build_others b'
           = match Analyzer.build cfg with
             | Some b => Analyzer.build_others b
             | None => []
             end)
  /\ (Analyzer.hasSetupSourcemapOption states = true ->
      Analyzer.build cfg = None -> cfg' = cfg).
Proof.
  intros Hrun. apply config_returned in Hrun. subst cfg'.
  unfold Analyzer.force, configured, forced.
  destruct cfg as [bld oth]. cbn [Analyzer.build Analyzer.others].
  destruct (Analyzer.hasSetupSourcemapOption states);
    destruct bld as [[sm rest]|];
    cbn [Analyzer.build Analyzer.others Analyzer.sourcemap
           Analyzer.build_others].
  - split; [reflexivity|]. split; [|discriminate].
    intros _. eexists. split; [reflexivity|]. split; [|reflexivity].
    cbn [Analyzer.sourcemap]. now destruct sm as [[]|].
  - split; [reflexivity|]. split; [|reflexivity].
    intros [Hf | Hb]; [discriminate | now contradiction Hb].
  - split; [reflexivity|]. split; [|discriminate].
    intros _. eexists. split; [reflexivity|]. split; [|reflexivity].
    cbn [Analyzer.sourcemap]. now destruct sm as [[]|].
  - split; [reflexivity|]. split; [|discriminate].
    intros _. eexists. split; [reflexivity|]. split; reflexivity.
Qed.

Lemma config_forces_sourcemap_witness :
  exists b',
    Analyzer.build (Analyzer.force (Sample.with_sourcemap
                                      (Analyzer.boolean false)))
    = Some b'
    /\ Analyzer.sourcemap b' = Some (Analyzer.boolean true).
Proof.
  destruct (config_forces_sourcemap true Sample.untouched
              (Sample.with_sourcemap (Analyzer.boolean false))
              {| Analyzer.hasSetupSourcemapOption := true;
                 Analyzer.lastSourcemapOption := false |}
              []
              (Analyzer.force (Sample.with_sourcemap
                                 (Analyzer.boolean false)))
              eq_refl) as (_ & Hforce & _).
  destruct (Hforce (or_introl eq_refl)) as (b' & Hb & Hsm & _).
  exists b'. split; [exact Hb | exact Hsm].
Defined.

(** X9. [config] records the user's option once.  After a call that
    returns, [states.hasSetupSourcemapOption] is set and
    [states.lastSourcemapOption] is what the first call found ([true]
    for [true] and ['hidden'], [false] for any other value, unchanged
    without the key), not the value the option was forced to; calling
    [config] again on the configuration it returned changes neither
    [states] nor the configuration and logs nothing. *)
Theorem config_twice (logger logger' : bool) (states : Analyzer.States)
    (cfg : Analyzer.UserConfig) (states1 : Analyzer.States)
    (warnings : list string) (cfg1 : Analyzer.UserConfig) :
  Analyzer.config logger states cfg
  = (states1, warnings, Analyzer.Returned cfg1) ->
  Analyzer.config logger' states1 cfg1 = (states1, [], Analyzer.Returned cfg1)
  /\ Analyzer.hasSetupSourcemapOption states1 = true
  /\ Analyzer.lastSourcemapOption states1
     = if Analyzer.hasSetupSourcemapOption states
       then Analyzer.lastSourcemapOption states
       else match configured cfg with
            | Some sm => Analyzer.wanted sm
            | None => Analyzer.lastSourcemapOption states
            end.
Proof.
  intros Hrun. pose proof (config_returned _ _ _ _ _ _ Hrun) as Hcfg.
  assert (Hforce : forall c, Analyzer.force (Analyzer.force c)
                             = Analyzer.force c).
  { intros [[[sm rest]|] oth]; [|reflexivity].
    unfold Analyzer.force. cbn. now destruct sm as [[]|]. }
  assert (Hstates :
    Analyzer.hasSetupSourcemapOption states1 = true
    /\ Analyzer.lastSourcemapOption states1
       = if Analyzer.hasSetupSourcemapOption states
         then Analyzer.lastSourcemapOption states
         else match configured cfg with
              | Some sm => Analyzer.wanted sm
              | None => Analyzer.lastSourcemapOption states
              end).
  { revert Hrun. unfold Analyzer.config, configured.
    destruct (Analyzer.hasSetupSourcemapOption states) eqn:Hset.
    - intros Hrun. inversion Hrun; subst. now split.
    - destruct (Analyzer.build cfg) as [[sm rest]|];
        cbn [Analyzer.sourcemap].
      + destruct sm as [[| | |]|]; try destruct logger;
          intros Hrun; inversion Hrun; now split.
      + intros Hrun. inversion Hrun. now split. }
  split; [|exact Hstates].
  destruct Hstates as [Hset1 _]. unfold Analyzer.config. rewrite Hset1.
  subst cfg1. now rewrite Hforce.
Qed.

Lemma config_twice_witness :
  Analyzer.config false
    {| Analyzer.hasSetupSourcemapOption := true;
       Analyzer.lastSourcemapOption := false |}
    (Analyzer.force (Sample.with_sourcemap (Analyzer.boolean false)))
  = ({| Analyzer.hasSetupSourcemapOption := true;
        Analyzer.lastSourcemapOption := false |},
     [],
     Analyzer.Returned
       (Analyzer.force (Sample.with_sourcemap (Analyzer.boolean false)))).
Proof.
  exact (proj1 (config_twice true false Sample.untouched
                  (Sample.with_sourcemap (Analyzer.boolean false))
                  {| Analyzer.hasSetupSourcemapOption := true;
                     Analyzer.lastSourcemapOption := false |}
                  []
                  (Analyzer.force (Sample.with_sourcemap
                                     (Analyzer.boolean false)))
                  eq_refl)).
Defined.

(** X10. [config] warns through [logger], which is assigned by
    [configResolved] only.  The hook throws exactly when it is the first
    to set up the option, the option is ['inline'] and [logger] is still
    unassigned; by then [states] is already marked as set up with
    [lastSourcemapOption] false, so that a later call on the same
    configuration returns it with ['hidden'] and without the warning. *)
Theorem config_inline_throws (logger : bool) (states : Analyzer.States)
    (cfg : Analyzer.UserConfig) :
  (snd (Analyzer.config logger states cfg) = Analyzer.Thrown
   <-> logger = false
       /\ Analyzer.hasSetupSourcemapOption states = false
       /\ configured cfg = Some Analyzer.inline)
  /\ (snd (Analyzer.config logger states cfg) = Analyzer.Thrown ->
      let marked := {| Analyzer.hasSetupSourcemapOption := true;
                       Analyzer.lastSourcemapOption := false |} in
      fst (Analyzer.config logger states cfg) = (marked, [])
      /\ forall logger',
           Analyzer.config logger' marked cfg
           = (marked, [], Analyzer.Returned (Analyzer.force cfg))
           /\ configured (Analyzer.force cfg) = Some Analyzer.hidden)
  /\ (logger = true ->
      Analyzer.hasSetupSourcemapOption states = false ->
      configured cfg = Some Analyzer.inline ->
      snd (fst (Analyzer.config logger states cfg))
      = [Analyzer.inline_warning]).
Proof.
  unfold Analyzer.config, configured, Analyzer.force.
  destruct cfg as [[[sm rest]|] oth];
    cbn [Analyzer.build Analyzer.others Analyzer.sourcemap
           Analyzer.build_others];
    destruct (Analyzer.hasSetupSourcemapOption states) eqn:Hset;
    try (destruct sm as [[[|]| | |]|]); destruct logger; cbn;
    (split; [split; [try discriminate; try now intros _
                    | try now intros (? & ? & ?)]|]).
  all: split;
    [ try discriminate;
      try (intros _; split; [reflexivity|]; intros logger'; now split)
    | try discriminate; try reflexivity; try now intros ].
Qed.

(** X11. The adapter's [outputOptions] acts once.  The first call
    returns the options with [sourcemap] set to [true] if it was [true]
    and to ['hidden'] in every other case, the rest as it was, and records
    what the user asked for.  It makes a non-empty [dir] the root, keeps
    the root it had when [dir] is missing or empty, and sets the
    workspace root to [searchForWorkspaceRoot] of that root.  Every later
    call returns [undefined] and changes nothing. *)
Theorem outputOptions_once (searchForWorkspaceRoot : string -> string)
    (env env' : Adapter.Env) (o : Adapter.OutputOptions)
    (result : option Adapter.OutputOptions) :
  Analyzer.hasSetupSourcemapOption (Adapter.states env) = false ->
  Adapter.outputOptions searchForWorkspaceRoot env o = (env', result) ->
  (exists o',
     result = Some o'
     /\ Adapter.sourcemap o' = Some (if match Adapter.sourcemap o with
                                        | Some (Analyzer.boolean b) => b
                                        | _ => false
                                        end
                                     then Analyzer.boolean true
                                     else Analyzer.hidden)
     /\ Adapter.dir o' = Adapter.dir o
     /\ Adapter.others o' = Adapter.others o)
  /\ Analyzer.hasSetupSourcemapOption (Adapter.states env') = true
  /\ Analyzer.lastSourcemapOption (Adapter.states env')
     = match Adapter.sourcemap o with
       | Some sm => Analyzer.wanted sm
       | None => Analyzer.lastSourcemapOption (Adapter.states env)
       end
  /\ (forall d, Adapter.dir o = Some d -> d <> EmptyString ->
      Adapter.root env' = d
      /\ Adapter.workspaceRoot env' = searchForWorkspaceRoot d)
  /\ (Adapter.dir o = None \/ Adapter.dir o = Some EmptyString ->
      Adapter.root env' = Adapter.root env
      /\ Adapter.workspaceRoot env'
         = searchForWorkspaceRoot (Adapter.root env))
  /\ forall o2,
       Adapter.outputOptions searchForWorkspaceRoot env' o2 = (env', None).
Proof.
  intros Hset. unfold Adapter.outputOptions. rewrite Hset.
  intros Hrun. inversion Hrun; subst; clear Hrun.
  cbn [Adapter.states Adapter.root Adapter.workspaceRoot Adapter.sourcemap
         Adapter.dir Adapter.others Analyzer.hasSetupSourcemapOption
         Analyzer.lastSourcemapOption].
  split; [|split; [reflexivity|split; [reflexivity|split; [|split]]]].
  - eexists. split; [reflexivity|].
    cbn [Adapter.sourcemap Adapter.dir Adapter.others].
    split; [|now split].
    now destruct (Adapter.sourcemap o) as [[[]| | |]|].
  - intros d Hd Hne. rewrite Hd.
    destruct d as [|c d]; [contradiction|]. now split.
  - intros [Hd | Hd]; rewrite Hd; now split.
  - reflexivity.
Qed.

Lemma outputOptions_once_witness :
  Adapter.root
    (fst (Adapter.outputOptions (fun d => (d ++ "/..")%string)
            Sample.adapter_start
            (Sample.output_with (Analyzer.boolean false))))
  = "out"%string
  /\ Adapter.workspaceRoot
       (fst (Adapter.outputOptions (fun d => (d ++ "/..")%string)
               Sample.adapter_start
               (Sample.output_with (Analyzer.boolean false))))
     = "out/.."%string
  /\ exists o',
       snd (Adapter.outputOptions (fun d => (d ++ "/..")%string)
              Sample.adapter_start
              (Sample.output_with (Analyzer.boolean false)))
       = Some o'
       /\ Adapter.sourcemap o' = Some Analyzer.hidden.
Proof.
  destruct (outputOptions_once (fun d => (d ++ "/..")%string)
              Sample.adapter_start _
              (Sample.output_with (Analyzer.boolean false)) _
              eq_refl eq_refl)
    as ((o' & Ho & Hsm & _) & _ & _ & Hdir & _).
  destruct (Hdir "out"%string eq_refl ltac:(discriminate))
    as [Hroot Hws].
  split; [exact Hroot|]. split; [exact Hws|].
  exists o'. split; [exact Ho | exact Hsm].
Defined.

(* ================================================================== *)
(** ** [generateBundle]: the bundle after the loop                      *)
(* ================================================================== *)

Lemma filter_and {A : Type} (p q : A -> bool) (l : list A) :
  filter q (filter p l) = filter (fun x => p x && q x) l.
Proof.
  induction l as [|x l IH]; simpl; [reflexivity|].
  destruct (p x); simpl; [|exact IH].
  destruct (q x); now rewrite IH.
Qed.

Lemma map_filter_ext {A B : Type} (F F' : A -> B) (P P' : A -> bool)
    (l : list A) :
  (forall x, In x l -> P x = P' x) ->
  (forall x, In x l -> P x = true -> F x = F' x) ->
  map F (filter P l) = map F' (filter P' l).
Proof.
  intros HP HF. rewrite <- (filter_ext_in _ _ _ HP).
  apply map_ext_in. intros x Hx. apply filter_In in Hx. now apply HF.
Qed.

Section ObjectValues.
Context {K V : Type} `{PropertyKey K}.
Implicit Types (o : Obj K V) (k : K).

Lemma get_In o k v : get o k = Some v -> In (k, v) o.
Proof.
  induction o as [|[k' v'] o IH]; simpl; [discriminate|].
  destruct (key_eqb k' k) eqn:E.
  - apply key_eqb_eq in E. subst k'. intros Hv. inversion Hv. now left.
  - intros Hv. right. now apply IH.
Qed.

(** Lookup in an object whose properties were filtered and rewritten. *)
Lemma get_map_filter (F : K * V -> V) (P : K * V -> bool) o k :
  NoDup (map fst o) ->
  get (map (fun kv => (fst kv, F kv)) (filter P o)) k
  = match get o k with
    | Some v => if P (k, v) then Some (F (k, v)) else None
    | None => None
    end.
Proof.
  induction o as [|[k' v'] o IH]; intros Hnd; [reflexivity|].
  inversion Hnd as [|? ? Hnin Hnd']; subst. simpl.
  destruct (key_eqb k' k) eqn:E.
  - apply key_eqb_eq in E. subst k'.
    destruct (P (k, v')); simpl; [now rewrite key_eqb_refl|].
    rewrite (IH Hnd').
    now rewrite (proj2 (get_None_keys o k) Hnin).
  - destruct (P (k', v')); simpl; [rewrite E|]; now apply IH.
Qed.

(** Assignment to a property that exists rewrites it in place. *)
Lemma set_map (F : K * V -> V) (l : Obj K V) k x :
  NoDup (map fst l) -> In k (map fst l) ->
  set (map (fun kv => (fst kv, F kv)) l) k x
  = map (fun kv => (fst kv, if key_eqb (fst kv) k then x else F kv)) l.
Proof.
  induction l as [|[k' v'] l IH]; intros Hnd Hin; [contradiction|].
  inversion Hnd as [|? ? Hnin Hnd']; subst. simpl.
  destruct (key_eqb k' k) eqn:E.
  - apply key_eqb_eq in E. subst k'. f_equal.
    apply map_ext_in. intros [k1 v1] Hin1. simpl.
    rewrite key_eqb_neq; [reflexivity|].
    intros ->. apply Hnin. apply in_map_iff. now exists (k, v1).
  - f_equal. apply IH; [assumption|].
    destruct Hin as [Heq | Hin]; [|assumption].
    simpl in Heq. subst k'. now rewrite key_eqb_refl in E.
Qed.

Lemma NoDup_keys_filter (P : K -> bool) o :
  NoDup (map fst o) -> NoDup (map fst (filter (fun kv => P (fst kv)) o)).
Proof.
  intros Hnd. rewrite map_fst_filter. now apply NoDup_filter.
Qed.
End ObjectValues.

Section BundleFacts.
Import Analyzer.
Variable extname : string -> string.
Hypothesis extname_map : forall g, extname (g ++ ".map") <> ".js"%string.

Lemma visited_In (done : list string) (k : string) :
  visited done k = true <-> In k done.
Proof.
  unfold visited. rewrite existsb_exists. split.
  - intros (x & Hin & E). apply String.eqb_eq in E. now subst.
  - intros Hin. exists k. split; [assumption | apply String.eqb_refl].
Qed.

Lemma visited_snoc (done : list string) (k k' : string) :
  visited (done ++ [k]) k' = visited done k' || String.eqb k' k.
Proof. unfold visited. rewrite existsb_app. simpl. now rewrite orb_false_r. Qed.

Lemma map_name_inj (v w : Output) :
  map_name v = map_name w -> fileName v = fileName w.
Proof. unfold map_name. apply append_cancel_r. Qed.

(** A source map file is no [.js] entry. *)
Lemma map_not_js (b : OutputBundle) (k : string) (v w : Output) :
  by_fileName b -> In (k, v) b -> map_name w = k -> js extname v = false.
Proof.
  intros [_ Hname] Hin Hk. unfold js, expectFile.
  rewrite (Hname k v Hin), <- Hk. unfold map_name.
  destruct (String.eqb _ _) eqn:E; [|reflexivity].
  apply String.eqb_eq in E. now apply extname_map in E.
Qed.

Lemma same_key (b : OutputBundle) (k : string) (v w : Output) :
  NoDup (List.map fst b) -> In (k, v) b -> In (k, w) b -> v = w.
Proof.
  intros Hnd Hv Hw. apply (In_get b k v Hnd) in Hv.
  apply (In_get b k w Hnd) in Hw. congruence.
Qed.

Lemma map_of_visited_snoc (done : list string) (b : OutputBundle)
    (k : string) (v : Output) (k' : string) :
  NoDup (List.map fst b) -> In (k, v) b ->
  map_of_visited extname (done ++ [k]) b k'
  = map_of_visited extname done b k'
    || (js extname v && String.eqb (map_name v) k').
Proof.
  intros Hnd Hin. apply Bool.eq_true_iff_eq. unfold map_of_visited.
  rewrite orb_true_iff, !existsb_exists. split.
  - intros ([k1 v1] & Hin1 & Hc). simpl in Hc. rewrite visited_snoc in Hc.
    apply andb_true_iff in Hc. destruct Hc as [Hc Hm].
    apply andb_true_iff in Hc. destruct Hc as [Hv Hj].
    apply orb_true_iff in Hv. destruct Hv as [Hv | Hk].
    + left. exists (k1, v1). split; [assumption|]. simpl.
      now rewrite Hv, Hj, Hm.
    + right. apply String.eqb_eq in Hk. subst k1.
      rewrite (same_key b k v v1 Hnd Hin Hin1). now rewrite Hj, Hm.
  - intros [([k1 v1] & Hin1 & Hc) | Hc].
    + exists (k1, v1). split; [assumption|]. simpl in *.
      rewrite visited_snoc.
      apply andb_true_iff in Hc. destruct Hc as [Hc Hm].
      apply andb_true_iff in Hc. destruct Hc as [Hv Hj].
      now rewrite Hv, Hj, Hm.
    + exists (k, v). split; [assumption|]. simpl.
      rewrite visited_snoc, String.eqb_refl, orb_true_r. exact Hc.
Qed.

(** The source map of an entry whose turn has not come is still there. *)
Lemma map_of_visited_own (done : list string) (b : OutputBundle)
    (k : string) (v : Output) :
  by_fileName b -> In (k, v) b -> ~ In k done ->
  map_of_visited extname done b (map_name v) = false.
Proof.
  intros [Hnd Hname] Hin Hnot.
  destruct (map_of_visited extname done b (map_name v)) eqn:E;
    [|reflexivity].
  unfold map_of_visited in E. apply existsb_exists in E.
  destruct E as ([k1 v1] & Hin1 & Hc). simpl in Hc.
  apply andb_true_iff in Hc. destruct Hc as [Hc Hm].
  apply andb_true_iff in Hc. destruct Hc as [Hv _].
  apply String.eqb_eq in Hm. apply map_name_inj in Hm.
  rewrite (Hname k1 v1 Hin1), (Hname k v Hin) in Hm. subst k1.
  now apply visited_In in Hv.
Qed.

Lemma stripped_same (b : OutputBundle) (v : Output) :
  js extname v = false \/ has b (map_name v) = true \/ is_chunk v = false ->
  stripped extname b v = v.
Proof.
  unfold stripped. intros [-> | [-> | ->]]; [reflexivity | |].
  - now rewrite andb_false_r.
  - now rewrite andb_false_r.
Qed.

Lemma map_name_absent (b : OutputBundle) (v v1 : Output) (k1 : string) :
  has b (map_name v) = false -> In (k1, v1) b ->
  String.eqb (map_name v) k1 = false.
Proof.
  intros Hm Hin1. destruct (String.eqb (map_name v) k1) eqn:E;
    [|reflexivity].
  apply String.eqb_eq in E. subst k1.
  assert (Hhas : has b (map_name v) = true).
  { apply has_keys. apply in_map_iff. now exists (map_name v, v1). }
  congruence.
Qed.

(** One more key whose entry is left as it is. *)
Lemma bundle_after_same (done : list string) (b : OutputBundle)
    (k : string) (v : Output) :
  NoDup (List.map fst b) -> In (k, v) b ->
  js extname v = false \/ has b (map_name v) = false ->
  stripped extname b v = v ->
  bundle_after extname (done ++ [k]) b = bundle_after extname done b.
Proof.
  intros Hnd Hin Hcase Hstrip. unfold bundle_after.
  apply map_filter_ext.
  - intros [k1 v1] Hin1. simpl.
    rewrite (map_of_visited_snoc done b k v k1 Hnd Hin).
    destruct Hcase as [Hj | Hm]; [now rewrite Hj, orb_false_r|].
    rewrite (map_name_absent b v v1 k1 Hm Hin1).
    now rewrite andb_false_r, orb_false_r.
  - intros [k1 v1] Hin1 _. simpl. f_equal. rewrite visited_snoc.
    destruct (String.eqb k1 k) eqn:E;
      [|now rewrite orb_false_r].
    apply String.eqb_eq in E. subst k1.
    rewrite (same_key b k v1 v Hnd Hin1 Hin), orb_true_r, Hstrip.
    now destruct (visited done k).
Qed.

(** The turn of a [.js] entry with a source map file. *)
Lemma bundle_after_delete (done : list string) (b : OutputBundle)
    (k : string) (v : Output) :
  NoDup (List.map fst b) -> In (k, v) b ->
  js extname v = true -> has b (map_name v) = true ->
  deleteProperty (bundle_after extname done b) (map_name v)
  = bundle_after extname (done ++ [k]) b.
Proof.
  intros Hnd Hin Hj Hm. unfold bundle_after, deleteProperty.
  rewrite filter_map_swap. cbn [fst]. rewrite filter_and.
  apply map_filter_ext.
  - intros [k1 v1] Hin1. cbn [fst].
    rewrite (map_of_visited_snoc done b k v k1 Hnd Hin), Hj.
    rewrite negb_orb, String.eqb_sym. reflexivity.
  - intros [k1 v1] Hin1 _. cbn [fst snd]. f_equal. rewrite visited_snoc.
    destruct (String.eqb k1 k) eqn:E;
      [|now rewrite orb_false_r].
    apply String.eqb_eq in E. subst k1.
    rewrite (same_key b k v1 v Hnd Hin1 Hin), orb_true_r.
    rewrite (stripped_same b v) by auto.
    now destruct (visited done k).
Qed.

(** The turn of a [.js] chunk without a source map file. *)
Lemma bundle_after_strip (done : list string) (b : OutputBundle)
    (k : string) (v : Output) :
  NoDup (List.map fst b) -> In (k, v) b -> ~ In k done ->
  map_of_visited extname done b k = false ->
  js extname v = true -> has b (map_name v) = false -> is_chunk v = true ->
  set (bundle_after extname done b) k (without_map v)
  = bundle_after extname (done ++ [k]) b.
Proof.
  intros Hnd Hin Hnot Hmov Hj Hm Hc. unfold bundle_after.
  rewrite (set_map
             (fun kv => if visited done (fst kv)
                        then stripped extname b (snd kv) else snd kv)).
  - apply map_filter_ext.
    + intros [k1 v1] Hin1. cbn [fst].
      rewrite (map_of_visited_snoc done b k v k1 Hnd Hin).
      rewrite (map_name_absent b v v1 k1 Hm Hin1).
      now rewrite andb_false_r, orb_false_r.
    + intros [k1 v1] Hin1 _. cbn [fst snd]. f_equal. rewrite visited_snoc.
      change (key_eqb k1 k) with (String.eqb k1 k).
      destruct (String.eqb k1 k) eqn:E;
        [|now rewrite orb_false_r].
      apply String.eqb_eq in E. subst k1.
      rewrite (same_key b k v1 v Hnd Hin1 Hin), orb_true_r.
      unfold stripped. now rewrite Hj, Hm, Hc.
  - now apply (NoDup_keys_filter
                 (fun k1 => negb (map_of_visited extname done b k1))).
  - apply in_map_iff. exists (k, v). split; [reflexivity|].
    apply filter_In. split; [assumption|]. cbn [fst]. now rewrite Hmov.
Qed.

(** One turn of the loop when source maps were not asked for. *)
Lemma visit_step (states : States) (done : list string) (b : OutputBundle)
    (calls : list (Output * option string)) (k : string) :
  lastSourcemapOption states = false -> by_fileName b ->
  In k (List.map fst b) -> ~ In k done ->
  visit extname states
    {| outputBundle := bundle_after extname done b; addModule := calls |} k
  = {| outputBundle := bundle_after extname (done ++ [k]) b;
       addModule := calls ++ call_of extname b k |}.
Proof.
  intros Hlast Hb Hk Hnot. pose proof Hb as [Hnd Hname].
  apply in_map_iff in Hk. destruct Hk as ([k0 v] & Hk0 & Hin).
  simpl in Hk0. subst k0.
  pose proof (In_get b k v Hnd Hin) as Hgetb.
  assert (Hvis : visited done k = false).
  { destruct (visited done k) eqn:E; [|reflexivity].
    now apply visited_In in E. }
  assert (Hget : get (bundle_after extname done b) k
                 = if map_of_visited extname done b k then None else Some v).
  { unfold bundle_after.
    rewrite (get_map_filter
               (fun kv => if visited done (fst kv)
                          then stripped extname b (snd kv) else snd kv)
               (fun kv => negb (map_of_visited extname done b (fst kv))))
      by assumption.
    rewrite Hgetb. cbn [fst snd]. rewrite Hvis.
    now destruct (map_of_visited extname done b k). }
  assert (Hhas : has (bundle_after extname done b) (map_name v)
                 = has b (map_name v)).
  { unfold has at 1. unfold bundle_after.
    rewrite (get_map_filter
               (fun kv => if visited done (fst kv)
                          then stripped extname b (snd kv) else snd kv)
               (fun kv => negb (map_of_visited extname done b (fst kv))))
      by assumption.
    cbn [fst]. rewrite (map_of_visited_own done b k v Hb Hin Hnot).
    unfold has. now destruct (get b (map_name v)). }
  unfold visit, call_of. cbn [outputBundle addModule].
  rewrite Hget, Hgetb.
  destruct (map_of_visited extname done b k) eqn:Hmov.
  - assert (Hj : js extname v = false).
    { unfold map_of_visited in Hmov. apply existsb_exists in Hmov.
      destruct Hmov as ([k1 w] & _ & Hc). simpl in Hc.
      apply andb_true_iff in Hc. destruct Hc as [_ Hm].
      apply String.eqb_eq in Hm. exact (map_not_js b k v w Hb Hin Hm). }
    rewrite Hj, app_nil_r. f_equal. symmetry.
    apply (bundle_after_same done b k v Hnd Hin); [now left|].
    apply stripped_same. now left.
  - unfold validateChunk.
    change (expectFile extname (fileName v) ".js") with (js extname v).
    change (fileName v ++ ".map")%string with (map_name v).
    destruct (js extname v) eqn:Hj.
    + rewrite Hhas, Hlast.
      destruct (has b (map_name v)) eqn:Hm; cbn [negb andb].
      * f_equal. now apply bundle_after_delete.
      * destruct (is_chunk v) eqn:Hc; f_equal.
        -- now apply bundle_after_strip.
        -- symmetry.
           apply (bundle_after_same done b k v Hnd Hin); [now right|].
           apply stripped_same. now right; right.
    + rewrite Hlast, app_nil_r. cbn [negb andb]. f_equal. symmetry.
      apply (bundle_after_same done b k v Hnd Hin); [now left|].
      apply stripped_same. now left.
Qed.

Lemma visit_fold (states : States) (b : OutputBundle) (todo done : list string)
    (calls : list (Output * option string)) :
  lastSourcemapOption states = false -> by_fileName b ->
  NoDup (done ++ todo) -> (forall k, In k todo -> In k (List.map fst b)) ->
  fold_left (visit extname states) todo
    {| outputBundle := bundle_after extname done b; addModule := calls |}
  = {| outputBundle := bundle_after extname (done ++ todo) b;
       addModule := calls ++ flat_map (call_of extname b) todo |}.
Proof.
  intros Hlast Hb. revert done calls.
  induction todo as [|k todo IH]; intros done calls Hnd Hkeys.
  - simpl. now rewrite !app_nil_r.
  - cbn [fold_left flat_map]. rewrite visit_step; try assumption.
    + rewrite IH.
      * now rewrite <- !app_assoc.
      * now rewrite <- app_assoc.
      * intros k' Hk'. apply Hkeys. now right.
    + apply Hkeys. now left.
    + apply NoDup_remove_2 in Hnd. intros Hin. apply Hnd.
      apply in_app_iff. now left.
Qed.

Lemma bundle_after_nil (b : OutputBundle) : bundle_after extname [] b = b.
Proof.
  unfold bundle_after.
  rewrite (map_filter_ext _ (fun kv => kv) _ (fun _ => true)).
  - rewrite map_id. clear. induction b as [|kv b IH]; simpl; congruence.
  - intros [k v] _. cbn [fst]. unfold map_of_visited.
    replace (existsb _ b) with false; [reflexivity|].
    symmetry. clear. induction b as [|kv b IH]; simpl; auto.
  - now intros [k v] _ _.
Qed.

Lemma bundle_after_all (b : OutputBundle) :
  bundle_after extname (for_in b) b = cleaned extname b.
Proof.
  assert (Hall : forall k v, In (k, v) b -> visited (for_in b) k = true).
  { intros k v Hin. apply visited_In, for_in_In, in_map_iff.
    now exists (k, v). }
  unfold bundle_after, cleaned. apply map_filter_ext.
  - intros [k v] _. cbn [fst]. f_equal.
    apply Bool.eq_true_iff_eq. unfold map_of_visited, map_of_module.
    rewrite !existsb_exists.
    split; intros ([k1 v1] & Hin1 & Hc); exists (k1, v1);
      (split; [assumption|]); cbn [fst snd] in *.
    + now rewrite (Hall k1 v1 Hin1) in Hc.
    + now rewrite (Hall k1 v1 Hin1).
  - intros [k v] Hin _. cbn [fst snd]. now rewrite (Hall k v Hin).
Qed.

Lemma for_in_NoDup (b : OutputBundle) :
  NoDup (List.map fst b) -> NoDup (for_in b).
Proof.
  intros Hnd. apply (Permutation_NoDup (l := List.map fst b)); [|assumption].
  symmetry. apply for_in_perm.
Qed.

(** The loop when source maps were not asked for. *)
Lemma generateBundle_cleaned (states : States) (b : OutputBundle) :
  lastSourcemapOption states = false -> by_fileName b ->
  generateBundle extname states b
  = {| outputBundle := cleaned extname b;
       addModule := flat_map (call_of extname b) (for_in b) |}.
Proof.
  intros Hlast Hb. unfold generateBundle.
  rewrite <- (bundle_after_nil b) at 2.
  rewrite (visit_fold states b (for_in b) [] [] Hlast Hb).
  - cbn [app]. now rewrite bundle_after_all.
  - cbn [app]. apply for_in_NoDup. apply Hb.
  - intros k. apply for_in_In.
Qed.

(** The loop when source maps were asked for leaves the bundle alone. *)
Lemma visit_fold_kept (states : States) (b : OutputBundle)
    (todo : list string) (calls : list (Output * option string)) :
  lastSourcemapOption states = true ->
  fold_left (visit extname states) todo
    {| outputBundle := b; addModule := calls |}
  = {| outputBundle := b;
       addModule := calls ++ flat_map (call_of extname b) todo |}.
Proof.
  intros Hlast. revert calls.
  induction todo as [|k todo IH]; intros calls.
  - simpl. now rewrite app_nil_r.
  - cbn [fold_left flat_map].
    assert (Hstep : visit extname states
                      {| outputBundle := b; addModule := calls |} k
                    = {| outputBundle := b;
                         addModule := calls ++ call_of extname b k |}).
    { unfold visit, call_of. cbn [outputBundle addModule].
      destruct (get b k) as [v|]; [|now rewrite app_nil_r].
      unfold validateChunk.
      change (expectFile extname (fileName v) ".js") with (js extname v).
      change (fileName v ++ ".map")%string with (map_name v).
      rewrite Hlast.
      destruct (js extname v); [|now rewrite app_nil_r].
      now destruct (has b (map_name v)). }
    rewrite Hstep, IH. now rewrite <- app_assoc.
Qed.

Lemma generateBundle_kept (states : States) (b : OutputBundle) :
  lastSourcemapOption states = true ->
  generateBundle extname states b
  = {| outputBundle := b;
       addModule := flat_map (call_of extname b) (for_in b) |}.
Proof.
  intros Hlast. unfold generateBundle.
  now rewrite (visit_fold_kept states b (for_in b) [] Hlast).
Qed.

End BundleFacts.

Lemma sample_extname_map (g : string) :
  Sample.extname (g ++ ".map")%string <> ".js"%string.
Proof.
  assert (Hlast : Sample.last_dot (g ++ ".map")%string = Some ".map"%string).
  { induction g as [|c g IH]; [reflexivity|].
    cbn [append Sample.last_dot]. now rewrite IH. }
  unfold Sample.extname. rewrite Hlast. discriminate.
Qed.

Lemma sample_bundle_by_fileName : by_fileName Sample.bundle.
Proof.
  split.
  - unfold Sample.bundle. cbn [map fst].
    repeat (constructor; [simpl; intuition discriminate|]). constructor.
  - intros k v Hin. unfold Sample.bundle in Hin. simpl in Hin.
    repeat (destruct Hin as [Heq | Hin]; [now inversion Heq|]).
    contradiction.
Qed.

(** What the cleaned bundle holds under a key. *)
Lemma get_cleaned (extname : string -> string) (b : Analyzer.OutputBundle)
    (k : string) :
  NoDup (map fst b) ->
  get (cleaned extname b) k
  = match get b k with
    | Some v => if map_of_module extname b k then None
                else Some (stripped extname b v)
    | None => None
    end.
Proof.
  intros Hnd. unfold cleaned.
  rewrite (get_map_filter (fun kv => stripped extname b (snd kv))
             (fun kv => negb (map_of_module extname b (fst kv))))
    by assumption.
  destruct (get b k) as [v|]; [|reflexivity]. cbn [fst snd].
  now destruct (map_of_module extname b k).
Qed.

(** X12. When source maps were not asked for
    ([states.lastSourcemapOption] false), [generateBundle] removes from a
    bundle keyed by file name exactly the source map files of its [.js]
    entries, [<fileName>.map], although it deletes while it iterates;
    every other entry stays in place, and the only change to one is that
    a [.js] chunk without a source map file loses its [map] property (a
    [.js] chunk with a source map file keeps it).  The assumption on
    [extname] holds of [path.extname]: a name ending in [.map] does not
    have the extension [.js]. *)
Theorem generateBundle_removes_maps (extname : string -> string)
    (states : Analyzer.States) (b : Analyzer.OutputBundle) :
  (forall g, extname (g ++ ".map")%string <> ".js"%string) ->
  Analyzer.lastSourcemapOption states = false ->
  by_fileName b ->
  let after :=
    Analyzer.outputBundle (Analyzer.generateBundle extname states b) in
  after = cleaned extname b
  /\ (forall k v, In (k, v) b -> js extname v = true ->
      get after (map_name v) = None)
  /\ (forall k v, In (k, v) b ->
      js extname v = true \/ map_of_module extname b k = false ->
      get after k = Some (stripped extname b v)).
Proof.
  intros Hext Hlast Hb after. subst after.
  rewrite (generateBundle_cleaned extname Hext states b Hlast Hb).
  cbn [Analyzer.outputBundle]. destruct Hb as [Hnd Hname].
  split; [reflexivity|]. split.
  - intros k v Hin Hj. rewrite (get_cleaned extname b _ Hnd).
    destruct (get b (map_name v)) as [m|]; [|reflexivity].
    replace (map_of_module extname b (map_name v)) with true; [reflexivity|].
    symmetry. unfold map_of_module. apply existsb_exists.
    exists (k, v). split; [assumption|]. cbn [snd].
    now rewrite Hj, String.eqb_refl.
  - intros k v Hin Hcase. rewrite (get_cleaned extname b _ Hnd).
    rewrite (In_get b k v Hnd Hin).
    replace (map_of_module extname b k) with false; [reflexivity|].
    destruct Hcase as [Hj | Hm]; [|now rewrite Hm].
    destruct (map_of_module extname b k) eqn:E; [|reflexivity].
    unfold map_of_module in E. apply existsb_exists in E.
    destruct E as ([k1 w] & _ & Hc). cbn [snd] in Hc.
    apply andb_true_iff in Hc. destruct Hc as [_ Hm].
    apply String.eqb_eq in Hm.
    rewrite (map_not_js extname Hext b k v w (conj Hnd Hname) Hin Hm) in Hj.
    discriminate.
Qed.

Lemma generateBundle_removes_maps_witness :
  get (Analyzer.outputBundle
         (Analyzer.generateBundle Sample.extname Sample.untouched
            Sample.bundle))
    "index.js.map"%string
  = None
  /\ get (Analyzer.outputBundle
            (Analyzer.generateBundle Sample.extname Sample.untouched
               Sample.bundle))
       "worker.js"%string
     = Some (Analyzer.without_map Sample.worker_js).
Proof.
  destruct (generateBundle_removes_maps Sample.extname Sample.untouched
              Sample.bundle sample_extname_map eq_refl
              sample_bundle_by_fileName) as (_ & Hmap & Hrest).
  split.
  - apply (Hmap "index.js"%string
             Sample.index_js);
      [now left | reflexivity].
  - apply (Hrest "worker.js"%string
             Sample.worker_js);
      [simpl; tauto | now left].
Defined.

(** X13. When source maps were asked for ([states.lastSourcemapOption]
    true), [generateBundle] leaves the bundle exactly as it was: no
    entry is removed and no [map] is dropped. *)
Theorem generateBundle_keeps_maps (extname : string -> string)
    (states : Analyzer.States) (b : Analyzer.OutputBundle) :
  Analyzer.lastSourcemapOption states = true ->
  Analyzer.outputBundle (Analyzer.generateBundle extname states b) = b.
Proof.
  intros Hlast. now rewrite (generateBundle_kept extname states b Hlast).
Qed.

Lemma generateBundle_keeps_maps_witness :
  Analyzer.outputBundle
    (Analyzer.generateBundle Sample.extname
       {| Analyzer.hasSetupSourcemapOption := true;
          Analyzer.lastSourcemapOption := true |}
       Sample.bundle)
  = Sample.bundle.
Proof.
  apply (generateBundle_keeps_maps Sample.extname
           {| Analyzer.hasSetupSourcemapOption := true;
              Analyzer.lastSourcemapOption := true |}
           Sample.bundle).
  reflexivity.
Defined.

(** X14. Whatever [states] says, [generateBundle] hands the analyzer
    every [.js] entry of a bundle keyed by file name once, in the order
    of [for ... in], as it was in the bundle before the hook, together
    with the name [<fileName>.map] when the bundle had such a file and
    [undefined] when not; no other entry is handed over.  Removing the
    source map files during the loop changes none of these calls. *)
Theorem generateBundle_addModule (extname : string -> string)
    (states : Analyzer.States) (b : Analyzer.OutputBundle) :
  (forall g, extname (g ++ ".map")%string <> ".js"%string) ->
  by_fileName b ->
  Analyzer.addModule (Analyzer.generateBundle extname states b)
  = flat_map (call_of extname b) (for_in b).
Proof.
  intros Hext Hb.
  destruct (Analyzer.lastSourcemapOption states) eqn:Hlast.
  - now rewrite (generateBundle_kept extname states b Hlast).
  - now rewrite (generateBundle_cleaned extname Hext states b Hlast Hb).
Qed.

Lemma generateBundle_addModule_witness :
  Analyzer.addModule
    (Analyzer.generateBundle Sample.extname Sample.untouched Sample.bundle)
  = [(Sample.index_js,
      Some "index.js.map"%string);
     (Sample.worker_js, None)].
Proof.
  rewrite (generateBundle_addModule Sample.extname Sample.untouched
             Sample.bundle sample_extname_map sample_bundle_by_fileName).
  reflexivity.
Defined.

(* ================================================================== *)
(** ** The two hooks and the loop together                              *)
(* ================================================================== *)

Lemma config_states (logger : bool) (states : Analyzer.States)
    (cfg : Analyzer.UserConfig) :
  let states1 := fst (fst (Analyzer.config logger states cfg)) in
  Analyzer.hasSetupSourcemapOption states1 = true
  /\ (Analyzer.hasSetupSourcemapOption states = false ->
      forall sm, configured cfg = Some sm ->
      Analyzer.lastSourcemapOption states1 = Analyzer.wanted sm).
Proof.
  unfold Analyzer.config, configured.
  destruct (Analyzer.hasSetupSourcemapOption states) eqn:Hset.
  - cbn [fst]. split; [assumption | discriminate].
  - destruct (Analyzer.build cfg) as [[sm rest]|]; cbn [Analyzer.sourcemap].
    + destruct sm as [sm|]; [|split; [reflexivity | discriminate]].
      assert (Hboth :
        Analyzer.hasSetupSourcemapOption
          {| Analyzer.hasSetupSourcemapOption := true;
             Analyzer.lastSourcemapOption := Analyzer.wanted sm |} = true
        /\ forall sm', Some sm = Some sm' ->
           Analyzer.lastSourcemapOption
             {| Analyzer.hasSetupSourcemapOption := true;
                Analyzer.lastSourcemapOption := Analyzer.wanted sm |}
           = Analyzer.wanted sm').
      { split; [reflexivity|]. intros sm' Heq. now inversion Heq. }
      destruct sm as [[| ]| | |]; try destruct logger; cbn [fst];
        (split; [apply Hboth | intros _; apply Hboth]).
    + split; [reflexivity | discriminate].
Qed.

Lemma outputOptions_states (searchForWorkspaceRoot : string -> string)
    (env : Adapter.Env) (o : Adapter.OutputOptions) :
  let states1 :=
    Adapter.states (fst (Adapter.outputOptions searchForWorkspaceRoot env o)) in
  Analyzer.hasSetupSourcemapOption states1 = true
  /\ (Analyzer.hasSetupSourcemapOption (Adapter.states env) = false ->
      forall sm, Adapter.sourcemap o = Some sm ->
      Analyzer.lastSourcemapOption states1 = Analyzer.wanted sm).
Proof.
  unfold Adapter.outputOptions.
  destruct (Analyzer.hasSetupSourcemapOption (Adapter.states env)) eqn:Hset.
  - cbn [fst]. split; [assumption | discriminate].
  - cbn [fst Adapter.states Analyzer.hasSetupSourcemapOption
           Analyzer.lastSourcemapOption].
    split; [reflexivity|]. intros _ sm Hsm. now rewrite Hsm.
Qed.

(** X15. [states] is shared by the plugin's [config] and the adapter's
    [outputOptions], and whichever runs first settles it.  After one
    call of either hook, thrown or not, every call of [config] leaves
    [states] alone, logs nothing and returns the configuration with
    [sourcemap] forced in its [build] object, if it has one, and every
    call of [outputOptions] returns [undefined] and leaves its options,
    [root] and the workspace root untouched. *)
Theorem hooks_set_up_once (searchForWorkspaceRoot : string -> string)
    (logger : bool) (states : Analyzer.States) (cfg : Analyzer.UserConfig)
    (env : Adapter.Env) (o : Adapter.OutputOptions)
    (states1 : Analyzer.States) :
  states1 = fst (fst (Analyzer.config logger states cfg))
  \/ states1
     = Adapter.states
         (fst (Adapter.outputOptions searchForWorkspaceRoot env o)) ->
  (forall logger' cfg',
     Analyzer.config logger' states1 cfg'
     = (states1, [], Analyzer.Returned (Analyzer.force cfg')))
  /\ (forall search' env' o',
        Adapter.states env' = states1 ->
        Adapter.outputOptions search' env' o' = (env', None)).
Proof.
  intros Hfirst.
  assert (Hset : Analyzer.hasSetupSourcemapOption states1 = true).
  { destruct Hfirst as [-> | ->].
    - apply config_states.
    - apply outputOptions_states. }
  split.
  - intros logger' cfg'. unfold Analyzer.config. now rewrite Hset.
  - intros search' env' o' Henv. unfold Adapter.outputOptions.
    now rewrite Henv, Hset.
Qed.

Lemma hooks_set_up_once_witness :
  Adapter.outputOptions (fun d => d)
    {| Adapter.states :=
         fst (fst (Analyzer.config false Sample.untouched
                     (Sample.with_sourcemap Analyzer.inline)));
       Adapter.root := Adapter.root Sample.adapter_start;
       Adapter.workspaceRoot := Adapter.workspaceRoot Sample.adapter_start |}
    (Sample.output_with (Analyzer.boolean true))
  = ({| Adapter.states :=
          fst (fst (Analyzer.config false Sample.untouched
                      (Sample.with_sourcemap Analyzer.inline)));
        Adapter.root := Adapter.root Sample.adapter_start;
        Adapter.workspaceRoot := Adapter.workspaceRoot Sample.adapter_start |},
     None).
Proof.
  apply (proj2 (hooks_set_up_once (fun d => d) false Sample.untouched
                  (Sample.with_sourcemap Analyzer.inline)
                  Sample.adapter_start
                  (Sample.output_with (Analyzer.boolean true))
                  _ (or_introl eq_refl))).
  reflexivity.
Defined.

(** X16. The plugin switches source maps on for its own use and takes
    them out of the output again when the user had not asked for them.
    If the first hook to run, [config] or [outputOptions], finds the
    [sourcemap] option [sm], then [generateBundle] leaves a bundle keyed
    by file name as it is when [sm] is [true] or ['hidden'], and removes
    the source map files of the [.js] entries and the [map] of [.js]
    chunks without such a file when [sm] is anything else. *)
Theorem sourcemap_option_restored (extname : string -> string)
    (searchForWorkspaceRoot : string -> string)
    (logger : bool) (states : Analyzer.States) (cfg : Analyzer.UserConfig)
    (env : Adapter.Env) (o : Adapter.OutputOptions)
    (sm : Analyzer.Sourcemap) (states1 : Analyzer.States)
    (b : Analyzer.OutputBundle) :
  (forall g, extname (g ++ ".map")%string <> ".js"%string) ->
  by_fileName b ->
  (Analyzer.hasSetupSourcemapOption states = false
   /\ configured cfg = Some sm
   /\ states1 = fst (fst (Analyzer.config logger states cfg)))
  \/ (Analyzer.hasSetupSourcemapOption (Adapter.states env) = false
      /\ Adapter.sourcemap o = Some sm
      /\ states1
         = Adapter.states
             (fst (Adapter.outputOptions searchForWorkspaceRoot env o))) ->
  Analyzer.outputBundle (Analyzer.generateBundle extname states1 b)
  = if Analyzer.wanted sm then b else cleaned extname b.
Proof.
  intros Hext Hb Hfirst.
  assert (Hlast : Analyzer.lastSourcemapOption states1 = Analyzer.wanted sm).
  { destruct Hfirst as [(Hset & Hsm & ->) | (Hset & Hsm & ->)].
    - now apply config_states.
    - now apply outputOptions_states. }
  destruct (Analyzer.wanted sm).
  - now rewrite (generateBundle_kept extname states1 b Hlast).
  - now rewrite (generateBundle_cleaned extname Hext states1 b Hlast Hb).
Qed.

Lemma sourcemap_option_restored_witness :
  Analyzer.outputBundle
    (Analyzer.generateBundle Sample.extname
       (fst (fst (Analyzer.config true Sample.untouched
                    (Sample.with_sourcemap (Analyzer.boolean false)))))
       Sample.bundle)
  = cleaned Sample.extname Sample.bundle.
Proof.
  apply (sourcemap_option_restored Sample.extname (fun d => d) true
           Sample.untouched (Sample.with_sourcemap (Analyzer.boolean false))
           Sample.adapter_start (Sample.output_with (Analyzer.boolean false))
           (Analyzer.boolean false) _ Sample.bundle
           sample_extname_map sample_bundle_by_fileName).
  left. repeat split; reflexivity.
Defined.

(* ================================================================== *)
(** ** The order of the keys of [hints]                                 *)
(* ================================================================== *)

(** *** Array-index names are canonical: one name per number *)

Lemma digits_acc (s : string) (acc : Z) :
  digits acc s
  = option_map (fun w => acc * 10 ^ Z.of_nat (String.length s) + w)
      (digits 0 s).
Proof.
  revert acc; induction s as [|c s IH]; intros acc.
  - cbn. f_equal. lia.
  - cbn [digits String.length]. destruct (digit_of c) as [d|]; [|reflexivity].
    rewrite (IH (10 * acc + d)), (IH (10 * 0 + d)).
    destruct (digits 0 s) as [w|]; [|reflexivity].
    cbn [option_map]. f_equal.
    rewrite Nat2Z.inj_succ, Z.pow_succ_r by lia. lia.
Qed.

Lemma digit_of_range (c : ascii) (d : Z) :
  digit_of c = Some d -> 0 <= d <= 9.
Proof.
  unfold digit_of.
  destruct (_ && _) eqn:E; [|discriminate].
  apply andb_true_iff in E. destruct E as [E1 E2].
  apply Z.leb_le in E1. apply Z.leb_le in E2.
  intros Hd. inversion Hd. lia.
Qed.

Lemma digit_of_inj (c c' : ascii) (d : Z) :
  digit_of c = Some d -> digit_of c' = Some d -> c = c'.
Proof.
  unfold digit_of.
  destruct (_ && _); [|discriminate].
  destruct (_ && _); [|discriminate].
  intros H1 H2. inversion H1. inversion H2.
  assert (Hn : nat_of_ascii c = nat_of_ascii c') by lia.
  rewrite <- (ascii_nat_embedding c), <- (ascii_nat_embedding c').
  now rewrite Hn.
Qed.

Lemma digits_range (s : string) (w : Z) :
  digits 0 s = Some w -> 0 <= w < 10 ^ Z.of_nat (String.length s).
Proof.
  revert w; induction s as [|c s IH]; intros w.
  - cbn. intros Hw. inversion Hw. lia.
  - cbn [digits String.length]. destruct (digit_of c) as [d|] eqn:Hd;
      [|discriminate].
    rewrite digits_acc. destruct (digits 0 s) as [w'|]; [|discriminate].
    cbn [option_map]. intros Hw. inversion Hw. subst w.
    pose proof (IH w' eq_refl) as Hw'.
    pose proof (digit_of_range c d Hd) as Hrange.
    rewrite Nat2Z.inj_succ, Z.pow_succ_r by lia. nia.
Qed.

(** The value of a numeral that does not start with a zero. *)
Lemma digits_head (c : ascii) (s : string) (n : Z) :
  digits 0 (String c s) = Some n ->
  exists d w,
    digit_of c = Some d /\ digits 0 s = Some w
    /\ n = d * 10 ^ Z.of_nat (String.length s) + w.
Proof.
  cbn [digits]. destruct (digit_of c) as [d|]; [|discriminate].
  rewrite digits_acc. destruct (digits 0 s) as [w|]; [|discriminate].
  cbn [option_map]. intros Hn. inversion Hn.
  exists d, w. repeat split; try assumption; lia.
Qed.

Lemma digits_inj (s t : string) (n : Z) :
  String.length s = String.length t ->
  digits 0 s = Some n -> digits 0 t = Some n -> s = t.
Proof.
  revert t n; induction s as [|c s IH]; intros [|c' t] n Hlen Hs Ht;
    try discriminate; [reflexivity|].
  simpl in Hlen. inversion Hlen as [Hlen'].
  destruct (digits_head c s n Hs) as (d & w & Hd & Hw & Hn).
  destruct (digits_head c' t n Ht) as (d' & w' & Hd' & Hw' & Hn').
  pose proof (digits_range s w Hw) as Hr.
  pose proof (digits_range t w' Hw') as Hr'.
  rewrite <- Hlen' in Hn', Hr'.
  set (p := 10 ^ Z.of_nat (String.length s)) in *.
  assert (Hdd : d = d') by nia.
  assert (Hww : w = w') by nia.
  subst d' w'. f_equal.
  - exact (digit_of_inj c c' d Hd Hd').
  - exact (IH t w Hlen' Hw Hw').
Qed.

(** The length of a canonical numeral is the number of digits of its
    value. *)
Lemma string_index_size (s : string) (n : Z) :
  string_index s = Some n ->
  digits 0 s = Some n
  /\ (1 <= String.length s)%nat
  /\ n < 10 ^ Z.of_nat (String.length s)
  /\ ((2 <= String.length s)%nat ->
      10 ^ (Z.of_nat (String.length s) - 1) <= n).
Proof.
  destruct s as [|c s]; [discriminate|]. unfold string_index.
  destruct (Ascii.eqb c "0" && negb (String.eqb s EmptyString)) eqn:Hzero;
    [discriminate|].
  destruct (digits 0 (String c s)) as [v|] eqn:Hv; [|discriminate].
  destruct (v <? max_array_index); [|discriminate].
  intros Hn. inversion Hn. subst v. split; [reflexivity|].
  split; [cbn [String.length]; lia|].
  split; [apply (digits_range _ _ Hv)|].
  intros Hlen. cbn [String.length] in *.
  destruct (digits_head c s n Hv) as (d & w & Hd & Hw & ->).
  pose proof (digits_range s w Hw) as Hr.
  pose proof (digit_of_range c d Hd) as Hrange.
  replace (Z.of_nat (S (String.length s)) - 1)
    with (Z.of_nat (String.length s)) by lia.
  assert (Hd1 : d <> 0).
  { intros ->. apply andb_false_iff in Hzero.
    destruct Hzero as [Hc | Hs].
    - unfold digit_of in Hd.
      destruct (_ && _); [|discriminate]. inversion Hd.
      assert (Hc' : c = "0"%char).
      { rewrite <- (ascii_nat_embedding c).
        replace (nat_of_ascii c) with 48%nat by lia. reflexivity. }
      rewrite Hc', Ascii.eqb_refl in Hc. discriminate.
    - destruct s; [simpl in Hlen; lia | discriminate]. }
  nia.
Qed.

Lemma string_index_inj (s t : string) (n : Z) :
  string_index s = Some n -> string_index t = Some n -> s = t.
Proof.
  intros Hs Ht.
  destruct (string_index_size s n Hs) as (Hds & Hs1 & Hus & Hls).
  destruct (string_index_size t n Ht) as (Hdt & Ht1 & Hut & Hlt).
  assert (Hlen : String.length s = String.length t).
  { destruct (Nat.lt_trichotomy (String.length s) (String.length t))
      as [Hlt' | [Heq | Hgt]]; [exfalso | assumption | exfalso].
    - assert (10 ^ Z.of_nat (String.length s)
              <= 10 ^ (Z.of_nat (String.length t) - 1))
        by (apply Z.pow_le_mono_r; lia).
      specialize (Hlt ltac:(lia)). lia.
    - assert (10 ^ Z.of_nat (String.length t)
              <= 10 ^ (Z.of_nat (String.length s) - 1))
        by (apply Z.pow_le_mono_r; lia).
      specialize (Hls ltac:(lia)). lia. }
  exact (digits_inj s t n Hlen Hds Hdt).
Qed.

(** *** The keys of a grouping, in the order of their creation *)

Lemma filter_all {A : Type} (l : list A) : filter (fun _ => true) l = l.
Proof. induction l as [|x l IH]; simpl; congruence. Qed.

Section GroupKeyOrder.
Context {A : Type} (key : A -> option string).

Lemma has_push (o : Obj string (list A)) (k : string) (x : A) (y : string) :
  has (push_at o k x) y = has o y || String.eqb y k.
Proof.
  unfold has at 1. destruct (String.eqb y k) eqn:E.
  - apply String.eqb_eq in E. subst y.
    now rewrite get_push_same, orb_true_r.
  - rewrite get_push_other.
    + unfold has. now rewrite orb_false_r.
    + intros ->. now rewrite String.eqb_refl in E.
Qed.

Lemma group_fold_key_order (l : list A) (o : Obj string (list A)) :
  map fst (fold_left (group_step key) l o)
  = map fst o
    ++ filter (fun k => negb (has o k))
         (first_occurrences (flat_map (key_list key) l)).
Proof.
  revert o; induction l as [|x l IH]; intros o; cbn [fold_left flat_map].
  - simpl. now rewrite app_nil_r.
  - rewrite IH. destruct (key x) as [k|] eqn:Hk.
    2:{ replace (group_step key o x) with o
          by (unfold group_step; now rewrite Hk).
        replace (key_list key x) with (@nil string)
          by (unfold key_list; now rewrite Hk).
        reflexivity. }
    replace (group_step key o x) with (push_at o k x)
      by (unfold group_step; now rewrite Hk).
    replace (key_list key x) with [k] by (unfold key_list; now rewrite Hk).
    cbn [app first_occurrences filter]. rewrite keys_push.
    assert (Hpred :
      filter (fun y => negb (has (push_at o k x) y))
        (first_occurrences (flat_map (key_list key) l))
      = filter (fun y => negb (has o y))
          (filter (fun y => negb (String.eqb y k))
             (first_occurrences (flat_map (key_list key) l)))).
    { rewrite filter_and. apply filter_ext. intros y.
      rewrite has_push, negb_orb. apply andb_comm. }
    rewrite Hpred.
    destruct (has o k); cbn [negb]; [reflexivity | now rewrite <- app_assoc].
Qed.

Lemma group_by_key_order (l : list A) :
  map fst (group_by key l) = first_occurrences (flat_map (key_list key) l).
Proof.
  unfold group_by. rewrite group_fold_key_order. cbn [map app].
  apply filter_all.
Qed.
End GroupKeyOrder.

(** *** The keys of [hints], in the order of their creation *)

Lemma attribute_keys (bytes : list Uint8Array) (o : Obj string (list Loc))
    (hints : Obj string Str) (id : string) :
  map fst (attribute bytes o hints id)
  = if gets_hint o id && negb (has hints id)
    then map fst hints ++ [id]
    else map fst hints.
Proof.
  unfold attribute, gets_hint, assign_hint.
  fold (group_of o id). rewrite sort_column_length.
  destruct (group_of o id) as [|m g]; cbn [List.length Nat.ltb Nat.leb].
  - now rewrite andb_false_r.
  - destruct (String.eqb id "__proto__"); cbn [negb andb]; [reflexivity|].
    rewrite keys_set. now destruct (has hints id).
Qed.

Lemma attribute_fold_keys (bytes : list Uint8Array)
    (o : Obj string (list Loc)) (ids : list string) (hints : Obj string Str) :
  NoDup ids -> (forall id, In id ids -> has hints id = false) ->
  map fst (fold_left (attribute bytes o) ids hints)
  = map fst hints ++ filter (gets_hint o) ids.
Proof.
  revert hints; induction ids as [|id ids IH]; intros hints Hnd Hfresh.
  - simpl. now rewrite app_nil_r.
  - inversion Hnd as [|? ? Hnin Hnd']; subst. cbn [fold_left filter].
    rewrite IH; [|assumption|].
    + rewrite attribute_keys, (Hfresh id (or_introl eq_refl)).
      cbn [negb]. rewrite andb_true_r.
      destruct (gets_hint o id); [now rewrite <- app_assoc | reflexivity].
    + intros id' Hin'.
      destruct (has (attribute bytes o hints id) id') eqn:E; [|reflexivity].
      exfalso. apply has_keys in E. rewrite attribute_keys in E.
      assert (Hold : ~ In id' (map fst hints)).
      { intros Hin. apply has_keys in Hin.
        rewrite (Hfresh id' (or_intror Hin')) in Hin. discriminate. }
      destruct (gets_hint o id && negb (has hints id)); [|contradiction].
      apply in_app_or in E. destruct E as [E | [E | []]]; [contradiction|].
      subst id'. contradiction.
Qed.

(** *** Enumerating twice *)

Lemma is_index_value (k : string) :
  is_index k = true -> string_index k = Some (index_value k).
Proof.
  unfold is_index, index_value. cbn [array_index string_key].
  now destruct (string_index k).
Qed.

Lemma index_value_inj (l : list string) :
  Forall (fun k => is_index k = true) l ->
  ForallPairs (fun x y => index_value x = index_value y -> x = y) l.
Proof.
  intros Hall x y Hx Hy Heq.
  pose proof (is_index_value x (proj1 (Forall_forall _ _) Hall x Hx)) as Hsx.
  pose proof (is_index_value y (proj1 (Forall_forall _ _) Hall y Hy)) as Hsy.
  rewrite Heq in Hsx. exact (string_index_inj x y _ Hsx Hsy).
Qed.

Lemma index_keys_ascending (ks : list string) :
  StronglySorted (ascending index_value) (map snd (index_keys ks)).
Proof.
  assert (Hval : Forall (fun p => index_value (snd p) = fst p)
                   (index_keys ks)).
  { apply Forall_forall. intros [n k] Hin. apply index_keys_In in Hin.
    destruct Hin as [_ Hk]. unfold index_value. cbn [fst snd].
    cbn [array_index string_key] in Hk. now rewrite Hk. }
  pose proof (index_keys_sorted ks) as Hs.
  induction Hs as [|p l Hs IH Hall]; [constructor|].
  inversion Hval as [|? ? Hp Hval']; subst. cbn [map].
  constructor; [now apply IH|].
  apply Forall_map, Forall_forall. intros q Hq.
  pose proof (proj1 (Forall_forall _ _) Hall q Hq) as Hle.
  pose proof (proj1 (Forall_forall _ _) Hval' q Hq) as Hvq.
  unfold ascending, index_le in *. lia.
Qed.

Lemma index_keys_strict (ks : list string) :
  NoDup ks ->
  StronglySorted (strictly_ascending index_value) (map snd (index_keys ks)).
Proof.
  intros Hnd. apply sorted_ascending_strict; [apply index_keys_ascending|].
  apply NoDup_map_NoDup_ForallPairs.
  - apply index_value_inj. apply Forall_forall. intros k Hk.
    apply (Permutation_in _ (index_keys_perm ks)) in Hk.
    now apply filter_In in Hk.
  - apply (Permutation_NoDup (Permutation_sym (index_keys_perm ks))).
    now apply NoDup_filter.
Qed.

Lemma sort_index_strict (l : list string) :
  NoDup l -> Forall (fun k => is_index k = true) l ->
  StronglySorted (strictly_ascending index_value)
    (sort (difference index_value) l).
Proof.
  intros Hnd Hall. apply sorted_ascending_strict; [apply sort_sorted|].
  apply NoDup_map_NoDup_ForallPairs.
  - apply index_value_inj. apply Forall_forall. intros k Hk.
    apply sort_In in Hk. exact (proj1 (Forall_forall _ _) Hall k Hk).
  - apply (Permutation_NoDup (Permutation_sym (sort_perm index_value l))).
    assumption.
Qed.

Lemma key_order_perm (ks : list string) :
  Permutation
    (map snd (index_keys ks) ++ filter (fun k => negb (is_index k)) ks) ks.
Proof. rewrite index_keys_perm. apply filter_split_perm. Qed.

(** Enumerating the names that an enumeration handed out, some of them
    left out, changes their order no more. *)
Lemma key_order_twice (keep : string -> bool) (ks : list string) :
  NoDup ks ->
  let handed :=
    filter keep
      (map snd (index_keys ks) ++ filter (fun k => negb (is_index k)) ks) in
  map snd (index_keys handed) ++ filter (fun k => negb (is_index k)) handed
  = key_order (filter keep ks).
Proof.
  intros Hnd handed. unfold key_order. f_equal.
  - apply (sorted_strict_unique index_value).
    + apply index_keys_strict. apply NoDup_filter.
      apply (Permutation_NoDup (Permutation_sym (key_order_perm ks))).
      assumption.
    + apply sort_index_strict; [now repeat apply NoDup_filter|].
      apply Forall_forall. intros k Hk. now apply filter_In in Hk.
    + intros x. rewrite sort_In, !filter_In. split.
      * intros Hx. apply (Permutation_in _ (index_keys_perm handed)) in Hx.
        apply filter_In in Hx. destruct Hx as [Hx Hi].
        apply filter_In in Hx. destruct Hx as [Hx Hk].
        apply (Permutation_in _ (key_order_perm ks)) in Hx. auto.
      * intros [[Hx Hk] Hi].
        apply (Permutation_in _ (Permutation_sym (index_keys_perm handed))).
        apply filter_In. split; [|assumption].
        apply filter_In. split; [|assumption].
        now apply (Permutation_in _ (Permutation_sym (key_order_perm ks))).
  - unfold handed. rewrite filter_app, filter_app, !filter_and.
    rewrite (filter_ext_in _ (fun _ => false) (map snd (index_keys ks))).
    + replace (filter (fun _ : string => false) (map snd (index_keys ks)))
        with (@nil string)
        by (induction (map snd (index_keys ks)); simpl; congruence).
      cbn [app]. apply filter_ext. intros k.
      now destruct (is_index k), (keep k).
    + intros k Hk. apply (Permutation_in _ (index_keys_perm ks)) in Hk.
      apply filter_In in Hk. destruct Hk as [_ Hi]. rewrite Hi.
      now rewrite andb_false_r.
Qed.

Lemma group_of_present {A : Type} (key : A -> option string) (l : list A)
    (x : A) (k : string) :
  In x l -> key x = Some k -> group_of (group_by key l) k <> [].
Proof.
  intros Hin Hk. rewrite group_of_group_by.
  assert (Hx : In x (filter (keyed key k) l)).
  { apply filter_In. split; [assumption|]. unfold keyed.
    rewrite Hk. apply key_eqb_refl. }
  intros Hnil. rewrite Hnil in Hx. contradiction.
Qed.

(** X17. The record [getSourceMappings] resolves to enumerates its keys
    in an order fixed by the document alone: the module ids that are
    array-index names (canonical numerals below 2^32 - 1) by ascending
    value, then the other module ids in the order in which the document
    first names them; [__proto__] is never among them.  The two
    [for ... in] loops, over the decoder's record and over the result,
    reorder no more than one does. *)
Theorem hints_key_order
    (SourceMapConsumer_new : string -> option Consumer)
    (code : Uint8Array) (rawSourceMap : string)
    (formatter : string -> string) (consumer : Consumer) :
  SourceMapConsumer_new rawSourceMap = Some consumer ->
  enumeration
    (getSourceMappings SourceMapConsumer_new code rawSourceMap formatter)
  = Resolved (key_order (filter not_proto (module_ids formatter consumer))).
Proof.
  intros Hc. rewrite (getSourceMappings_resolved _ _ _ _ _ Hc).
  unfold enumeration. f_equal.
  set (o := mappingWithId formatter consumer).
  assert (Hnd : NoDup (map fst o)).
  { unfold o. rewrite mappingWithId_group. apply group_by_NoDup. }
  assert (Hkeys : map fst o = module_ids formatter consumer).
  { unfold o, module_ids. rewrite mappingWithId_group.
    apply group_by_key_order. }
  unfold for_in at 1. rewrite attribute_fold_keys.
  - cbn [map app].
    rewrite (filter_ext_in (gets_hint o) not_proto (for_in o)).
    + unfold for_in. rewrite <- Hkeys.
      exact (key_order_twice not_proto (map fst o) Hnd).
    + intros id Hid. apply for_in_In in Hid. unfold gets_hint, not_proto.
      unfold o in Hid. rewrite mappingWithId_group in Hid.
      apply group_by_keys in Hid. destruct Hid as (m & Hm & Hk).
      pose proof (group_of_present (module_of formatter) _ m id Hm Hk)
        as Hne.
      unfold o. rewrite mappingWithId_group.
      destruct (group_of _ id); [now exfalso; apply Hne|].
      now rewrite andb_true_r.
  - apply (Permutation_NoDup (Permutation_sym (for_in_perm o))).
    assumption.
  - reflexivity.
Qed.

Lemma hints_key_order_witness :
  enumeration
    (getSourceMappings (Sample.parse Sample.numbered) Sample.two_lines
       EmptyString Sample.formatter)
  = Resolved Sample.numbered_order.
Proof.
  rewrite (hints_key_order (Sample.parse Sample.numbered) Sample.two_lines
             EmptyString Sample.formatter
             (Sample.document Sample.numbered) eq_refl).
  reflexivity.
Defined.
